(** * A schema-agnostic CRUD engine: filter compiler, query planner,
      append-only versioning

    Shallow embedding of the TypeScript sources
    - [helpers/filterOperator.ts] (class [FilterOp], suffix form),
    - [lib/utils/filter-operator.ts] (class [FilterOp], prefix form),
    - [lib/core/crud-engine.ts] (class [GenericCrudEngine]),
    - [src/core/crud-engine.ts] (class [CrudHandler]),
    - [utils/recordUtils.ts] and [operations/crudOperations.ts]
      (the append-only engine [CrudOperations]),
    - [core/crudEngine.ts] (the engine [CrudEngine] over the operations),
    - [middleware/error-handler.ts] (the function [errorHandler]),
    - [services/offline-sync.ts] (class [OfflineSyncService]).

    Conventions of the embedding.
    - A JavaScript value of type [any] is a [JsValue]; numbers are the
      integral ones and carried as [Z], a [Date] is its epoch time in [Z].
      Where the code computes with numbers the result is a [JsNumber]:
      the double nearest to the exact result, or an infinity.
    - A JavaScript object used as a dictionary is a [gmap string _];
      [Object.entries] is [map_to_list], whose enumeration order is not
      the insertion order of JavaScript: no statement below depends on it.
    - A [Map] whose insertion order is observable is an association list.
    - [async] code that can throw returns an [Outcome]; state that the
      code keeps in the database is passed explicitly. *)

From Stdlib Require Import ZArith Lia Ascii String.
From stdpp Require Import gmap strings list fin_maps sorting.

Local Open Scope Z_scope.
Set Warnings "-clear-no-such-hyp".

(* ===================================================================== *)
(** * JavaScript values *)
(* ===================================================================== *)

#[warnings="-register-all"]
Inductive JsValue : Type :=
| VUndefined
| VNull
| VBool (b : bool)
| VNum (n : Z)
| VStr (s : string)
| VDate (t : Z)
| VArr (l : list JsValue)
| VObj (l : list (string * JsValue)).

(** ToBoolean: the falsy values are [undefined], [null], [false], [0] and
    the empty string. *)
Definition truthy (v : JsValue) : bool :=
  match v with
  | VUndefined | VNull => false
  | VBool b => b
  | VNum n => negb (n =? 0)
  | VStr s => negb (String.eqb s "")
  | VDate _ | VArr _ | VObj _ => true
  end.

(** [a || b] on values. *)
Definition js_or (a b : JsValue) : JsValue := if truthy a then a else b.

(** Property read [o.k] / [o[k]] on a dictionary object: [undefined] when
    the key is absent. *)
Definition js_get (o : gmap string JsValue) (k : string) : JsValue :=
  default VUndefined (o !! k).

(** The assignment [o[k] = v] on a plain object. The name [__proto__] is
    the accessor of the prototype: assigning to it gives the object no
    entry of its own. *)
Definition obj_assign {V : Type} (o : gmap string V) (k : string) (v : V)
    : gmap string V :=
  if String.eqb k "__proto__" then o else <[k := v]> o.

(* ===================================================================== *)
(** * JavaScript numbers *)
(* ===================================================================== *)

(** The results of arithmetic: the doubles whose value is an integer,
    [NaN] and the two infinities. The sign of zero is not carried. *)
Inductive JsNumber : Type :=
| Num (n : Z)
| NaN
| Infinity (negative : bool).

(** The integer nearest to [n / 2^s], the even one of two that are
    equally near. *)
Definition round_half_even (n s : Z) : Z :=
  let q := n / 2 ^ s in
  let r := n mod 2 ^ s in
  let half := 2 ^ (s - 1) in
  if (half <? r) || ((r =? half) && Z.odd q) then q + 1 else q.

(** The double nearest to the integer [n]: 53 bits of mantissa, rounded
    to nearest, ties to even, and an infinity from [2^1024] on. *)
Definition to_double (n : Z) : JsNumber :=
  let e := Z.log2 (Z.abs n) in
  if e <=? 52 then Num n
  else
    let s := e - 52 in
    let m := round_half_even n s * 2 ^ s in
    if 2 ^ 1024 <=? Z.abs m then Infinity (n <? 0) else Num m.

(** [Math.max(a, b)]. *)
Definition Math_max (a b : JsNumber) : JsNumber :=
  match a, b with
  | NaN, _ | _, NaN => NaN
  | Infinity false, _ | _, Infinity false => Infinity false
  | Infinity true, x | x, Infinity true => x
  | Num x, Num y => Num (Z.max x y)
  end.

(** [Math.min(a, b)]. *)
Definition Math_min (a b : JsNumber) : JsNumber :=
  match a, b with
  | NaN, _ | _, NaN => NaN
  | Infinity true, _ | _, Infinity true => Infinity true
  | Infinity false, x | x, Infinity false => x
  | Num x, Num y => Num (Z.min x y)
  end.

(** [a - b]: the double nearest to the difference. *)
Definition number_sub (a b : JsNumber) : JsNumber :=
  match a, b with
  | NaN, _ | _, NaN => NaN
  | Infinity s, Infinity t => if Bool.eqb s t then NaN else Infinity s
  | Infinity s, Num _ => Infinity s
  | Num _, Infinity t => Infinity (negb t)
  | Num x, Num y => to_double (x - y)
  end.

(** [a * b]: the double nearest to the product. *)
Definition number_mul (a b : JsNumber) : JsNumber :=
  match a, b with
  | NaN, _ | _, NaN => NaN
  | Infinity s, Infinity t => Infinity (xorb s t)
  | Infinity s, Num y | Num y, Infinity s =>
      if y =? 0 then NaN else Infinity (xorb s (y <? 0))
  | Num x, Num y => to_double (x * y)
  end.

(* ===================================================================== *)
(** * Strings *)
(* ===================================================================== *)

(** [key.endsWith(suf)]. *)
Fixpoint endsWith (key suf : string) : bool :=
  String.eqb key suf ||
  match key with
  | EmptyString => false
  | String _ rest => endsWith rest suf
  end.

(** [key.startsWith(pre)]. *)
Definition startsWith (key pre : string) : bool := String.prefix pre key.

(** [key.slice(0, -n)] for [n > 0]: the key without its last [n]
    characters, empty when the key is not longer than [n]. *)
Definition slice_end (key : string) (n : nat) : string :=
  String.substring 0 (String.length key - n) key.

(** [key.slice(n)]: the key without its first [n] characters. *)
Definition slice_from (n : nat) (key : string) : string :=
  String.substring n (String.length key - n) key.

(* ===================================================================== *)
(** * Filters *)
(* ===================================================================== *)

(** [FilterOperatorType] of [types/common.ts]. *)
Inductive FilterOperatorType : Type :=
| op_eq | op_ne | op_lt | op_gt | op_lte | op_gte
| op_in | op_prefix | op_suffix | op_substr.

Global Instance FilterOperatorType_eq_dec : EqDecision FilterOperatorType.
Proof. solve_decision. Defined.

(** The string a [FilterOperatorType] is at run time. *)
Definition op_name (o : FilterOperatorType) : string :=
  match o with
  | op_eq => "eq" | op_ne => "ne" | op_lt => "lt" | op_gt => "gt"
  | op_lte => "lte" | op_gte => "gte" | op_in => "in"
  | op_prefix => "prefix" | op_suffix => "suffix" | op_substr => "substr"
  end.

(** A predicate [{field, operator, value}]. *)
Record Filter : Type := mkFilter {
  field : string;
  operator : FilterOperatorType;
  value : JsValue
}.

Definition RESERVED_QUERY_PARAMS : list string :=
  ["page"; "limit"; "sort"; "select"; "deleted"].

Definition is_reserved (key : string) : bool :=
  existsb (String.eqb key) RESERVED_QUERY_PARAMS.

(** [QueryParams] of [types/interface.ts] and [types/common.ts]: the five
    reserved keys with their declared types, and the entries the index
    signature [[key: string]: any] admits. *)
Record QueryParams : Type := mkParams {
  page : option Z;
  limit : option Z;
  sort : option string;
  select : option string;
  deleted : option bool;
  rest : gmap string JsValue
}.

(** [params = {}]. *)
Definition no_params : QueryParams :=
  {| page := None; limit := None; sort := None; select := None;
     deleted := None; rest := ∅ |}.

(** A plain object passed where [QueryParams] is expected: all of it is
    seen through the index signature. *)
Definition params_of_object (o : gmap string JsValue) : QueryParams :=
  {| page := None; limit := None; sort := None; select := None;
     deleted := None; rest := o |}.

Definition opt_entry (k : string) (v : option JsValue)
    : list (string * JsValue) :=
  match v with
  | Some x => [(k, x)]
  | None => []
  end.

(** [Object.entries(params)]. *)
Definition Object_entries (params : QueryParams)
    : list (string * JsValue) :=
  opt_entry "page" (VNum <$> page params) ++
  opt_entry "limit" (VNum <$> limit params) ++
  opt_entry "sort" (VStr <$> sort params) ++
  opt_entry "select" (VStr <$> select params) ++
  opt_entry "deleted" (VBool <$> deleted params) ++
  map_to_list (rest params).

(** ** [FilterOp] of [helpers/filterOperator.ts]: operator as a suffix *)
Module FilterOp.

(** [operatorMappings]: suffix, operator, length of the suffix. *)
Definition operatorMappings : list (string * FilterOperatorType * nat) :=
  [ ("_prefix", op_prefix, 7%nat);
    ("_suffix", op_suffix, 7%nat);
    ("_substr", op_substr, 7%nat);
    ("_lte", op_lte, 4%nat);
    ("_gte", op_gte, 4%nat);
    ("_ne", op_ne, 3%nat);
    ("_lt", op_lt, 3%nat);
    ("_gt", op_gt, 3%nat);
    ("_in", op_in, 3%nat) ].

(** The loop of [parseFieldAndOperator] over the mappings that remain. *)
Fixpoint parse_loop (key : string)
    (ms : list (string * FilterOperatorType * nat))
    : string * FilterOperatorType :=
  match ms with
  | [] => (key, op_eq)
  | (suffix, op, len) :: ms' =>
      if endsWith key suffix then (slice_end key len, op)
      else parse_loop key ms'
  end.

Definition parseFieldAndOperator (key : string)
    : string * FilterOperatorType :=
  parse_loop key operatorMappings.

(** The body of the loop of [fromQueryParams] for one entry. *)
Definition from_entry (e : string * JsValue) : list Filter :=
  if is_reserved e.1 then []
  else let '(f, o) := parseFieldAndOperator e.1 in [mkFilter f o e.2].

Definition fromQueryParams (params : QueryParams) : list Filter :=
  Object_entries params ≫= from_entry.

(** The key [toQueryParams] writes a filter under. *)
Definition param_key (f : Filter) : string :=
  match operator f with
  | op_eq => field f
  | o => field f +:+ "_" +:+ op_name o
  end.

Definition toQueryParams (filters : list Filter) : gmap string JsValue :=
  foldl (fun params f => obj_assign params (param_key f) (value f)) ∅
    filters.

End FilterOp.

(* ===================================================================== *)
(** * Outcomes of calls that can throw *)
(* ===================================================================== *)

Inductive Error : Type :=
| NotRegistered (modelName : string)
    (** [Model '...' not registered] *)
| NoActiveRecord (modelName : string) (id : string) (workspaceId : Z)
    (** [No active record found for ... with id: ... in workspace: ...] *)
| BackendError (msg : string)
    (** an error raised by the database *).

Inductive Outcome (A : Type) : Type :=
| Ok (a : A)
| Throw (e : Error).
Arguments Ok {A} a.
Arguments Throw {A} e.

Global Instance Outcome_bind : MBind Outcome := fun A B k m =>
  match m with
  | Ok a => k a
  | Throw e => Throw e
  end.

Global Instance Outcome_ret : MRet Outcome := fun A a => Ok a.

(** [try { body } catch (error) { handler }]. *)
Definition try_catch {A : Type} (body : Outcome A)
    (handler : Error -> Outcome A) : Outcome A :=
  match body with
  | Ok a => Ok a
  | Throw e => handler e
  end.

(** A field of a request body: missing ([undefined]), [null], or given. *)
Inductive Nullable (A : Type) : Type :=
| Absent
| IsNull
| Present (a : A).
Arguments Absent {A}.
Arguments IsNull {A}.
Arguments Present {A} a.

(** A [Map] with insertion order: [get], and [set], which overwrites an
    existing key in place and appends a new one. *)
Fixpoint amap_get {V : Type} (m : list (string * V)) (k : string)
    : option V :=
  match m with
  | [] => None
  | (k', v) :: m' => if String.eqb k' k then Some v else amap_get m' k
  end.

Fixpoint amap_set {V : Type} (m : list (string * V)) (k : string) (v : V)
    : list (string * V) :=
  match m with
  | [] => [(k, v)]
  | (k', v') :: m' =>
      if String.eqb k' k then (k, v) :: m' else (k', v') :: amap_set m' k v
  end.

(** [Array.from(m.values())]. *)
Definition amap_values {V : Type} (m : list (string * V)) : list V :=
  map snd m.

(* ===================================================================== *)
(** * The append-only engine *)
(* ===================================================================== *)

Module Versioned.

(** [BaseRecord] of [types/index.ts]; one value is one physical row of
    the table [buildTableSchema] declares. *)
Record BaseRecord : Type := mkRecord {
  rowId : string;
  workspaceId : Z;
  id : string;
  name : string;
  data : gmap string JsValue;
  createdAt : Z;
  updatedAt : Z;
  deletedAt : option Z
}.

(** ** The database

    A table is the list of its rows in insertion order. Of the
    constraints of the table the embedding keeps the one both dialects
    declare and the engine relies on: [row_id] is the primary key. A row
    is returned as it was written. What a dialect refuses besides (in
    Postgres a workspace id out of the range of [INTEGER], a name of more
    than 255 characters) is not followed: an insert of the code succeeds
    only where the insert of the embedding does, and the statements on
    [create] and [update] are made of the call that returns, or say what
    the call does when the insert is refused. *)

(** [ORDER BY updated_at DESC]. The order among rows of one [updatedAt]
    is the database's to choose; the sort fixes one. *)
Definition updatedAt_ge (a b : BaseRecord) : Prop :=
  updatedAt b <= updatedAt a.

Global Instance updatedAt_ge_dec : RelDecision updatedAt_ge.
Proof. intros a b. unfold updatedAt_ge. apply _. Defined.

Definition orderBy_desc_updatedAt (rows : list BaseRecord)
    : list BaseRecord :=
  merge_sort updatedAt_ge rows.

(** [db.select().from(table).where(cond).orderBy(desc(updatedAt))]. *)
Definition db_select (rows : list BaseRecord)
    (cond : BaseRecord -> bool) : list BaseRecord :=
  orderBy_desc_updatedAt (filter (fun r => cond r = true) rows).

(** [db.insert(table).values(r).returning()]: the new table and the
    inserted rows; a duplicate primary key is rejected. *)
Definition db_insert (rows : list BaseRecord) (r : BaseRecord)
    : Outcome (list BaseRecord * list BaseRecord) :=
  if existsb (fun x => String.eqb (rowId x) (rowId r)) rows
  then Throw (BackendError "duplicate key value violates unique constraint")
  else Ok (rows ++ [r], [r]).

(** [db.update(table).set(f).where(cond).returning()]: the new table
    and the rows that were updated. *)
Definition db_update (rows : list BaseRecord)
    (set : BaseRecord -> BaseRecord) (cond : BaseRecord -> bool)
    : list BaseRecord * list BaseRecord :=
  (map (fun r => if cond r then set r else r) rows,
   map set (filter (fun r => cond r = true) rows)).

(** ** [utils/recordUtils.ts] *)

Definition eq_workspaceId (w : Z) (r : BaseRecord) : bool :=
  workspaceId r =? w.
Definition isNull_deletedAt (r : BaseRecord) : bool :=
  match deletedAt r with None => true | Some _ => false end.
Definition eq_id (i : string) (r : BaseRecord) : bool :=
  String.eqb (id r) i.
Definition eq_rowId (i : string) (r : BaseRecord) : bool :=
  String.eqb (rowId r) i.

(** [and(...conds)]. *)
Definition sql_and (conds : list (BaseRecord -> bool)) (r : BaseRecord)
    : bool :=
  forallb (fun c => c r) conds.

Definition getLatestRecords (rows : list BaseRecord) (workspaceId : Z)
    (conditions : list (BaseRecord -> bool)) : list BaseRecord :=
  let baseConditions := [eq_workspaceId workspaceId; isNull_deletedAt] in
  let allConditions :=
    if (0 <? length conditions)%nat
    then sql_and (baseConditions ++ conditions)
    else sql_and baseConditions in
  db_select rows allConditions.

Definition getLatestRecordById (rows : list BaseRecord) (workspaceId : Z)
    (id : string) : option BaseRecord :=
  let records := getLatestRecords rows workspaceId [eq_id id] in
  match records with
  | r :: _ => Some r
  | [] => None
  end.

(** ** [operations/crudOperations.ts] *)

(** What [CrudOperations] reaches: [registeredTables], from model name
    to the table registered for it, and the tables of the database. *)
Record State : Type := mkState {
  registeredTables : gmap string string;
  tables : gmap string (list BaseRecord)
}.

Definition set_table (st : State) (table : string)
    (rows : list BaseRecord) : State :=
  {| registeredTables := registeredTables st;
     tables := <[table := rows]> (tables st) |}.

(** [this.registeredTables.get(modelName)], then the rows of that table;
    a statement on a table the database does not have fails there. *)
Definition resolve (st : State) (modelName : string)
    : Outcome (string * list BaseRecord) :=
  match registeredTables st !! modelName with
  | None => Throw (NotRegistered modelName)
  | Some table =>
      match tables st !! table with
      | None => Throw (BackendError "relation does not exist")
      | Some rows => Ok (table, rows)
      end
  end.

Record CreateRecordData : Type := mkCreate {
  c_workspaceId : Z;
  c_name : string;
  c_data : Nullable (gmap string JsValue)
}.

Record UpdateData : Type := mkUpdate {
  u_name : Nullable string;
  u_data : Nullable (gmap string JsValue)
}.

(** [recordData.data || {}]: an object is always truthy. *)
Definition data_or_empty (d : Nullable (gmap string JsValue))
    : gmap string JsValue :=
  match d with
  | Present o => o
  | Absent | IsNull => ∅
  end.

(** [updateData.name || latestRecord.name]. *)
Definition name_or (n : Nullable string) (prior : string) : string :=
  match n with
  | Present s => if String.eqb s "" then prior else s
  | Absent | IsNull => prior
  end.

(** [updateData.data ? { ...latestRecord.data, ...updateData.data }
                     : latestRecord.data]:
    in the spread the keys of the second object win. *)
Definition merge_data (d : Nullable (gmap string JsValue))
    (prior : gmap string JsValue) : gmap string JsValue :=
  match d with
  | Present o => o ∪ prior
  | Absent | IsNull => prior
  end.

(** A call returns its outcome and the state it leaves: a call that
    throws leaves the state the statements before the throw made. *)

(** [create]; [now] is [new Date()], [entityId] and [newRowId] are the
    two results of [uuidv4()]. *)
Definition create (st : State) (modelName : string)
    (recordData : CreateRecordData) (now : Z) (entityId newRowId : string)
    : Outcome (option BaseRecord) * State :=
  match resolve st modelName with
  | Throw e => (Throw e, st)
  | Ok (table, rows) =>
      let insertData :=
        {| rowId := newRowId;
           workspaceId := c_workspaceId recordData;
           id := entityId;
           name := c_name recordData;
           data := data_or_empty (c_data recordData);
           createdAt := now;
           updatedAt := now;
           deletedAt := None |} in
      match db_insert rows insertData with
      | Throw e => (Throw e, st)
      | Ok (rows', result) => (Ok (head result), set_table st table rows')
      end
  end.

Definition get (st : State) (modelName : string) (workspaceId : Z)
    (id : string) : Outcome (option BaseRecord) :=
  '(table, rows) ← resolve st modelName;
  Ok (getLatestRecordById rows workspaceId id).

(** The body of the loop of [getAll] for one record. *)
Definition getAll_step (latestRecordsMap : list (string * BaseRecord))
    (record : BaseRecord) : list (string * BaseRecord) :=
  match amap_get latestRecordsMap (id record) with
  | None => amap_set latestRecordsMap (id record) record
  | Some existingRecord =>
      if createdAt existingRecord <? createdAt record
      then amap_set latestRecordsMap (id record) record
      else latestRecordsMap
  end.

Definition getAll (st : State) (modelName : string) (workspaceId : Z)
    : Outcome (list BaseRecord) :=
  '(table, rows) ← resolve st modelName;
  let allActiveRecords := getLatestRecords rows workspaceId [] in
  let latestRecordsMap := foldl getAll_step [] allActiveRecords in
  Ok (amap_values latestRecordsMap).

(** The row [update] appends. *)
Definition newRecordData (latestRecord : BaseRecord)
    (updateData : UpdateData) (now : Z) (newRowId : string)
    : BaseRecord :=
  {| rowId := newRowId;
     workspaceId := Versioned.workspaceId latestRecord;
     id := Versioned.id latestRecord;
     name := name_or (u_name updateData) (name latestRecord);
     data := merge_data (u_data updateData) (data latestRecord);
     createdAt := createdAt latestRecord;
     updatedAt := now;
     deletedAt := None |}.

(** [update]; [now] is [new Date()], [newRowId] the result of
    [uuidv4()]. The result [null] is [Ok None]. *)
Definition update (st : State) (modelName : string) (workspaceId : Z)
    (id : string) (updateData : UpdateData) (now : Z) (newRowId : string)
    : Outcome (option BaseRecord) * State :=
  match resolve st modelName with
  | Throw e => (Throw e, st)
  | Ok (table, rows) =>
      match getLatestRecordById rows workspaceId id with
      | None => (Throw (NoActiveRecord modelName id workspaceId), st)
      | Some latestRecord =>
          match db_insert rows
                  (newRecordData latestRecord updateData now newRowId) with
          | Throw e => (Throw e, st)
          | Ok (rows', result) =>
              (Ok (head result), set_table st table rows')
          end
      end
  end.

(** [.set({ deletedAt: now, updatedAt: now })]. *)
Definition mark_deleted (now : Z) (r : BaseRecord) : BaseRecord :=
  {| rowId := rowId r;
     workspaceId := Versioned.workspaceId r;
     id := Versioned.id r;
     name := name r;
     data := data r;
     createdAt := createdAt r;
     updatedAt := now;
     deletedAt := Some now |}.

(** [delete]; [now] is [new Date()]. *)
Definition delete (st : State) (modelName : string) (workspaceId : Z)
    (id : string) (now : Z) : Outcome bool * State :=
  match resolve st modelName with
  | Throw e => (Throw e, st)
  | Ok (table, rows) =>
      match getLatestRecordById rows workspaceId id with
      | None => (Ok false, st)
      | Some activeRecord =>
          let '(rows', result) :=
            db_update rows (mark_deleted now)
              (sql_and [eq_rowId (rowId activeRecord); isNull_deletedAt]) in
          (Ok (0 <? length result)%nat, set_table st table rows')
      end
  end.

(** ** Vocabulary of the statements *)

(** The rows of a workspace that are not deleted. *)
Definition active_in (w : Z) (r : BaseRecord) : Prop :=
  workspaceId r = w /\ deletedAt r = None.

(** The versions of one entity carry one [createdAt]: rows of a
    workspace with the same logical id agree on it. *)
Definition createdAt_stable (rows : list BaseRecord) : Prop :=
  forall r1 r2, r1 ∈ rows -> r2 ∈ rows ->
    workspaceId r1 = workspaceId r2 -> id r1 = id r2 ->
    createdAt r1 = createdAt r2.

(** [row_id] is the primary key of the table. *)
Definition rowId_unique (rows : list BaseRecord) : Prop :=
  NoDup (map rowId rows).

(** The rows of the workspaces other than [w]. *)
Definition other_workspaces (w : Z) (rows : list BaseRecord)
    : list BaseRecord :=
  filter (fun r => workspaceId r <> w) rows.

(** What the database and the engine keep true of every table. *)
Definition well_formed (st : State) : Prop :=
  forall table rows, tables st !! table = Some rows ->
    rowId_unique rows /\ createdAt_stable rows.

(** The states the calls of the engine lead to from tables without
    rows; the entity id [create] draws from [uuidv4()] is one no row
    has. *)
Inductive reachable : State -> Prop :=
| reach_empty st :
    (forall table rows, tables st !! table = Some rows -> rows = []) ->
    reachable st
| reach_create st modelName recordData now entityId newRowId :
    reachable st ->
    (forall table rows x, tables st !! table = Some rows -> x ∈ rows ->
                          id x <> entityId) ->
    reachable (create st modelName recordData now entityId newRowId).2
| reach_update st modelName w i updateData now newRowId :
    reachable st ->
    reachable (update st modelName w i updateData now newRowId).2
| reach_delete st modelName w i now :
    reachable st ->
    reachable (delete st modelName w i now).2.

(** What the statement of [delete] makes of a row [r] when the
    current version is [a]. *)
Definition mark_row (a : BaseRecord) (now : Z) (r : BaseRecord)
    : BaseRecord :=
  if sql_and [eq_rowId (rowId a); isNull_deletedAt] r
  then mark_deleted now r else r.

(** What the loop of [getAll] keeps true of the records it has seen:
    the map has one entry per logical id seen, filed under that id, and
    the entry is at least as recent as every record seen with the id. *)
Definition getAll_inv (seen : list BaseRecord)
    (m : list (string * BaseRecord)) : Prop :=
  NoDup (map fst m) /\
  (forall k v, (k, v) ∈ m -> id v = k /\ v ∈ seen) /\
  (forall r, r ∈ seen ->
     exists v, amap_get m (id r) = Some v /\ updatedAt r <= updatedAt v).

(** ** Sample states *)

(** One model, [User], registered on the table [user]. *)
Definition st_empty : State :=
  {| registeredTables := {["User" := "user"]};
     tables := {["user" := []]} |}.

(** The first version of an entity of workspace 1, created at time
    100 with [{name: "A", data: {x: 1}}]. *)
Definition row_v1 : BaseRecord :=
  {| rowId := "row-1"; workspaceId := 1; id := "entity-1"; name := "A";
     data := {["x" := VNum 1]};
     createdAt := 100; updatedAt := 100; deletedAt := None |}.

(** Its second version, appended at time 200 by an update with
    [{data: {y: 2}}]. *)
Definition row_v2 : BaseRecord :=
  {| rowId := "row-2"; workspaceId := 1; id := "entity-1"; name := "A";
     data := {["x" := VNum 1; "y" := VNum 2]};
     createdAt := 100; updatedAt := 200; deletedAt := None |}.

Definition st_created : State :=
  {| registeredTables := {["User" := "user"]};
     tables := {["user" := [row_v1]]} |}.

Definition st_updated : State :=
  {| registeredTables := {["User" := "user"]};
     tables := {["user" := [row_v1; row_v2]]} |}.

(** After a delete at time 300, and after a second one at time 400. *)
Definition st_deleted_once : State :=
  {| registeredTables := {["User" := "user"]};
     tables := {["user" := [row_v1; mark_deleted 300 row_v2]]} |}.

Definition st_deleted_twice : State :=
  {| registeredTables := {["User" := "user"]};
     tables := {["user" := [mark_deleted 400 row_v1;
                            mark_deleted 300 row_v2]]} |}.

End Versioned.

(* ===================================================================== *)
(** * The query planner and the engines over a database adapter *)
(* ===================================================================== *)

(** What a table object holds under a name: a column. *)
Record Column : Type := mkColumn { column_name : string }.

(** [TableAdapter]: the names [f] at which [table[f]] is truthy, with
    what the table object holds there. *)
Abbreviation TableAdapter := (gmap string Column).

(** A row the database returns, and a record handed to it. *)
Abbreviation Row := (gmap string JsValue).

(** The template strings of the [ilike] conditions:
    [`${v}%`], [`%${v}`] and [`%${v}%`]. *)
Inductive LikePattern : Type :=
| like_prefix (v : JsValue)
| like_suffix (v : JsValue)
| like_substr (v : JsValue).

(** The [SQL] fragments the engines compose. A column operand is what the
    table object held under the name: [None] is [undefined]. *)
#[warnings="-register-all"]
Inductive SQL : Type :=
| sql_eq (c : option Column) (v : JsValue)
| sql_ne (c : option Column) (v : JsValue)
| sql_lt (c : option Column) (v : JsValue)
| sql_gt (c : option Column) (v : JsValue)
| sql_lte (c : option Column) (v : JsValue)
| sql_gte (c : option Column) (v : JsValue)
| sql_inArray (c : option Column) (values : list JsValue)
| sql_ilike (c : option Column) (pattern : LikePattern)
| sql_isNull (c : option Column)
| sql_and (conds : list SQL)
| sql_raw (text : string)
| sql_desc (c : option Column)
| sql_asc (c : option Column).

Inductive Projection : Type :=
| select_all
| select_fields (fields : gmap string Column)
| select_count.

(** A [select] as it is awaited. *)
Record SelectQuery : Type := mkSelect {
  q_fields : Projection;
  q_where : option SQL;
  q_orderBy : list SQL;
  q_limit : option JsNumber;
  q_offset : option JsNumber
}.

Record QueryResult : Type := mkResult {
  records : list Row;
  record_count : Z
}.

(** [DatabaseAdapter] of [types/interface.ts], over a database state [S]:
    each statement either throws or returns its rows, and a write also
    returns the state it leaves. *)
Class DatabaseAdapter (S : Type) : Type := {
  run_select : S -> TableAdapter -> SelectQuery -> Outcome (list Row);
  run_insert : S -> TableAdapter -> list Row -> Outcome (list Row * S);
  run_update : S -> TableAdapter -> Row -> SQL -> Outcome (list Row * S);
  run_count : S -> TableAdapter -> option SQL -> Outcome Z
}.

(** ** Strings of the planner *)

(** [s.split(',')]. *)
Fixpoint split_comma_aux (cur : string) (s : string) : list string :=
  match s with
  | EmptyString => [cur]
  | String c s' =>
      if Ascii.eqb c ","%char
      then cur :: split_comma_aux "" s'
      else split_comma_aux (cur +:+ String c "") s'
  end.

Definition split_comma (s : string) : list string := split_comma_aux "" s.

Fixpoint trim_start (s : string) : string :=
  match s with
  | String c s' => if Ascii.is_space c then trim_start s' else s
  | EmptyString => EmptyString
  end.

(** [s.trim()] on the white space of ASCII. *)
Definition trim (s : string) : string :=
  String.rev (trim_start (String.rev (trim_start s))).

(** [!s] for an optional string: absent or empty. *)
Definition falsy_string (s : option string) : bool :=
  match s with
  | None => true
  | Some x => String.eqb x ""
  end.

(** [Array.isArray(v) ? v : [v]]. *)
Definition as_array (v : JsValue) : list JsValue :=
  match v with
  | VArr l => l
  | _ => [v]
  end.

(** [v || d] for an optional number: [undefined] and [0] are falsy. The
    number is the double nearest to the integer the parameters carry. *)
Definition number_or (v : option Z) (d : JsNumber) : JsNumber :=
  match v with
  | Some n => if n =? 0 then d else to_double n
  | None => d
  end.

(** [params.deleted === true]. *)
Definition includeDeleted_of (params : QueryParams) : bool :=
  match deleted params with
  | Some true => true
  | _ => false
  end.

(** ** [FilterOp] of [lib/utils/filter-operator.ts]: operator as a prefix *)
Module LibFilterOp.

(** The alternatives of the regular expression, in its order. *)
Definition operators : list FilterOperatorType :=
  [op_eq; op_ne; op_gt; op_lt; op_gte; op_lte; op_in;
   op_prefix; op_suffix; op_substr].

(** A character [.] does not match: a line terminator. U+2028 and
    U+2029 are met in their UTF-8 form. *)
Fixpoint has_line_terminator (s : string) : bool :=
  match s with
  | EmptyString => false
  | String c s' =>
      Ascii.eqb c "010"%char || Ascii.eqb c "013"%char ||
      String.prefix
        (String "226"%char (String "128"%char (String "168"%char ""))) s ||
      String.prefix
        (String "226"%char (String "128"%char (String "169"%char ""))) s ||
      has_line_terminator s'
  end.

(** [key.match(/^(eq|ne|gt|lt|gte|lte|in|prefix|suffix|substr)_(.+)$/)]:
    the operator and the field of the match. *)
Fixpoint match_loop (key : string) (ops : list FilterOperatorType)
    : option (FilterOperatorType * string) :=
  match ops with
  | [] => None
  | o :: ops' =>
      let pre := op_name o +:+ "_" in
      let field := slice_from (String.length pre) key in
      if startsWith key pre && negb (String.eqb field "")
         && negb (has_line_terminator field)
      then Some (o, field)
      else match_loop key ops'
  end.

Definition from_entry (e : string * JsValue) : list Filter :=
  if is_reserved e.1 then []
  else match match_loop e.1 operators with
       | Some (o, f) => [mkFilter f o e.2]
       | None => [mkFilter e.1 op_eq e.2]
       end.

Definition fromQueryParams (params : QueryParams) : list Filter :=
  Object_entries params ≫= from_entry.

Definition buildCondition (filter : Filter) (column : option Column)
    : SQL :=
  match operator filter with
  | op_eq => sql_eq column (value filter)
  | op_ne => sql_ne column (value filter)
  | op_lt => sql_lt column (value filter)
  | op_gt => sql_gt column (value filter)
  | op_lte => sql_lte column (value filter)
  | op_gte => sql_gte column (value filter)
  | op_in => sql_inArray column (as_array (value filter))
  | op_prefix => sql_ilike column (like_prefix (value filter))
  | op_suffix => sql_ilike column (like_suffix (value filter))
  | op_substr => sql_ilike column (like_substr (value filter))
  end.

End LibFilterOp.

(** The result of the [catch] of [findMany]. *)
Definition empty_result : QueryResult :=
  {| records := []; record_count := 0 |}.

(** ** [GenericCrudEngine] of [lib/core/crud-engine.ts]

    The calls of the logger are left out. [now] is the value of
    [new Date()] and [newId] the result of [this.idGenerator()]; where a
    call draws one per item they are indexed by the position of the
    item. *)
Module GenericCrudEngine.
Section Engine.

Context {S : Type} {database : DatabaseAdapter S}.
Variable table : TableAdapter.

Definition buildWhereClause (filters : list Filter)
    (includeDeleted : bool) : list SQL :=
  (if negb includeDeleted
   then match table !! "deleted_at" with
        | Some c => [sql_isNull (Some c)]
        | None => []
        end
   else []) ++
  (filters ≫= fun filter =>
     match table !! field filter with
     | None => []
     | Some column => [LibFilterOp.buildCondition filter (Some column)]
     end).

(** [desc(created_at)] when the table has the column. *)
Definition default_order : list SQL :=
  match table !! "created_at" with
  | Some c => [sql_desc (Some c)]
  | None => []
  end.

(** The body of the loop of [buildOrderBy] for one term. *)
Definition order_term (sort : string) : list SQL :=
  let field := trim sort in
  let '(field, descending) :=
    if startsWith field "desc_" then (slice_from 5 field, true)
    else (field, false) in
  match table !! field with
  | Some column =>
      [if descending then sql_desc (Some column)
       else sql_asc (Some column)]
  | None => []
  end.

Definition buildOrderBy (sortParam : option string) : list SQL :=
  match sortParam with
  | None => default_order
  | Some sortParam =>
      if String.eqb sortParam "" then default_order
      else
        let orderBy := split_comma sortParam ≫= order_term in
        if (0 <? length orderBy)%nat then orderBy else default_order
  end.

Definition buildSelect (selectParam : option string)
    : option (gmap string Column) :=
  match selectParam with
  | None => None
  | Some selectParam =>
      if String.eqb selectParam "" then None
      else
        let fields := map trim (split_comma selectParam) in
        let select :=
          foldl (fun select field =>
                   match table !! field with
                   | Some column => obj_assign select field column
                   | None => select
                   end) ∅ fields in
        if (0 <? size select)%nat then Some select else None
  end.

(** The query [findMany] awaits and the condition it counts with. *)
Definition findMany_query (params : QueryParams)
    : SelectQuery * option SQL :=
  let page := Math_max (Num 1) (number_or (page params) (Num 1)) in
  let limit :=
    Math_min (Num 100)
      (Math_max (Num 1) (number_or (limit params) (Num 10))) in
  let offset := number_mul (number_sub page (Num 1)) limit in
  let includeDeleted := includeDeleted_of params in
  let filters := LibFilterOp.fromQueryParams params in
  let whereConditions := buildWhereClause filters includeDeleted in
  let orderBy := buildOrderBy (sort params) in
  let countCondition :=
    if (0 <? length whereConditions)%nat
    then Some (sql_and whereConditions) else None in
  ({| q_fields := select_all;
      q_where := countCondition;
      q_orderBy := orderBy;
      q_limit := Some limit;
      q_offset := Some offset |},
   countCondition).

Definition findMany (db : S) (params : QueryParams)
    : Outcome QueryResult :=
  try_catch
    (let '(query, countCondition) := findMany_query params in
     data ← run_select db table query;
     total ← run_count db table countCondition;
     Ok {| records := data; record_count := total |})
    (fun error => Ok empty_result).

Definition findById (db : S) (id : string) (includeDeleted : bool)
    : Outcome (option Row) :=
  try_catch
    (let conditions :=
       [match table !! "id" with
        | Some c => sql_eq (Some c) (VStr id)
        | None => sql_raw "1=0"
        end] ++
       (if negb includeDeleted
        then match table !! "deleted_at" with
             | Some c => [sql_isNull (Some c)]
             | None => []
             end
        else []) in
     result ← run_select db table
       {| q_fields := select_all;
          q_where := Some (sql_and conditions);
          q_orderBy := [];
          q_limit := Some (Num 1);
          q_offset := None |};
     Ok (head result))
    (fun error => Throw error).

Definition create (db : S) (data : Row) (now : Z) (newId : string)
    : Outcome (option Row * S) :=
  try_catch
    (let newRecord :=
       <["created_at" := VDate now]> (<["id" := VStr newId]> data) in
     '(result, db') ← run_insert db table [newRecord];
     Ok (head result, db'))
    (fun error => Throw error).

(** The condition of [update] and [delete]: the id, and not deleted
    when the table has the column. *)
Definition active_with_id (id : string) : SQL :=
  sql_and
    [sql_eq (table !! "id") (VStr id);
     match table !! "deleted_at" with
     | Some c => sql_isNull (Some c)
     | None => sql_raw "1=1"
     end].

Definition update (db : S) (id : string) (data : Row) (now : Z)
    (newId : string) : Outcome (option Row * S) :=
  try_catch
    (parentRecord ← run_select db table
       {| q_fields := select_all;
          q_where := Some (active_with_id id);
          q_orderBy := [];
          q_limit := Some (Num 1);
          q_offset := None |};
     match parentRecord with
     | [] => Ok (None, db)
     | parent :: _ =>
         let newRecordData :=
           <["updated_at" := VDate now]>
             (<["created_at" := js_get parent "created_at"]>
                (<["id" := VStr newId]> data)) in
         '(result, db') ← run_insert db table [newRecordData];
         Ok (head result, db')
     end)
    (fun error => Throw error).

Definition delete (db : S) (id : string) (now : Z) : Outcome (bool * S) :=
  try_catch
    ('(result, db') ← run_update db table
       {["deleted_at" := VDate now]} (active_with_id id);
     let success := (0 <? length result)%nat in
     Ok (success, db'))
    (fun error => Ok (false, db)).

Definition bulkCreate (db : S) (items : list Row) (now : nat -> Z)
    (newId : nat -> string) : Outcome (list Row * S) :=
  try_catch
    (let newRecords :=
       imap (fun i item =>
               <["created_at" := VDate (now i)]>
                 (<["id" := VStr (newId i)]> item)) items in
     run_insert db table newRecords)
    (fun error => Throw error).

Definition count (db : S) (params : QueryParams) : Outcome Z :=
  try_catch
    (let includeDeleted := includeDeleted_of params in
     let filters := LibFilterOp.fromQueryParams params in
     let whereConditions := buildWhereClause filters includeDeleted in
     let condition :=
       if (0 <? length whereConditions)%nat
       then Some (sql_and whereConditions) else None in
     run_count db table condition)
    (fun error => Throw error).

End Engine.
End GenericCrudEngine.

(** ** [CrudHandler] of [src/core/crud-engine.ts]

    The handler talks to the database [db] of [database/connection]; the
    calls of the logger are left out. [now] is the value of [new Date()]
    and [newId] the result of [generateXid()]. *)
Module CrudHandler.
Section Handler.

Context {S : Type} {database : DatabaseAdapter S}.
Variable table : TableAdapter.

(** The [switch] of [buildWhereClause]. *)
Definition condition_of (filter : Filter) (column : Column) : SQL :=
  match operator filter with
  | op_eq => sql_eq (Some column) (value filter)
  | op_ne => sql_ne (Some column) (value filter)
  | op_lt => sql_lt (Some column) (value filter)
  | op_gt => sql_gt (Some column) (value filter)
  | op_lte => sql_lte (Some column) (value filter)
  | op_gte => sql_gte (Some column) (value filter)
  | op_in => sql_inArray (Some column) (as_array (value filter))
  | op_prefix => sql_ilike (Some column) (like_prefix (value filter))
  | op_suffix => sql_ilike (Some column) (like_suffix (value filter))
  | op_substr => sql_ilike (Some column) (like_substr (value filter))
  end.

Definition buildWhereClause (filters : list Filter)
    (includeDeleted : bool) : list SQL :=
  (if negb includeDeleted
   then [sql_isNull (table !! "deleted_at")] else []) ++
  (filters ≫= fun filter =>
     match table !! field filter with
     | None => []
     | Some column => [condition_of filter column]
     end).

Definition default_order : list SQL :=
  [sql_desc (table !! "created_at")].

(** The body of the loop of [buildOrderBy] for one term. *)
Definition order_term (sort : string) : list SQL :=
  let field := trim sort in
  let '(field, descending) :=
    if startsWith field "desc_" then (slice_from 5 field, true)
    else (field, false) in
  match table !! field with
  | Some column =>
      [if descending then sql_desc (Some column)
       else sql_asc (Some column)]
  | None => []
  end.

Definition buildOrderBy (sortParam : option string) : list SQL :=
  match sortParam with
  | None => default_order
  | Some sortParam =>
      if String.eqb sortParam "" then default_order
      else
        let orderBy := split_comma sortParam ≫= order_term in
        if (0 <? length orderBy)%nat then orderBy else default_order
  end.

Definition buildSelect (selectParam : option string)
    : option (gmap string Column) :=
  match selectParam with
  | None => None
  | Some selectParam =>
      if String.eqb selectParam "" then None
      else
        let fields := map trim (split_comma selectParam) in
        let select :=
          foldl (fun select field =>
                   match table !! field with
                   | Some column => obj_assign select field column
                   | None => select
                   end) ∅ fields in
        if (0 <? size select)%nat then Some select else None
  end.

(** The query [findMany] awaits and the condition it counts with. *)
Definition findMany_query (params : QueryParams)
    : SelectQuery * option SQL :=
  let page := Math_max (Num 1) (number_or (page params) (Num 1)) in
  let limit :=
    Math_min (Num 100)
      (Math_max (Num 1) (number_or (limit params) (Num 10))) in
  let offset := number_mul (number_sub page (Num 1)) limit in
  let includeDeleted := includeDeleted_of params in
  let filters := FilterOp.fromQueryParams params in
  let whereConditions := buildWhereClause filters includeDeleted in
  let orderBy := buildOrderBy (sort params) in
  let selectFields := buildSelect (select params) in
  let condition :=
    if (0 <? length whereConditions)%nat
    then Some (sql_and whereConditions) else None in
  ({| q_fields := match selectFields with
                  | Some fields => select_fields fields
                  | None => select_all
                  end;
      q_where := condition;
      q_orderBy := orderBy;
      q_limit := Some limit;
      q_offset := Some offset |},
   condition).

Definition findMany (db : S) (params : QueryParams)
    : Outcome QueryResult :=
  try_catch
    (let '(query, countCondition) := findMany_query params in
     data ← run_select db table query;
     total ← run_count db table countCondition;
     Ok {| records := data; record_count := total |})
    (fun error => Ok empty_result).

Definition findById (db : S) (id : string) (includeDeleted : bool)
    : Outcome (option Row) :=
  try_catch
    (let conditions :=
       [sql_eq (table !! "id") (VStr id)] ++
       (if negb includeDeleted
        then [sql_isNull (table !! "deleted_at")] else []) in
     result ← run_select db table
       {| q_fields := select_all;
          q_where := Some (sql_and conditions);
          q_orderBy := [];
          q_limit := Some (Num 1);
          q_offset := None |};
     Ok (head result))
    (fun error => Throw error).

Definition create (db : S) (data : Row) (newId : string)
    : Outcome (option Row * S) :=
  try_catch
    (let newRecord := <["id" := VStr newId]> data in
     '(result, db') ← run_insert db table [newRecord];
     Ok (head result, db'))
    (fun error => Throw error).

(** The condition of [update] and [delete]. *)
Definition active_with_id (id : string) : SQL :=
  sql_and [sql_eq (table !! "id") (VStr id);
           sql_isNull (table !! "deleted_at")].

Definition update (db : S) (id : string) (data : Row) (now : Z)
    : Outcome (option Row * S) :=
  try_catch
    (parentRecord ← run_select db table
       {| q_fields := select_all;
          q_where := Some (active_with_id id);
          q_orderBy := [];
          q_limit := Some (Num 1);
          q_offset := None |};
     match parentRecord with
     | [] => Ok (None, db)
     | parent :: _ =>
         let newRecordData :=
           <["updated_at" := VDate now]>
             (<["created_at" := js_get parent "created_at"]> data) in
         '(result, db') ← run_insert db table [newRecordData];
         Ok (head result, db')
     end)
    (fun error => Throw error).

Definition delete (db : S) (id : string) (now : Z) : Outcome (bool * S) :=
  try_catch
    ('(result, db') ← run_update db table
       {["deleted_at" := VDate now]} (active_with_id id);
     let success := (0 <? length result)%nat in
     Ok (success, db'))
    (fun error => Ok (false, db)).

Definition bulkCreate (db : S) (items : list Row) (newId : nat -> string)
    : Outcome (list Row * S) :=
  try_catch
    (let newRecords :=
       imap (fun i item => <["id" := VStr (newId i)]> item) items in
     run_insert db table newRecords)
    (fun error => Throw error).

(** [count]: the first row of [select count( * )], its [count] column,
    or [0] when that is falsy. *)
Definition count (db : S) (params : QueryParams) : Outcome JsValue :=
  try_catch
    (let includeDeleted := includeDeleted_of params in
     let filters := FilterOp.fromQueryParams params in
     let whereConditions := buildWhereClause filters includeDeleted in
     result ← run_select db table
       {| q_fields := select_count;
          q_where := if (0 <? length whereConditions)%nat
                     then Some (sql_and whereConditions) else None;
          q_orderBy := [];
          q_limit := None;
          q_offset := None |};
     Ok (js_or (match result with
                | r :: _ => js_get r "count"
                | [] => VUndefined
                end) (VNum 0)))
    (fun error => Throw error).

End Handler.
End CrudHandler.

(* ===================================================================== *)
(** * Vocabulary of the statements *)
(* ===================================================================== *)

(** [clamp(x, lo, hi)]. *)
Definition clamp (x lo hi : Z) : Z := Z.max lo (Z.min x hi).

(** ** Sample table and adapters *)

(** The columns of [createStandardTable]. *)
Definition standard_table : TableAdapter :=
  {[ "wid" := mkColumn "wid"; "id" := mkColumn "id";
     "name" := mkColumn "name"; "data" := mkColumn "data";
     "created_at" := mkColumn "created_at";
     "updated_at" := mkColumn "updated_at";
     "deleted_at" := mkColumn "deleted_at" ]}.

Definition connection_refused : Error := BackendError "connection refused".

(** A database that cannot be reached: every statement throws. *)
Definition down_adapter : DatabaseAdapter unit :=
  {| run_select _ _ _ := Throw connection_refused;
     run_insert _ _ _ := Throw connection_refused;
     run_update _ _ _ _ := Throw connection_refused;
     run_count _ _ _ := Throw connection_refused |}.

(** A database whose table has no row a statement matches. *)
Definition empty_adapter : DatabaseAdapter unit :=
  {| run_select _ _ _ := Ok [];
     run_insert _ _ rs := Ok (rs, tt);
     run_update _ _ _ _ := Ok ([], tt);
     run_count _ _ _ := Ok 0 |}.

(** [P] and [Q] hold the same (field, operator, value) triples. *)
Definition same_triples (P Q : list Filter) : Prop :=
  forall t, t ∈ P <-> t ∈ Q.

(** Compiling the serialization of [P]. *)
Definition roundtrip (P : list Filter) : list Filter :=
  FilterOp.fromQueryParams (params_of_object (FilterOp.toQueryParams P)).

(** The key ends with one of the suffixes of [operatorMappings]. *)
Definition ends_with_operator_suffix (key : string) : bool :=
  existsb (fun m => endsWith key m.1.1) FilterOp.operatorMappings.

(** An equality predicate whose field is a key of its own: not a
    reserved key, not read as a field with an operator, and not the
    name [__proto__]. *)
Definition plain_field (f : Filter) : Prop :=
  operator f = op_eq ->
  is_reserved (field f) = false /\
  ends_with_operator_suffix (field f) = false /\
  field f <> "__proto__".

(** No two predicates with the same field and operator differ in value. *)
Definition single_valued (P : list Filter) : Prop :=
  forall f g, f ∈ P -> g ∈ P ->
    field f = field g -> operator f = operator g -> value f = value g.

(* ===================================================================== *)
(** * Vocabulary of the further statements *)
(* ===================================================================== *)

(** What no call changes of a row once it is written: all of it but
    [updatedAt] and [deletedAt]. *)
Definition written_part (r : Versioned.BaseRecord)
    : string * Z * string * string * gmap string JsValue * Z :=
  (Versioned.rowId r, Versioned.workspaceId r, Versioned.id r,
   Versioned.name r, Versioned.data r, Versioned.createdAt r).


(** A call that leads from [st] to [st'] kept the history: the models
    are registered as before, and every table still starts with the rows
    it had, each with its written part, and has at most one row more. *)
Definition history_kept (st st' : Versioned.State) : Prop :=
  Versioned.registeredTables st' = Versioned.registeredTables st /\
  forall table rows, Versioned.tables st !! table = Some rows ->
    exists rows',
      Versioned.tables st' !! table = Some rows' /\
      (written_part <$> rows) `prefix_of` (written_part <$> rows') /\
      (length rows <= length rows' <= length rows + 1)%nat.


(** The table object holds something under the field of the filter. *)
Definition known_field (table : TableAdapter) (f : Filter) : Prop :=
  is_Some (table !! field f).

(** The condition of a filter: the comparison [buildCondition] makes of
    the filter and of what the table object holds under its field. *)
Definition condition_for (table : TableAdapter) (f : Filter) (c : SQL)
    : Prop :=
  exists column,
    table !! field f = Some column /\
    c = LibFilterOp.buildCondition f (Some column).

(** An order term on what the table object holds under some name. *)
Definition orders_by_column (table : TableAdapter) (t : SQL) : Prop :=
  exists f c, table !! f = Some c /\
              (t = sql_desc (Some c) \/ t = sql_asc (Some c)).


(** The first row that satisfies a condition: the [select] of [update]. *)
Definition first_where (cond : SQL) : SelectQuery :=
  {| q_fields := select_all;
     q_where := Some cond;
     q_orderBy := [];
     q_limit := Some (Num 1);
     q_offset := None |}.

(** One record is inserted and the first row the database returns for it
    is the result. *)
Definition insert_one {S : Type} {database : DatabaseAdapter S} (db : S)
    (table : TableAdapter) (r : Row) : Outcome (option Row * S) :=
  '(result, db') ← run_insert db table [r];
  Ok (head result, db').

(** The record agrees with the data it was made from on every field but
    the listed ones. *)
Definition same_but (fields : list string) (r data : Row) : Prop :=
  forall k, k ∉ fields -> r !! k = data !! k.


(* ===================================================================== *)
(** * The engine [CrudEngine] of [core/crudEngine.ts] *)
(* ===================================================================== *)

(** The engine keeps, beside the operations, its own [Map] of the models
    registered. [toLowerCase] is the method of JavaScript strings; the
    engine is stated for any such function. The error of the database
    that refuses the [CREATE TABLE] of a registration is given to the
    call as [fault]; a statement that is refused changes no table. *)
Module CrudEngine.
Import Versioned.

(** The types a [ModelSchema] gives to its fields. *)
Inductive FieldType : Type :=
| t_string | t_integer | t_float | t_boolean | t_timestamp | t_json.

Abbreviation ModelSchema := (gmap string FieldType).

Record CrudOptions : Type := mkOptions {
  softDelete : option bool;
  enableAuditLog : option bool
}.

Record RegisteredModel : Type := mkModel {
  m_name : string;
  m_schema : ModelSchema;
  m_options : CrudOptions;
  m_tableName : string
}.

(** What a call of the engine throws: the error of
    [validateModelExists], with the message "Model '...' is not
    registered. Use register() first.", or an error of the operations. *)
Inductive Thrown : Type :=
| UseRegisterFirst (modelName : string)
| FromOperations (e : Error).

Inductive Result (A : Type) : Type :=
| Returned (a : A)
| Threw (t : Thrown).
Arguments Returned {A} a.
Arguments Threw {A} t.

Definition of_outcome {A : Type} (o : Outcome A) : Result A :=
  match o with
  | Ok a => Returned a
  | Throw e => Threw (FromOperations e)
  end.

Record Engine : Type := mkEngine {
  registeredModels : list (string * RegisteredModel);
  crudOps : State
}.

Definition with_ops (eng : Engine) (st : State) : Engine :=
  {| registeredModels := registeredModels eng; crudOps := st |}.

(** [CrudOperations.registerTable]: the table schema is filed under the
    name of the model, then the table is created if the database does
    not have it. *)
Definition registerTable (st : State) (model : RegisteredModel)
    (fault : option Error) : Outcome unit * State :=
  let registered :=
    <[m_name model := m_tableName model]> (registeredTables st) in
  match fault with
  | Some err =>
      (Throw err, {| registeredTables := registered; tables := tables st |})
  | None =>
      (Ok tt,
       {| registeredTables := registered;
          tables := match tables st !! m_tableName model with
                    | Some _ => tables st
                    | None => <[m_tableName model := []]> (tables st)
                    end |})
  end.

Section Engine.

Variable toLowerCase : string -> string.

Definition register (eng : Engine) (modelName : string)
    (schema : ModelSchema) (options : CrudOptions) (fault : option Error)
    : Result unit * Engine :=
  let tableName := toLowerCase modelName in
  let registeredModel :=
    {| m_name := modelName;
       m_schema := schema;
       m_options :=
         {| softDelete := Some true;
            enableAuditLog := Some (default false (enableAuditLog options)) |};
       m_tableName := tableName |} in
  let models := amap_set (registeredModels eng) modelName registeredModel in
  let '(o, st) := registerTable (crudOps eng) registeredModel fault in
  (of_outcome o, {| registeredModels := models; crudOps := st |}).

End Engine.

Definition validateModelExists (eng : Engine) (modelName : string)
    : Result unit :=
  match amap_get (registeredModels eng) modelName with
  | Some _ => Returned tt
  | None => Threw (UseRegisterFirst modelName)
  end.

Definition create (eng : Engine) (modelName : string)
    (recordData : CreateRecordData) (now : Z) (entityId newRowId : string)
    : Result (option BaseRecord) * Engine :=
  match validateModelExists eng modelName with
  | Threw t => (Threw t, eng)
  | Returned _ =>
      let '(o, st) :=
        Versioned.create (crudOps eng) modelName recordData now
          entityId newRowId in
      (of_outcome o, with_ops eng st)
  end.

Definition get (eng : Engine) (modelName : string) (workspaceId : Z)
    (id : string) : Result (option BaseRecord) :=
  match validateModelExists eng modelName with
  | Threw t => Threw t
  | Returned _ =>
      of_outcome (Versioned.get (crudOps eng) modelName workspaceId id)
  end.

Definition getAll (eng : Engine) (modelName : string) (workspaceId : Z)
    : Result (list BaseRecord) :=
  match validateModelExists eng modelName with
  | Threw t => Threw t
  | Returned _ =>
      of_outcome (Versioned.getAll (crudOps eng) modelName workspaceId)
  end.

Definition update (eng : Engine) (modelName : string) (workspaceId : Z)
    (id : string) (updateData : UpdateData) (now : Z) (newRowId : string)
    : Result (option BaseRecord) * Engine :=
  match validateModelExists eng modelName with
  | Threw t => (Threw t, eng)
  | Returned _ =>
      let '(o, st) :=
        Versioned.update (crudOps eng) modelName workspaceId id
          updateData now newRowId in
      (of_outcome o, with_ops eng st)
  end.

Definition delete (eng : Engine) (modelName : string) (workspaceId : Z)
    (id : string) (now : Z) : Result bool * Engine :=
  match validateModelExists eng modelName with
  | Threw t => (Threw t, eng)
  | Returned _ =>
      let '(o, st) :=
        Versioned.delete (crudOps eng) modelName workspaceId id now in
      (of_outcome o, with_ops eng st)
  end.

(** [Array.from(this.registeredModels.keys())]. *)
Definition getRegisteredModels (eng : Engine) : list string :=
  map fst (registeredModels eng).

(** [getModelSchema]: [null] is [None]. *)
Definition getModelSchema (eng : Engine) (modelName : string)
    : option ModelSchema :=
  match amap_get (registeredModels eng) modelName with
  | Some model => Some (m_schema model)
  | None => None
  end.

(** ** Vocabulary of the statements *)

(** A new engine on a database with the tables [db]. *)
Definition new_engine (db : gmap string (list BaseRecord)) : Engine :=
  {| registeredModels := [];
     crudOps := {| registeredTables := ∅; tables := db |} |}.

(** The engines the public calls lead to from a new one. *)
Inductive reachable (toLowerCase : string -> string) : Engine -> Prop :=
| reach_new db : reachable toLowerCase (new_engine db)
| reach_register eng modelName schema options fault :
    reachable toLowerCase eng ->
    reachable toLowerCase
      (register toLowerCase eng modelName schema options fault).2
| reach_create eng modelName recordData now entityId newRowId :
    reachable toLowerCase eng ->
    reachable toLowerCase
      (create eng modelName recordData now entityId newRowId).2
| reach_update eng modelName w i updateData now newRowId :
    reachable toLowerCase eng ->
    reachable toLowerCase
      (update eng modelName w i updateData now newRowId).2
| reach_delete eng modelName w i now :
    reachable toLowerCase eng ->
    reachable toLowerCase (delete eng modelName w i now).2.

(** The two maps of registrations agree: a model the engine knows is
    filed by the operations under the lower case of its name, and the
    operations know no other model. *)
Definition consistent (toLowerCase : string -> string) (eng : Engine)
    : Prop :=
  forall modelName,
    match amap_get (registeredModels eng) modelName with
    | Some model =>
        m_name model = modelName /\
        m_tableName model = toLowerCase modelName /\
        registeredTables (crudOps eng) !! modelName
          = Some (toLowerCase modelName)
    | None => registeredTables (crudOps eng) !! modelName = None
    end.

(** For the samples: [toLowerCase] on names in ASCII. *)
Definition lower_ascii (c : ascii) : ascii :=
  let n := nat_of_ascii c in
  if (65 <=? n)%nat && (n <=? 90)%nat then ascii_of_nat (n + 32) else c.

Fixpoint lower (s : string) : string :=
  match s with
  | EmptyString => EmptyString
  | String c s' => String (lower_ascii c) (lower s')
  end.

End CrudEngine.


(** ** Sample engines *)

(** A new engine on an empty database, the model [User] registered. *)
Definition engine_user : CrudEngine.Engine :=
  (CrudEngine.register CrudEngine.lower (CrudEngine.new_engine ∅) "User"
     {["email" := CrudEngine.t_string]}
     (CrudEngine.mkOptions None None) None).2.

(** Then the model [USER] registered as well. *)
Definition engine_user_twice : CrudEngine.Engine :=
  (CrudEngine.register CrudEngine.lower engine_user "USER"
     {["age" := CrudEngine.t_integer]}
     (CrudEngine.mkOptions (Some false) None) None).2.


(* ===================================================================== *)
(** * The error handler of [middleware/error-handler.ts] *)
(* ===================================================================== *)

Module ErrorHandler.

(** [s.includes(sub)]. *)
Fixpoint includes (s sub : string) : bool :=
  String.prefix sub s ||
  match s with
  | EmptyString => false
  | String _ s' => includes s' sub
  end.

(** What the handler reads of an [Error]. *)
Record JsError : Type := mkError {
  e_name : string;
  e_message : string
}.

(** The body of the response; [details] is present or not. *)
Record Body : Type := mkBody {
  r_success : bool;
  r_error : string;
  r_code : string;
  r_details : option string
}.

(** The status and the body [errorHandler] answers with; [NODE_ENV] is
    [process.env.NODE_ENV]. The call of the logger is left out. *)
Definition errorHandler (error : JsError) (NODE_ENV : option string)
    : Z * Body :=
  if includes (e_message error) "connection"
     || includes (e_message error) "database"
  then (503, {| r_success := false;
                r_error := "Database connection error";
                r_code := "DATABASE_ERROR";
                r_details := None |})
  else if String.eqb (e_name error) "ValidationError"
  then (400, {| r_success := false;
                r_error := "Validation error";
                r_code := "VALIDATION_ERROR";
                r_details := Some (e_message error) |})
  else (500, {| r_success := false;
                r_error := "Internal server error";
                r_code := "INTERNAL_ERROR";
                r_details :=
                  match NODE_ENV with
                  | Some env =>
                      if String.eqb env "development"
                      then Some (e_message error) else None
                  | None => None
                  end |}).

(** ** Vocabulary of the statements *)

(** The word occurs somewhere in the text. *)
Definition mentions (text word : string) : Prop :=
  exists before after, text = before +:+ word +:+ after.

End ErrorHandler.


(* ===================================================================== *)
(** * The offline queue [OfflineSyncService] of [services/offline-sync.ts] *)
(* ===================================================================== *)

(** A call of the service is taken as one step: it runs to its end
    before the next call starts. The server is given to a call as the
    answers it makes to the requests of the call; the requests the call
    sends are returned with its result. The calls of the logger are left
    out. *)
Module OfflineSync.

Inductive OperationKind : Type := k_create | k_update | k_delete.

Record OfflineOperation : Type := mkOperation {
  o_id : string;
  o_model : string;
  o_operation : OperationKind;
  o_data : JsValue;
  o_timestamp : Z;
  o_synced : bool
}.

(** A request of the client: the method, the model and the id the URL is
    made of, and the body. *)
Inductive Request : Type :=
| Post (model : string) (data : JsValue)
| Put (model : string) (id : JsValue) (data : JsValue)
| Delete (model : string) (id : JsValue).

(** What a rejected promise carries: an [Error] with its [code], which
    may be missing, or a value that is no [Error]. *)
Inductive Failure : Type :=
| ErrorWithCode (code : option string)
| NotAnError (v : JsValue).

Inductive ApiOutcome : Type :=
| Responded (data : JsValue)
| Failed (f : Failure).

(** The read [data.id]: it throws a [TypeError] on [undefined] and
    [null], finds the entry of an object, and is [undefined] on every
    other value. The entries of an object have distinct keys. *)
Definition read_id (data : JsValue) : option JsValue :=
  match data with
  | VUndefined | VNull => None
  | VObj entries => Some (default VUndefined (amap_get entries "id"))
  | _ => Some VUndefined
  end.

(** [executeOnlineOperation]: the outcome, and the requests sent. *)
Definition executeOnlineOperation (operation : OfflineOperation)
    (answer : Request -> ApiOutcome) : ApiOutcome * list Request :=
  match o_operation operation with
  | k_create =>
      let request := Post (o_model operation) (o_data operation) in
      (answer request, [request])
  | k_update =>
      match read_id (o_data operation) with
      | None => (Failed (ErrorWithCode None), [])
      | Some id =>
          let request :=
            Put (o_model operation) id (o_data operation) in
          (answer request, [request])
      end
  | k_delete =>
      match read_id (o_data operation) with
      | None => (Failed (ErrorWithCode None), [])
      | Some id =>
          let request := Delete (o_model operation) id in
          (match answer request with
           | Responded _ => Responded (VObj [("success", VBool true)])
           | Failed f => Failed f
           end, [request])
      end
  end.

Record Service : Type := mkService {
  operations : list OfflineOperation;
  isOnline : bool
}.

(** What [executeOperation] returns: the result of the server, or the
    operation queued, to which [pending: true] is added. *)
Inductive Returned : Type :=
| FromServer (result : JsValue)
| Pending (operation : OfflineOperation).

(** [executeOperation]; [generated] is
    [`offline_${Date.now()}_${Math.random()}`] and [now] is
    [new Date()]. *)
Definition executeOperation (st : Service) (model : string)
    (operation : OperationKind) (data : JsValue) (id : option string)
    (generated : string) (now : Z) (answer : Request -> ApiOutcome)
    : Returned * Service * list Request :=
  let offlineOp :=
    {| o_id := match id with
               | Some id => if String.eqb id "" then generated else id
               | None => generated
               end;
       o_model := model;
       o_operation := operation;
       o_data := data;
       o_timestamp := now;
       o_synced := false |} in
  let queued (online : bool) :=
    {| operations := operations st ++ [offlineOp]; isOnline := online |} in
  if isOnline st then
    match executeOnlineOperation offlineOp answer with
    | (Responded result, sent) => (FromServer result, st, sent)
    | (Failed _, sent) => (Pending offlineOp, queued false, sent)
    end
  else (Pending offlineOp, queued (isOnline st), []).

(** [errCode === 'ECONNREFUSED' || errCode === 'ENOTFOUND'] for an
    [Error]. *)
Definition connection_lost (f : Failure) : bool :=
  match f with
  | ErrorWithCode (Some code) =>
      String.eqb code "ECONNREFUSED" || String.eqb code "ENOTFOUND"
  | _ => false
  end.

Definition mark_synced (operation : OfflineOperation) : OfflineOperation :=
  {| o_id := o_id operation;
     o_model := o_model operation;
     o_operation := o_operation operation;
     o_data := o_data operation;
     o_timestamp := o_timestamp operation;
     o_synced := true |}.

(** The loop of [syncPendingOperations] over the operations that are not
    synced, which it marks in the queue itself; [n] counts the operations
    tried, and [answer n] is the server at the time of the next one. The
    result is the queue, whether the connection was found lost, and the
    requests sent. *)
Fixpoint sync_loop (answer : nat -> Request -> ApiOutcome) (n : nat)
    (ops : list OfflineOperation)
    : list OfflineOperation * bool * list Request :=
  match ops with
  | [] => ([], false, [])
  | operation :: rest =>
      if o_synced operation then
        let '(rest', lost, sent) := sync_loop answer n rest in
        (operation :: rest', lost, sent)
      else
        match executeOnlineOperation operation (answer n) with
        | (Responded _, sent0) =>
            let '(rest', lost, sent) := sync_loop answer (S n) rest in
            (mark_synced operation :: rest', lost, sent0 ++ sent)
        | (Failed f, sent0) =>
            if connection_lost f then (operation :: rest, true, sent0)
            else
              let '(rest', lost, sent) := sync_loop answer (S n) rest in
              (operation :: rest', lost, sent0 ++ sent)
        end
  end.

Definition syncPendingOperations (st : Service)
    (answer : nat -> Request -> ApiOutcome) : Service * list Request :=
  let '(ops, lost, sent) := sync_loop answer 0 (operations st) in
  ({| operations := ops;
      isOnline := if lost then false else isOnline st |}, sent).

(** The timer of [startSyncProcess]. *)
Definition sync_tick (st : Service)
    (answer : nat -> Request -> ApiOutcome) : Service * list Request :=
  if isOnline st then syncPendingOperations st answer else (st, []).

(** The timer of [setupNetworkDetection]; [healthy] is whether the
    request of [/health] succeeded. *)
Definition health_tick (st : Service) (healthy : bool)
    (answer : nat -> Request -> ApiOutcome) : Service * list Request :=
  if healthy then
    if negb (isOnline st)
    then syncPendingOperations
           {| operations := operations st; isOnline := true |} answer
    else (st, [])
  else ({| operations := operations st; isOnline := false |}, []).

Definition getPendingOperations (st : Service) : list OfflineOperation :=
  filter (fun op => o_synced op = false) (operations st).

Definition getOperationHistory (st : Service) : list OfflineOperation :=
  operations st.

(** ** Vocabulary of the statements *)

(** An operation without the mark [synced]. *)
Definition content (op : OfflineOperation)
    : string * string * OperationKind * JsValue * Z :=
  (o_id op, o_model op, o_operation op, o_data op, o_timestamp op).

(** The request an operation stands for, when it can be made. *)
Definition request_of (op : OfflineOperation) : option Request :=
  head (executeOnlineOperation op (fun _ => Responded VUndefined)).2.

(** A server that accepts every request. *)
Definition accepts_all (answer : nat -> Request -> ApiOutcome) : Prop :=
  forall n request, exists data, answer n request = Responded data.

End OfflineSync.


(** What a sync makes of an operation of the queue: nothing, or it marks
    it synced. *)
Definition synced_or_same (old new : OfflineSync.OfflineOperation)
    : Prop :=
  new = old \/
  (OfflineSync.o_synced old = false /\ new = OfflineSync.mark_synced old).

(** The attempt on an operation finds the connection lost: it fails
    with an [Error] whose code is [ECONNREFUSED] or [ENOTFOUND]. *)
Definition finds_connection_lost
    (answer : OfflineSync.Request -> OfflineSync.ApiOutcome)
    (op : OfflineSync.OfflineOperation) : bool :=
  match (OfflineSync.executeOnlineOperation op answer).1 with
  | OfflineSync.Failed f => OfflineSync.connection_lost f
  | OfflineSync.Responded _ => false
  end.

(** The server never accepts the request of the operation, or the
    operation stands for no request. *)
Definition never_accepted
    (answer : nat -> OfflineSync.Request -> OfflineSync.ApiOutcome)
    (op : OfflineSync.OfflineOperation) : Prop :=
  forall request, OfflineSync.request_of op = Some request ->
    forall n, exists f, answer n request = OfflineSync.Failed f.


(** ** Sample queue *)

(** A creation that was queued. *)
Definition queued_create : OfflineSync.OfflineOperation :=
  OfflineSync.mkOperation "op1" "users" OfflineSync.k_create
    (VObj [("name", VStr "Ada")]) 100 false.

(** An update that was queued without data. *)
Definition queued_update_null : OfflineSync.OfflineOperation :=
  OfflineSync.mkOperation "op2" "users" OfflineSync.k_update VNull 200 false.

(** A deletion that was synced. *)
Definition synced_delete : OfflineSync.OfflineOperation :=
  OfflineSync.mkOperation "op3" "users" OfflineSync.k_delete
    (VObj [("id", VStr "7")]) 300 true.

(** A server that accepts every request. *)
Definition accepting : nat -> OfflineSync.Request -> OfflineSync.ApiOutcome :=
  fun _ _ => OfflineSync.Responded VNull.


(** A row that is deleted was last written when it was deleted. *)
Definition deleted_stamp (rows : list Versioned.BaseRecord) : Prop :=
  forall r t, r ∈ rows -> Versioned.deletedAt r = Some t ->
              Versioned.updatedAt r = t.

(* ===================================================================== *)
(** * Properties *)
(* ===================================================================== *)

(** ** Strings *)

Lemma append_cons (c : ascii) (p s : string) :
  String c p +:+ s = String c (p +:+ s).
Proof. reflexivity. Qed.

Lemma append_length (p s : string) :
  String.length (p +:+ s) = (String.length p + String.length s)%nat.
Proof.
  induction p as [|c p IH]; [reflexivity|].
  rewrite append_cons. simpl. by rewrite IH.
Qed.

Lemma endsWith_refl (s : string) : endsWith s s = true.
Proof. destruct s; cbn [endsWith]; by rewrite String.eqb_refl. Qed.

Lemma endsWith_app (p s : string) : endsWith (p +:+ s) s = true.
Proof.
  induction p as [|c p IH]; [apply endsWith_refl|].
  rewrite append_cons. cbn [endsWith]. rewrite IH. apply orb_true_r.
Qed.

(** When [t] ends [f ++ s], one of [s] and [t] ends the other. *)
Lemma endsWith_app_inv (f s t : string) :
  endsWith (f +:+ s) t = true ->
  endsWith s t = true \/ endsWith t s = true.
Proof.
  induction f as [|c f IH]; [by left|].
  rewrite append_cons. cbn [endsWith].
  intros [H|H]%orb_true_iff.
  - apply String.eqb_eq in H. right. rewrite <- H, <- append_cons.
    apply endsWith_app.
  - by apply IH.
Qed.

Lemma substring_0_app (f s : string) :
  String.substring 0 (String.length f) (f +:+ s) = f.
Proof.
  induction f as [|c f IH].
  - by destruct s.
  - rewrite append_cons. simpl. by rewrite IH.
Qed.

Lemma slice_end_app (f s : string) :
  slice_end (f +:+ s) (String.length s) = f.
Proof.
  unfold slice_end. rewrite append_length.
  replace (String.length f + String.length s - String.length s)%nat
    with (String.length f) by lia.
  apply substring_0_app.
Qed.

(** ** The filter compiler of [helpers/filterOperator.ts] *)

Example parse_age_gt :
  FilterOp.parseFieldAndOperator "age_gt" = ("age", op_gt).
Proof. reflexivity. Qed.

Example parse_created_at_lte :
  FilterOp.parseFieldAndOperator "created_at_lte" = ("created_at", op_lte).
Proof. reflexivity. Qed.

Example parse_status :
  FilterOp.parseFieldAndOperator "status" = ("status", op_eq).
Proof. reflexivity. Qed.

(** [?page=2&age_gt=30&name_substr=ann] compiles to two predicates. *)
Example compile_age_name :
  FilterOp.fromQueryParams
    {| page := Some 2; limit := None; sort := None; select := None;
       deleted := None;
       rest := {["age_gt" := VNum 30; "name_substr" := VStr "ann"]} |}
  ≡ₚ [mkFilter "age" op_gt (VNum 30); mkFilter "name" op_substr (VStr "ann")].
Proof.
  set (l := FilterOp.fromQueryParams _). vm_compute in l. subst l.
  first [reflexivity | apply perm_swap].
Qed.

(** The prefix form of the library reads the operator before the field. *)
Example compile_prefix_form :
  LibFilterOp.fromQueryParams
    {| page := None; limit := None; sort := None; select := None;
       deleted := None;
       rest := {["gte_age" := VNum 30; "age_gt" := VNum 1]} |}
  ≡ₚ [mkFilter "age" op_gte (VNum 30); mkFilter "age_gt" op_eq (VNum 1)].
Proof.
  set (l := LibFilterOp.fromQueryParams _). vm_compute in l. subst l.
  first [reflexivity | apply perm_swap].
Qed.

(** No mapping before the one of [o] matches a key serialized with [o]. *)
Lemma parse_suffixed (f : string) (o : FilterOperatorType) :
  o <> op_eq ->
  FilterOp.parseFieldAndOperator (f +:+ "_" +:+ op_name o) = (f, o).
Proof.
  intros Ho. unfold FilterOp.parseFieldAndOperator, FilterOp.operatorMappings.
  destruct o; try congruence; clear Ho;
    match goal with
    | |- context [f +:+ ?s] =>
        let s' := eval vm_compute in s in change s with s'
    end;
    repeat
      (cbn [FilterOp.parse_loop];
       match goal with
       | |- context [endsWith (f +:+ ?s) ?t] =>
           let E := fresh "E" in
           destruct (endsWith (f +:+ s) t) eqn:E;
           [ first
               [ (* this is the mapping of [o] *)
                 f_equal; exact (slice_end_app f s)
               | (* an earlier mapping cannot match *)
                 exfalso; apply endsWith_app_inv in E;
                 destruct E as [E|E]; vm_compute in E; discriminate E ]
           | ]
       end);
    exfalso;
    match goal with
    | E : endsWith (f +:+ ?s) ?s = false |- _ =>
        rewrite endsWith_app in E; discriminate E
    end.
Qed.

Lemma reserved_suffixed (f : string) (o : FilterOperatorType) :
  o <> op_eq -> is_reserved (f +:+ "_" +:+ op_name o) = false.
Proof.
  intros Ho. destruct (is_reserved _) eqn:E; [exfalso|done].
  unfold is_reserved, RESERVED_QUERY_PARAMS in E.
  pose proof (endsWith_app f ("_" +:+ op_name o)) as Hs.
  cbn [existsb] in E.
  repeat (apply orb_true_iff in E as [E|E];
          [apply String.eqb_eq in E; rewrite E in Hs;
           destruct o; try congruence; vm_compute in Hs; discriminate Hs|]).
  discriminate E.
Qed.

Lemma proto_suffixed (f : string) (o : FilterOperatorType) :
  o <> op_eq -> f +:+ "_" +:+ op_name o <> "__proto__".
Proof.
  intros Ho E.
  pose proof (endsWith_app f ("_" +:+ op_name o)) as Hs.
  rewrite E in Hs.
  destruct o; try congruence; vm_compute in Hs; discriminate Hs.
Qed.

Lemma parse_plain (key : string) :
  ends_with_operator_suffix key = false ->
  FilterOp.parseFieldAndOperator key = (key, op_eq).
Proof.
  unfold ends_with_operator_suffix, FilterOp.parseFieldAndOperator.
  induction FilterOp.operatorMappings as [|[[suffix o] len] ms IH];
    [done|].
  cbn [existsb FilterOp.parse_loop fst].
  intros [H1 H2]%orb_false_iff. rewrite H1. by apply IH.
Qed.

(** Serializing one predicate and compiling its key gives it back. *)
Lemma parse_param_key (f : Filter) :
  plain_field f ->
  is_reserved (FilterOp.param_key f) = false /\
  FilterOp.param_key f <> "__proto__" /\
  FilterOp.parseFieldAndOperator (FilterOp.param_key f)
    = (field f, operator f).
Proof.
  intros Hp. destruct f as [fld o v]. unfold plain_field in Hp.
  cbn [field operator] in *.
  destruct (decide (o = op_eq)) as [->|Ho].
  - destruct (Hp eq_refl) as (Hr & Hs & Hproto). split; [done|].
    split; [done|]. by apply parse_plain.
  - assert (FilterOp.param_key (mkFilter fld o v)
            = fld +:+ "_" +:+ op_name o) as ->
      by (unfold FilterOp.param_key; by destruct o).
    split; [by apply reserved_suffixed|].
    split; [by apply proto_suffixed | by apply parse_suffixed].
Qed.

Lemma from_entry_param_key (f : Filter) :
  plain_field f ->
  FilterOp.from_entry (FilterOp.param_key f, value f) = [f].
Proof.
  intros (Hr & _ & Hp)%parse_param_key. unfold FilterOp.from_entry.
  cbn [fst snd]. rewrite Hr, Hp. by destruct f.
Qed.

Lemma lookup_obj_assign {V : Type} (o : gmap string V) (k k' : string)
    (v : V) :
  obj_assign o k v !! k' =
  if decide (k = k' /\ k <> "__proto__") then Some v else o !! k'.
Proof.
  unfold obj_assign. destruct (String.eqb_spec k "__proto__") as [->|Hne].
  - case_decide as H; [by destruct H|done].
  - case_decide as H.
    + destruct H as [-> _]. by rewrite lookup_insert_eq.
    + rewrite lookup_insert_ne; [done|]. intros ->. by apply H.
Qed.

(** What [toQueryParams] leaves under a key was written by a filter. *)
Lemma toQueryParams_lookup_inv (P : list Filter) (m : gmap string JsValue)
    (k : string) (v : JsValue) :
  foldl (fun params f => obj_assign params (FilterOp.param_key f) (value f))
    m P !! k = Some v ->
  (exists f, f ∈ P /\ FilterOp.param_key f = k /\ k <> "__proto__" /\
             value f = v) \/
  m !! k = Some v.
Proof.
  revert m. induction P as [|f P IH]; intros m; cbn [foldl]; [by right|].
  intros [(g & Hg & Hk & Hv)|H]%IH.
  - left. exists g. split; [by apply elem_of_cons; right|done].
  - rewrite lookup_obj_assign in H. case_decide as Hd; [|by right].
    destruct Hd as [<- Hproto]. left. exists f.
    split; [apply elem_of_cons; by left|]. split; [done|].
    split; [done|congruence].
Qed.

(** A key that is written stays written. *)
Lemma toQueryParams_lookup_mono (P : list Filter)
    (m : gmap string JsValue) (k : string) :
  is_Some (m !! k) ->
  is_Some (foldl (fun params f =>
             obj_assign params (FilterOp.param_key f) (value f)) m P !! k).
Proof.
  revert m. induction P as [|q P IH]; intros m Hs; [done|].
  cbn [foldl]. apply IH. rewrite lookup_obj_assign.
  case_decide; [by eexists|done].
Qed.

Lemma toQueryParams_lookup_elem (P : list Filter)
    (m : gmap string JsValue) (f : Filter) :
  f ∈ P ->
  FilterOp.param_key f <> "__proto__" ->
  is_Some (foldl (fun params f =>
             obj_assign params (FilterOp.param_key f) (value f)) m P
           !! FilterOp.param_key f).
Proof.
  revert m. induction P as [|h P IH]; intros m Hf Hproto;
    [by inversion Hf|].
  cbn [foldl]. apply elem_of_cons in Hf as [->|Hf]; [|by apply IH].
  apply toQueryParams_lookup_mono. rewrite lookup_obj_assign.
  rewrite decide_True by done. by eexists.
Qed.

Lemma elem_of_roundtrip (P : list Filter) (t : Filter) :
  t ∈ roundtrip P <->
  exists k v, FilterOp.toQueryParams P !! k = Some v /\
              t ∈ FilterOp.from_entry (k, v).
Proof.
  unfold roundtrip, FilterOp.fromQueryParams.
  change (Object_entries (params_of_object (FilterOp.toQueryParams P)))
    with (map_to_list (FilterOp.toQueryParams P)).
  rewrite list_elem_of_bind. split.
  - intros ([k v] & Ht & Hkv). apply elem_of_map_to_list in Hkv. eauto.
  - intros (k & v & Hkv & Ht). exists (k, v).
    split; [done|]. by apply elem_of_map_to_list.
Qed.

(** C3 (amended): for every predicate list whose equality predicates
    have a field that is not a reserved key, does not end with an
    operator suffix and is not [__proto__], and in which no two
    predicates with the same field and operator differ in value,
    compiling the serialization gives back the same set of (field,
    operator, value) triples. *)
Theorem roundtrip_same_triples (P : list Filter) :
  Forall plain_field P ->
  single_valued P ->
  same_triples (roundtrip P) P.
Proof.
  intros Hplain Hsv t. rewrite Forall_forall in Hplain.
  rewrite elem_of_roundtrip. split.
  - intros (k & v & Hkv & Ht).
    apply toQueryParams_lookup_inv in Hkv as [(f & Hf & <- & _ & <-)|H];
      [|by rewrite lookup_empty in H].
    rewrite from_entry_param_key in Ht by auto.
    apply list_elem_of_singleton in Ht. by subst.
  - intros Ht.
    destruct (parse_param_key t (Hplain t Ht)) as (_ & Hproto & Hpt).
    destruct (toQueryParams_lookup_elem P ∅ t Ht Hproto) as [v Hv].
    exists (FilterOp.param_key t), (value t). split.
    + unfold FilterOp.toQueryParams. rewrite Hv. f_equal.
      apply toQueryParams_lookup_inv in Hv as [(g & Hg & Hk & _ & <-)|H];
        [|by rewrite lookup_empty in H].
      destruct (parse_param_key g (Hplain g Hg)) as (_ & _ & Hpg).
      rewrite Hk, Hpt in Hpg. inversion Hpg. by apply Hsv.
    + rewrite from_entry_param_key by auto. by apply list_elem_of_singleton.
Qed.

(** The conditions are the only obstacles: a predicate list that
    survives the round trip satisfies them. *)
Lemma endsWith_split (k s : string) :
  endsWith k s = true -> k = slice_end k (String.length s) +:+ s.
Proof.
  intros H.
  assert (exists p, k = p +:+ s) as [p ->]; [|by rewrite slice_end_app].
  induction k as [|c k IH]; cbn [endsWith] in H.
  - rewrite orb_false_r in H. apply String.eqb_eq in H. by exists "".
  - apply orb_true_iff in H as [H|H].
    + apply String.eqb_eq in H. by exists "".
    + destruct (IH H) as [p Hp]. exists (String c p).
      by rewrite append_cons, <- Hp.
Qed.

Lemma parse_inv (k fld : string) (o : FilterOperatorType) (v : JsValue) :
  FilterOp.parseFieldAndOperator k = (fld, o) ->
  k = FilterOp.param_key (mkFilter fld o v) /\
  (o = op_eq -> ends_with_operator_suffix k = false).
Proof.
  unfold FilterOp.parseFieldAndOperator, ends_with_operator_suffix,
    FilterOp.operatorMappings.
  cbn [FilterOp.parse_loop existsb fst].
  repeat
    match goal with
    | |- context [endsWith k ?s] =>
        let E := fresh "E" in
        destruct (endsWith k s) eqn:E;
        [ intros [= <- <-]; split; [|discriminate];
          exact (endsWith_split k s E)
        | cbn [orb] ]
    end.
  intros [= <- <-]. by split.
Qed.

Lemma roundtrip_conditions_necessary (P : list Filter) :
  same_triples (roundtrip P) P -> Forall plain_field P /\ single_valued P.
Proof.
  intros Hsame.
  assert (forall f, f ∈ P ->
            is_reserved (FilterOp.param_key f) = false /\
            FilterOp.param_key f <> "__proto__" /\
            (operator f = op_eq ->
             ends_with_operator_suffix (field f) = false) /\
            FilterOp.toQueryParams P !! FilterOp.param_key f
              = Some (value f)) as Hall.
  { intros f Hf. apply Hsame, elem_of_roundtrip in Hf as (k & v & Hkv & Ht).
    unfold FilterOp.from_entry in Ht. cbn [fst snd] in Ht.
    destruct (is_reserved k) eqn:Hr; [by apply elem_of_nil in Ht|].
    destruct (FilterOp.parseFieldAndOperator k) as [fld o] eqn:Hp.
    apply list_elem_of_singleton in Ht as ->.
    destruct (parse_inv k fld o v Hp) as [-> Hsuf].
    split; [done|]. split; [|split; [|done]].
    - apply toQueryParams_lookup_inv in Hkv as [(g & _ & _ & Hproto & _)|H];
        [done|by rewrite lookup_empty in H].
    - cbn [operator field]. intros ->. by apply Hsuf. }
  split.
  - apply Forall_forall. intros f Hf Ho.
    destruct (Hall f Hf) as (Hr & Hproto & Hs & _).
    unfold FilterOp.param_key in Hr, Hproto. rewrite Ho in Hr, Hproto. auto.
  - intros f g Hf Hg Hfld Hop.
    destruct (Hall f Hf) as (_ & _ & _ & Hvf).
    destruct (Hall g Hg) as (_ & _ & _ & Hvg).
    assert (FilterOp.param_key f = FilterOp.param_key g) as Hk
      by (unfold FilterOp.param_key; by rewrite Hfld, Hop).
    rewrite Hk in Hvf. congruence.
Qed.

(** C3 (as stated) fails: an equality predicate on the field [check_in]
    is serialized under the key [check_in] and compiled to the predicate
    [in] on the field [check]. *)
Lemma roundtrip_counterexample :
  ~ same_triples (roundtrip [mkFilter "check_in" op_eq (VNum 1)])
                 [mkFilter "check_in" op_eq (VNum 1)].
Proof.
  intros H.
  assert (mkFilter "check_in" op_eq (VNum 1)
            ∈ roundtrip [mkFilter "check_in" op_eq (VNum 1)]) as Hin
    by (apply H, list_elem_of_singleton; reflexivity).
  change (roundtrip [mkFilter "check_in" op_eq (VNum 1)])
    with [mkFilter "check" op_in (VNum 1)] in Hin.
  apply list_elem_of_singleton in Hin. discriminate Hin.
Qed.

(** Two predicates on one field and operator share a key: the last
    value is the one that is compiled. *)
Example roundtrip_last_value_wins :
  roundtrip [mkFilter "a" op_eq (VNum 1); mkFilter "a" op_eq (VNum 2)]
  = [mkFilter "a" op_eq (VNum 2)].
Proof. vm_compute. reflexivity. Qed.

(** An equality predicate on a reserved key is not compiled. *)
Example roundtrip_drops_reserved :
  roundtrip [mkFilter "page" op_eq (VNum 2)] = [].
Proof. vm_compute. reflexivity. Qed.

(** An equality predicate on [__proto__] leaves no entry to compile. *)
Example roundtrip_drops_proto :
  roundtrip [mkFilter "__proto__" op_eq (VNum 2)] = [].
Proof. vm_compute. reflexivity. Qed.

Lemma roundtrip_same_triples_witness :
  let P := [mkFilter "age" op_gt (VNum 30);
            mkFilter "name" op_substr (VStr "ann");
            mkFilter "status" op_eq (VStr "open")] in
  Forall plain_field P /\ single_valued P /\ same_triples (roundtrip P) P.
Proof.
  intros P.
  assert (Forall plain_field P) as H1.
  { repeat constructor; intros Ho; try discriminate Ho; try reflexivity. }
  assert (single_valued P) as H2.
  { intros f g Hf Hg Hfld Hop. unfold P in Hf, Hg.
    repeat (apply elem_of_cons in Hf as [->|Hf]);
      [ | | | by apply elem_of_nil in Hf];
      repeat (apply elem_of_cons in Hg as [->|Hg]);
      try (by apply elem_of_nil in Hg);
      first [reflexivity | discriminate Hfld | discriminate Hop]. }
  split; [exact H1|]. split; [exact H2|].
  exact (roundtrip_same_triples P H1 H2).
Defined.

(** ** The append-only engine *)

Module VersionedFacts.
Import Versioned.

Global Instance updatedAt_ge_trans : Transitive updatedAt_ge.
Proof. intros a b c. unfold updatedAt_ge. lia. Qed.

Global Instance updatedAt_ge_total : Total updatedAt_ge.
Proof. intros a b. unfold updatedAt_ge. lia. Qed.

(** *** The database *)

Lemma elem_of_db_select (rows : list BaseRecord) (cond : BaseRecord -> bool)
    (r : BaseRecord) :
  r ∈ db_select rows cond <-> r ∈ rows /\ cond r = true.
Proof.
  unfold db_select, orderBy_desc_updatedAt.
  rewrite merge_sort_Permutation, list_elem_of_filter. tauto.
Qed.

Lemma db_select_sorted (rows : list BaseRecord) (cond : BaseRecord -> bool) :
  StronglySorted updatedAt_ge (db_select rows cond).
Proof. apply StronglySorted_merge_sort; apply _. Qed.


(** An insert that is accepted brought a key no row had. *)
Lemma db_insert_Ok (rows rows' result : list BaseRecord) (r : BaseRecord) :
  db_insert rows r = Ok (rows', result) ->
  rows' = rows ++ [r] /\ result = [r] /\
  forall x, x ∈ rows -> rowId x <> rowId r.
Proof.
  unfold db_insert. destruct (existsb _ rows) eqn:E; [done|].
  intros [= <- <-]. split; [done|]. split; [done|].
  intros x Hx Heq.
  assert (existsb (fun x => String.eqb (rowId x) (rowId r)) rows = true)
    as Ht; [|congruence].
  apply existsb_exists. exists x.
  split; [by apply list_elem_of_In|by apply String.eqb_eq].
Qed.

(** *** Resolution of the current version *)

Lemma elem_of_getLatestRecords (rows : list BaseRecord) (w : Z)
    (conditions : list (BaseRecord -> bool)) (r : BaseRecord) :
  r ∈ getLatestRecords rows w conditions <->
  r ∈ rows /\ active_in w r /\ forall c, c ∈ conditions -> c r = true.
Proof.
  unfold getLatestRecords, active_in.
  assert (forall cs, sql_and cs r = true <-> forall c, c ∈ cs -> c r = true)
    as Hand.
  { intros cs. unfold sql_and. rewrite forallb_forall.
    split; intros H c Hc; apply H; by apply list_elem_of_In. }
  assert (([eq_workspaceId w; isNull_deletedAt] : list (BaseRecord -> bool))
            = [eq_workspaceId w; isNull_deletedAt] ++ []) as Hnil
    by reflexivity.
  assert (forall cs : list (BaseRecord -> bool),
             (forall c, c ∈ [eq_workspaceId w; isNull_deletedAt] ++ cs
                        -> c r = true) <->
             (workspaceId r = w /\ deletedAt r = None) /\
             forall c, c ∈ cs -> c r = true) as Hbase.
  { intros cs. split.
    - intros H. split; [split|].
      + specialize (H (eq_workspaceId w)). unfold eq_workspaceId in H.
        apply Z.eqb_eq, H. set_solver.
      + specialize (H isNull_deletedAt). unfold isNull_deletedAt in H.
        destruct (deletedAt r); [|done].
        discriminate H. set_solver.
      + intros c Hc. apply H. set_solver.
    - intros [[Hw Hd] Hcs] c Hc.
      apply elem_of_app in Hc as [Hc|Hc]; [|by apply Hcs].
      apply elem_of_cons in Hc as [->|Hc];
        [unfold eq_workspaceId; by apply Z.eqb_eq|].
      apply list_elem_of_singleton in Hc as ->.
      unfold isNull_deletedAt. by rewrite Hd. }
  destruct conditions as [|c0 cs].
  - cbn [length Nat.ltb Nat.leb]. rewrite elem_of_db_select, Hnil, Hand, Hbase.
    tauto.
  - cbn [length Nat.ltb Nat.leb]. rewrite elem_of_db_select, Hand, Hbase.
    tauto.
Qed.

Lemma getLatestRecords_sorted (rows : list BaseRecord) (w : Z)
    (conditions : list (BaseRecord -> bool)) :
  StronglySorted updatedAt_ge (getLatestRecords rows w conditions).
Proof. unfold getLatestRecords. apply db_select_sorted. Qed.

(** The current version of an entity is one of its active rows, and no
    active row of the entity is more recent. *)
Lemma getLatestRecordById_Some (rows : list BaseRecord) (w : Z) (i : string)
    (r : BaseRecord) :
  getLatestRecordById rows w i = Some r ->
  r ∈ rows /\ active_in w r /\ id r = i /\
  forall r', r' ∈ rows -> active_in w r' -> id r' = i ->
             updatedAt r' <= updatedAt r.
Proof.
  unfold getLatestRecordById.
  pose proof (getLatestRecords_sorted rows w [eq_id i]) as Hs.
  pose proof (elem_of_getLatestRecords rows w [eq_id i]) as He.
  destruct (getLatestRecords rows w [eq_id i]) as [|x l]; [done|].
  intros [= ->].
  destruct (proj1 (He r)) as (Hr & Ha & Hc); [set_solver|].
  assert (forall y, eq_id i y = true <-> id y = i) as Hid
    by (intros y; unfold eq_id; apply String.eqb_eq).
  split; [done|]. split; [done|].
  split; [apply Hid, Hc; set_solver|].
  intros r' Hr' Ha' Hi'.
  assert (r' ∈ r :: l) as Hin.
  { apply He. split; [done|]. split; [done|].
    intros c Hc'. apply list_elem_of_singleton in Hc' as ->. by apply Hid. }
  apply elem_of_cons in Hin as [->|Hin]; [lia|].
  apply StronglySorted_inv in Hs as [_ Hall].
  rewrite Forall_forall in Hall. by apply Hall.
Qed.

(** No current version: the entity has no active row in the workspace. *)
Lemma getLatestRecordById_None (rows : list BaseRecord) (w : Z)
    (i : string) :
  getLatestRecordById rows w i = None <->
  forall r, r ∈ rows -> active_in w r -> id r <> i.
Proof.
  unfold getLatestRecordById.
  pose proof (elem_of_getLatestRecords rows w [eq_id i]) as He.
  destruct (getLatestRecords rows w [eq_id i]) as [|x l]; split.
  - intros _ r Hr Ha Hi.
    assert (r ∈ @nil BaseRecord) as Hin; [|by apply elem_of_nil in Hin].
    apply He. split; [done|]. split; [done|].
    intros c Hc. apply list_elem_of_singleton in Hc as ->.
    unfold eq_id. by apply String.eqb_eq.
  - done.
  - done.
  - intros H. exfalso.
    destruct (proj1 (He x)) as (Hr & Ha & Hc); [set_solver|].
    apply (H x Hr Ha). apply String.eqb_eq.
    apply (Hc (eq_id i)). set_solver.
Qed.

(** *** The insertion-ordered map of [getAll] *)

Lemma amap_get_None {V : Type} (m : list (string * V)) (k : string) :
  amap_get m k = None <-> k ∉ map fst m.
Proof.
  induction m as [|[k' v] m IH]; cbn [amap_get map fst].
  - split; [intros _ H; by apply elem_of_nil in H|done].
  - rewrite not_elem_of_cons. destruct (String.eqb_spec k' k) as [->|Hne].
    + split; [done|]. by intros [? _].
    + rewrite IH. split; [by split|tauto].
Qed.

Lemma amap_get_Some {V : Type} (m : list (string * V)) (k : string) (v : V) :
  amap_get m k = Some v -> (k, v) ∈ m.
Proof.
  induction m as [|[k' v'] m IH]; cbn [amap_get]; [done|].
  destruct (String.eqb_spec k' k) as [->|Hne].
  - intros [= ->]. apply elem_of_cons. by left.
  - intros H. apply elem_of_cons. right. by apply IH.
Qed.

Lemma amap_set_fresh {V : Type} (m : list (string * V)) (k : string) (v : V) :
  amap_get m k = None -> amap_set m k v = m ++ [(k, v)].
Proof.
  induction m as [|[k' v'] m IH]; cbn [amap_get amap_set]; [done|].
  destruct (String.eqb k' k); [done|].
  intros H. by rewrite IH.
Qed.

Lemma amap_get_snoc {V : Type} (m : list (string * V)) (k k' : string)
    (v : V) :
  amap_get (m ++ [(k, v)]) k' =
  match amap_get m k' with
  | Some x => Some x
  | None => if String.eqb k k' then Some v else None
  end.
Proof.
  induction m as [|[k0 v0] m IH]; cbn [amap_get app]; [done|].
  by destruct (String.eqb k0 k').
Qed.

(** *** [getAll] *)

Lemma getAll_step_inv (seen : list BaseRecord)
    (m : list (string * BaseRecord)) (r : BaseRecord) :
  getAll_inv seen m ->
  (forall x, x ∈ seen -> updatedAt r <= updatedAt x) ->
  (forall x, x ∈ seen -> id x = id r -> createdAt x = createdAt r) ->
  getAll_inv (seen ++ [r]) (getAll_step m r).
Proof.
  intros (Hnd & Hent & Hcov) Hle Hca. unfold getAll_step.
  destruct (amap_get m (id r)) as [e|] eqn:E.
  - apply amap_get_Some in E as Hin. destruct (Hent _ _ Hin) as [Hid He].
    rewrite (Hca e He Hid), Z.ltb_irrefl.
    split; [done|]. split.
    + intros k v Hkv. destruct (Hent k v Hkv) as [? ?].
      split; [done|]. apply elem_of_app. by left.
    + intros x [Hx|Hx]%elem_of_app; [by apply Hcov|].
      apply list_elem_of_singleton in Hx as ->.
      exists e. split; [done|]. by apply Hle.
  - rewrite amap_set_fresh by done. split; [|split].
    + rewrite map_app. apply NoDup_app. split; [done|].
      split; [|apply NoDup_singleton].
      intros k Hk Hk'. apply list_elem_of_singleton in Hk' as ->.
      by apply amap_get_None in E.
    + intros k v [Hkv|Hkv]%elem_of_app.
      * destruct (Hent k v Hkv) as [? ?].
        split; [done|]. apply elem_of_app. by left.
      * apply list_elem_of_singleton in Hkv as [= -> ->].
        split; [done|]. apply elem_of_app. right.
        by apply list_elem_of_singleton.
    + intros x [Hx|Hx]%elem_of_app.
      * destruct (Hcov x Hx) as (v & Hv & Hle').
        exists v. split; [|done]. by rewrite amap_get_snoc, Hv.
      * apply list_elem_of_singleton in Hx as ->.
        exists r. split; [|lia].
        by rewrite amap_get_snoc, E, String.eqb_refl.
Qed.

Lemma getAll_fold_inv (todo seen : list BaseRecord)
    (m : list (string * BaseRecord)) :
  StronglySorted updatedAt_ge (seen ++ todo) ->
  (forall x y, x ∈ seen ++ todo -> y ∈ seen ++ todo ->
     id x = id y -> createdAt x = createdAt y) ->
  getAll_inv seen m ->
  getAll_inv (seen ++ todo) (foldl getAll_step m todo).
Proof.
  revert seen m. induction todo as [|r todo IH]; intros seen m Hs Hca Hinv.
  - by rewrite app_nil_r.
  - cbn [foldl]. rewrite cons_middle, app_assoc in Hs, Hca |- *.
    apply IH; [done|done|].
    apply getAll_step_inv; [done| |].
    + intros x Hx. apply StronglySorted_app_1_l in Hs.
      by apply (StronglySorted_app_1_elem_of _ _ _ x r Hs);
        [|apply list_elem_of_singleton].
    + intros x Hx Hid. apply Hca; [| |done].
      * apply elem_of_app. left. apply elem_of_app. by left.
      * apply elem_of_app. left. apply elem_of_app. right.
        by apply list_elem_of_singleton.
Qed.

(** C2: on a table whose version chains keep their [createdAt], [getAll]
    returns for a workspace exactly one record per logical id that has a
    non-deleted row there: a non-deleted row of the workspace with that id
    whose [updatedAt] is the greatest; deleted rows and rows of other
    workspaces do not appear. *)
Theorem getAll_latest_per_id (st : State) (modelName table : string)
    (rows : list BaseRecord) (w : Z) :
  registeredTables st !! modelName = Some table ->
  tables st !! table = Some rows ->
  createdAt_stable rows ->
  exists result,
    getAll st modelName w = Ok result /\
    NoDup (map id result) /\
    (forall r, r ∈ result -> r ∈ rows /\ active_in w r) /\
    (forall r, r ∈ rows -> active_in w r ->
       exists r', r' ∈ result /\ id r' = id r /\
                  forall r'', r'' ∈ rows -> active_in w r'' ->
                    id r'' = id r -> updatedAt r'' <= updatedAt r').
Proof.
  intros Hreg Htab Hstable. unfold getAll, resolve.
  rewrite Hreg, Htab. cbn [mbind Outcome_bind].
  set (L := getLatestRecords rows w []).
  assert (forall x, x ∈ L <-> x ∈ rows /\ active_in w x) as HL.
  { intros x. unfold L. rewrite elem_of_getLatestRecords.
    split; [tauto|]. intros [? ?]. split; [done|]. split; [done|].
    intros c Hc. by apply elem_of_nil in Hc. }
  destruct (getAll_fold_inv L [] []) as (Hnd & Hent & Hcov).
  { apply getLatestRecords_sorted. }
  { cbn [app]. intros x y [Hx [Hwx _]]%HL [Hy [Hwy _]]%HL Hid.
    apply Hstable; congruence. }
  { split; [constructor|].
    split; [intros k v H|intros r H]; by apply elem_of_nil in H. }
  cbn [app] in *. set (m := foldl getAll_step [] L) in *.
  exists (amap_values m). split; [done|]. unfold amap_values.
  assert (map id (map snd m) = map fst m) as Hids.
  { rewrite map_map. apply map_ext_in. intros [k v] Hkv.
    apply list_elem_of_In in Hkv. by destruct (Hent k v Hkv). }
  split; [by rewrite Hids|]. split.
  - intros r Hr. apply list_elem_of_In, in_map_iff in Hr as ([k v] & <- & Hkv).
    apply list_elem_of_In in Hkv. apply HL. by destruct (Hent k v Hkv).
  - intros r Hr Ha.
    destruct (Hcov r) as (v & Hv & _); [by apply HL|].
    exists v. apply amap_get_Some in Hv as Hin. split; [|split].
    + apply list_elem_of_In, in_map_iff. exists (id r, v).
      split; [done|]. by apply list_elem_of_In.
    + by destruct (Hent _ _ Hin).
    + intros r'' Hr'' Ha'' Hid''.
      destruct (Hcov r'') as (v' & Hv' & Hle); [by apply HL|].
      rewrite Hid'' in Hv'. congruence.
Qed.

Lemma createdAt_stable_updated : createdAt_stable [row_v1; row_v2].
Proof.
  intros r1 r2 H1 H2 _ _.
  repeat (apply elem_of_cons in H1 as [->|H1]);
    [ | |by apply elem_of_nil in H1];
    repeat (apply elem_of_cons in H2 as [->|H2]);
    try (by apply elem_of_nil in H2); reflexivity.
Qed.

Lemma getAll_latest_per_id_witness :
  registeredTables st_updated !! "User" = Some "user" /\
  tables st_updated !! "user" = Some [row_v1; row_v2] /\
  createdAt_stable [row_v1; row_v2] /\
  exists result,
    getAll st_updated "User" 1 = Ok result /\
    NoDup (map id result) /\
    (forall r, r ∈ result -> r ∈ [row_v1; row_v2] /\ active_in 1 r) /\
    (forall r, r ∈ [row_v1; row_v2] -> active_in 1 r ->
       exists r', r' ∈ result /\ id r' = id r /\
                  forall r'', r'' ∈ [row_v1; row_v2] -> active_in 1 r'' ->
                    id r'' = id r -> updatedAt r'' <= updatedAt r').
Proof.
  split; [reflexivity|]. split; [reflexivity|].
  split; [exact createdAt_stable_updated|].
  exact (getAll_latest_per_id st_updated "User" "user" [row_v1; row_v2] 1
           eq_refl eq_refl createdAt_stable_updated).
Defined.

(** With two versions of one logical id, [getAll] returns the later. *)
Example getAll_two_versions : getAll st_updated "User" 1 = Ok [row_v2].
Proof. vm_compute. reflexivity. Qed.

(** The loop compares [createdAt]: were the versions of an entity to
    differ in it, the version created last would win over the version
    updated last. *)
Example getAll_compares_createdAt :
  let older := {| rowId := "row-1"; workspaceId := 1; id := "entity-1";
                  name := "A"; data := ∅;
                  createdAt := 100; updatedAt := 400; deletedAt := None |} in
  let newer := {| rowId := "row-2"; workspaceId := 1; id := "entity-1";
                  name := "B"; data := ∅;
                  createdAt := 200; updatedAt := 300; deletedAt := None |} in
  getAll {| registeredTables := {["User" := "user"]};
            tables := {["user" := [older; newer]]} |} "User" 1
  = Ok [newer].
Proof. vm_compute. reflexivity. Qed.

(** *** [update] *)



(** What [update] does on an entity with a current version: the
    database accepts the row, which had a row id no row has, and the row
    is appended and returned, or the insert is refused and the call
    throws with the state as it was. *)
Lemma update_outcome (st : State) (modelName table : string)
    (rows : list BaseRecord) (w : Z) (i : string) (upd : UpdateData)
    (now : Z) (newRowId : string) (prior : BaseRecord) :
  registeredTables st !! modelName = Some table ->
  tables st !! table = Some rows ->
  getLatestRecordById rows w i = Some prior ->
  let sent := newRecordData prior upd now newRowId in
  (update st modelName w i upd now newRowId
     = (Ok (Some sent), set_table st table (rows ++ [sent])) /\
   forall x, x ∈ rows -> rowId x <> newRowId) \/
  (exists e, update st modelName w i upd now newRowId = (Throw e, st)).
Proof.
  intros Hreg Htab Hprior sent. unfold update, resolve.
  rewrite Hreg, Htab, Hprior. fold sent.
  destruct (db_insert rows sent) as [[rows' result]|e] eqn:E.
  - left. apply db_insert_Ok in E as (-> & -> & Hfresh). by split.
  - right. by exists e.
Qed.


(** The two updates of the sample states are calls of the engine. *)
Example create_sample :
  create st_empty "User"
    {| c_workspaceId := 1; c_name := "A";
       c_data := Present {["x" := VNum 1]} |} 100 "entity-1" "row-1"
  = (Ok (Some row_v1), st_created).
Proof. vm_compute. reflexivity. Qed.

Example update_sample :
  update st_created "User" 1 "entity-1"
    {| u_name := Absent; u_data := Present {["y" := VNum 2]} |} 200 "row-2"
  = (Ok (Some row_v2), st_updated).
Proof. vm_compute. reflexivity. Qed.



(** [update] on an entity without a current version throws and leaves
    the state as it was. *)
Lemma update_no_active (st : State) (modelName table : string)
    (rows : list BaseRecord) (w : Z) (i : string) (upd : UpdateData)
    (now : Z) (newRowId : string) :
  registeredTables st !! modelName = Some table ->
  tables st !! table = Some rows ->
  getLatestRecordById rows w i = None ->
  update st modelName w i upd now newRowId
    = (Throw (NoActiveRecord modelName i w), st).
Proof.
  intros Hreg Htab Hnone. unfold update, resolve.
  by rewrite Hreg, Htab, Hnone.
Qed.

(** C10: in [update], the row built for an entity with a current
    version keeps the name of the prior version when the caller's name
    is missing, [null] or empty, and its data when the caller's data is
    missing or [null]; a name that is not empty and data that is an
    object override it. The call returns that row, appended to the table,
    or throws with the state as it was. *)
Theorem update_ignores_falsy (st : State) (modelName table : string)
    (rows : list BaseRecord) (w : Z) (i : string) (upd : UpdateData)
    (now : Z) (newRowId : string) (prior : BaseRecord) :
  registeredTables st !! modelName = Some table ->
  tables st !! table = Some rows ->
  getLatestRecordById rows w i = Some prior ->
  let sent := newRecordData prior upd now newRowId in
  (u_name upd = Present "" \/ u_name upd = IsNull \/ u_name upd = Absent ->
   name sent = name prior) /\
  (u_data upd = IsNull \/ u_data upd = Absent ->
   data sent = data prior) /\
  (forall s, u_name upd = Present s -> s <> "" -> name sent = s) /\
  (forall o, u_data upd = Present o -> data sent = o ∪ data prior) /\
  (forall result st',
     update st modelName w i upd now newRowId = (result, st') ->
     (result = Ok (Some sent) /\
      st' = set_table st table (rows ++ [sent])) \/
     (exists e, result = Throw e /\ st' = st)).
Proof.
  intros Hreg Htab Hprior sent. subst sent.
  cbn [newRecordData name data]. repeat split.
  - by intros [->|[->| ->]].
  - by intros [->| ->].
  - intros s -> Hs. cbn [name_or]. by destruct (String.eqb_spec s "").
  - by intros o ->.
  - intros result st' Hupd.
    destruct (update_outcome st modelName table rows w i upd now newRowId
                prior Hreg Htab Hprior) as [[H _]|[e H]];
      rewrite H in Hupd; injection Hupd as <- <-.
    + by left.
    + right. by exists e.
Qed.

Lemma update_ignores_falsy_witness :
  exists new st',
    update st_created "User" 1 "entity-1"
      {| u_name := Present ""; u_data := IsNull |} 200 "row-2"
      = (Ok (Some new), st') /\
    name new = "A" /\ data new = {["x" := VNum 1]}.
Proof.
  assert (getLatestRecordById [row_v1] 1 "entity-1" = Some row_v1) as Hp
    by (vm_compute; reflexivity).
  destruct (update_ignores_falsy st_created "User" "user" [row_v1] 1
              "entity-1" {| u_name := Present ""; u_data := IsNull |}
              200 "row-2" row_v1 eq_refl eq_refl Hp)
    as (Hname & Hdata & _ & _ & Hdone).
  destruct (Hdone _ _ eq_refl) as [[Hres Hst]|(e & Hres & _)];
    [|vm_compute in Hres; discriminate Hres].
  eexists _, _. split.
  - apply injective_projections; cbn [fst snd]; [exact Hres|reflexivity].
  - split; [apply Hname; left; reflexivity|].
    apply Hdata. left. reflexivity.
Defined.

(** *** [delete] *)

Lemma delete_no_active (st : State) (modelName table : string)
    (rows : list BaseRecord) (w : Z) (i : string) (now : Z) :
  registeredTables st !! modelName = Some table ->
  tables st !! table = Some rows ->
  getLatestRecordById rows w i = None ->
  delete st modelName w i now = (Ok false, st).
Proof.
  intros Hreg Htab Hnone. unfold delete, resolve.
  by rewrite Hreg, Htab, Hnone.
Qed.

(** Rows with one primary key are one row. *)
Lemma rowId_unique_eq (rows : list BaseRecord) (x y : BaseRecord) :
  rowId_unique rows -> x ∈ rows -> y ∈ rows -> rowId x = rowId y -> x = y.
Proof.
  unfold rowId_unique. induction rows as [|r rows IH]; cbn [map].
  - by intros _ ?%elem_of_nil.
  - intros [Hnotin Hnd]%NoDup_cons [->|Hx]%elem_of_cons [->|Hy]%elem_of_cons
      Heq; [done| | |by apply IH].
    + exfalso. apply Hnotin. rewrite Heq.
      apply list_elem_of_In, in_map, list_elem_of_In, Hy.
    + exfalso. apply Hnotin. rewrite <- Heq.
      apply list_elem_of_In, in_map, list_elem_of_In, Hx.
Qed.

Lemma sql_and_rowId (a r : BaseRecord) :
  sql_and [eq_rowId (rowId a); isNull_deletedAt] r = true <->
  rowId r = rowId a /\ deletedAt r = None.
Proof.
  unfold sql_and, eq_rowId, isNull_deletedAt. cbn [forallb].
  rewrite andb_true_r, andb_true_iff, String.eqb_eq.
  destruct (deletedAt r); naive_solver.
Qed.

(** On an entity with a current version, [delete] returns [true] and
    marks rows in place: the table keeps its length. *)
Lemma delete_active (st : State) (modelName table : string)
    (rows : list BaseRecord) (w : Z) (i : string) (now : Z)
    (a : BaseRecord) :
  registeredTables st !! modelName = Some table ->
  tables st !! table = Some rows ->
  getLatestRecordById rows w i = Some a ->
  delete st modelName w i now
    = (Ok true, set_table st table (map (mark_row a now) rows)).
Proof.
  intros Hreg Htab Ha. unfold delete, resolve.
  rewrite Hreg, Htab, Ha. unfold db_update. f_equal.
  apply getLatestRecordById_Some in Ha as (Hin & [_ Hd] & _).
  rewrite length_map.
  assert (a ∈ filter
            (fun r => sql_and [eq_rowId (rowId a); isNull_deletedAt] r = true)
            rows) as Hf
    by (apply list_elem_of_filter; split; [by apply sql_and_rowId|done]).
  destruct (filter _ rows); [by apply elem_of_nil in Hf|done].
Qed.

(** With [row_id] a key, the only row [delete] changes is the current
    version. *)
Lemma mark_row_other (rows : list BaseRecord) (a r : BaseRecord) (now : Z) :
  rowId_unique rows -> a ∈ rows -> r ∈ rows -> r <> a ->
  mark_row a now r = r.
Proof.
  intros Hu Ha Hr Hne. unfold mark_row.
  destruct (sql_and _ r) eqn:E; [|done].
  apply sql_and_rowId in E as [E _]. exfalso. apply Hne.
  by apply (rowId_unique_eq rows).
Qed.

Lemma mark_row_current (a : BaseRecord) (now : Z) :
  deletedAt a = None -> mark_row a now a = mark_deleted now a.
Proof.
  intros Hd. unfold mark_row.
  by rewrite (proj2 (sql_and_rowId a a) (conj eq_refl Hd)).
Qed.

(** C7 at work on an entity that was updated once: the first [delete]
    marks the second version, after which the first version is the
    current one again; the second [delete] returns [true] and marks it
    too. *)
Theorem delete_twice_after_update :
  delete st_updated "User" 1 "entity-1" 300 = (Ok true, st_deleted_once) /\
  get st_deleted_once "User" 1 "entity-1" = Ok (Some row_v1) /\
  delete st_deleted_once "User" 1 "entity-1" 400
    = (Ok true, st_deleted_twice).
Proof. repeat split; vm_compute; reflexivity. Qed.

(** *** Workspaces *)

Lemma amap_set_elem {V : Type} (m : list (string * V)) (k : string) (v : V)
    (e : string * V) :
  e ∈ amap_set m k v -> e ∈ m \/ e = (k, v).
Proof.
  induction m as [|[k0 v0] m IH]; cbn [amap_set].
  - intros ?%list_elem_of_singleton. by right.
  - destruct (String.eqb k0 k).
    + intros [->|H]%elem_of_cons; [by right|].
      left. apply elem_of_cons. by right.
    + intros [->|H]%elem_of_cons; [left; apply elem_of_cons; by left|].
      destruct (IH H) as [?|?]; [|by right].
      left. apply elem_of_cons. by right.
Qed.

(** Whatever the rows are, [getAll] returns records it was given. *)
Lemma getAll_fold_subset (L : list BaseRecord)
    (m : list (string * BaseRecord)) (e : string * BaseRecord) :
  e ∈ foldl getAll_step m L -> e ∈ m \/ e.2 ∈ L.
Proof.
  revert m. induction L as [|r L IH]; intros m; cbn [foldl]; [by left|].
  intros [H|H]%IH; [|right; apply elem_of_cons; by right].
  unfold getAll_step in H.
  destruct (amap_get m (id r)) as [x|];
    [destruct (createdAt x <? createdAt r)|]; try (by left);
    (apply amap_set_elem in H as [H| ->];
     [by left|right; apply elem_of_cons; by left]).
Qed.

Lemma filter_map_unchanged {A : Type} (P : A -> Prop)
    `{forall x, Decision (P x)} (f : A -> A) (l : list A) :
  (forall x, x ∈ l -> P (f x) <-> P x) ->
  (forall x, x ∈ l -> P x -> f x = x) ->
  filter P (map f l) = filter P l.
Proof.
  induction l as [|a l IH]; intros Hiff Hid; [done|].
  cbn [map]. rewrite !filter_cons.
  assert (a ∈ a :: l) as Ha by (apply elem_of_cons; by left).
  rewrite IH.
  - destruct (decide (P (f a))) as [Hf|Hf], (decide (P a)) as [Hp|Hp].
    + by rewrite Hid.
    + exfalso. by apply Hp, Hiff.
    + exfalso. by apply Hf, Hiff.
    + done.
  - intros x Hx. apply Hiff, elem_of_cons. by right.
  - intros x Hx. apply Hid, elem_of_cons. by right.
Qed.

Lemma workspaceId_mark_row (a r : BaseRecord) (now : Z) :
  workspaceId (mark_row a now r) = workspaceId r.
Proof. unfold mark_row. by destruct (sql_and _ r). Qed.

(** C8: a row of another workspace is never returned by [get] or
    [getAll] of the workspace [w], and [update] and [delete] of [w]
    leave every row of the other workspaces as it was. *)
Theorem workspace_isolation (st : State) (modelName table : string)
    (rows : list BaseRecord) (w : Z) (r : BaseRecord) :
  registeredTables st !! modelName = Some table ->
  tables st !! table = Some rows ->
  rowId_unique rows ->
  r ∈ rows ->
  workspaceId r <> w ->
  (forall i, get st modelName w i <> Ok (Some r)) /\
  (forall result, getAll st modelName w = Ok result -> r ∉ result) /\
  (forall i upd now newRowId,
     exists rows',
       tables (update st modelName w i upd now newRowId).2 !! table
         = Some rows' /\
       other_workspaces w rows' = other_workspaces w rows /\ r ∈ rows') /\
  (forall i now,
     exists rows',
       tables (delete st modelName w i now).2 !! table = Some rows' /\
       other_workspaces w rows' = other_workspaces w rows /\ r ∈ rows').
Proof.
  intros Hreg Htab Hu Hr Hw.
  assert (forall rows', other_workspaces w rows' = other_workspaces w rows ->
                        r ∈ rows') as Hkeep.
  { intros rows' Heq.
    assert (r ∈ other_workspaces w rows') as Hin
      by (rewrite Heq; by apply list_elem_of_filter).
    by apply list_elem_of_filter in Hin as [_ ?]. }
  split; [|split; [|split]].
  - intros i. unfold get, resolve. rewrite Hreg, Htab.
    cbn [mbind Outcome_bind]. intros [= Hg].
    apply getLatestRecordById_Some in Hg as (_ & [Hw' _] & _). done.
  - intros result. unfold getAll, resolve. rewrite Hreg, Htab.
    cbn [mbind Outcome_bind]. intros [= <-] Hin.
    apply list_elem_of_In, in_map_iff in Hin as (e & <- & He).
    apply list_elem_of_In, getAll_fold_subset in He as [He|He];
      [by apply elem_of_nil in He|].
    apply elem_of_getLatestRecords in He as (_ & [Hw' _] & _). done.
  - intros i upd now newRowId. unfold update, resolve. rewrite Hreg, Htab.
    destruct (getLatestRecordById rows w i) as [prior|] eqn:Hp;
      [|exists rows; by repeat split].
    destruct (db_insert rows _) as [[rows' result]|e] eqn:Hi;
      [|exists rows; by repeat split].
    apply db_insert_Ok in Hi as (-> & _ & _).
    eexists. cbn [snd set_table tables].
    split; [apply lookup_insert_eq|].
    assert (other_workspaces w
              (rows ++ [newRecordData prior upd now newRowId])
            = other_workspaces w rows) as Heq; [|by auto].
    unfold other_workspaces. rewrite filter_app.
    apply getLatestRecordById_Some in Hp as (_ & [Hw' _] & _).
    rewrite filter_cons_False, filter_nil, app_nil_r; [done|].
    cbn [newRecordData workspaceId]. by intros ?.
  - intros i now.
    destruct (getLatestRecordById rows w i) as [a|] eqn:Ha.
    + rewrite (delete_active st modelName table rows w i now a) by done.
      eexists. cbn [snd set_table tables].
      split; [apply lookup_insert_eq|].
      assert (other_workspaces w (map (mark_row a now) rows)
              = other_workspaces w rows) as Heq; [|by auto].
      apply getLatestRecordById_Some in Ha as (Hain & [Hwa _] & _).
      apply filter_map_unchanged.
      * intros x _. by rewrite workspaceId_mark_row.
      * intros x Hx Hwx. apply (mark_row_other rows); try done.
        intros ->. done.
    + rewrite (delete_no_active st modelName table rows w i now) by done.
      exists rows. by repeat split.
Qed.

Lemma rowId_unique_created : rowId_unique [row_v1].
Proof. unfold rowId_unique. cbn [map]. apply NoDup_singleton. Qed.

Lemma workspace_isolation_witness :
  registeredTables st_created !! "User" = Some "user" /\
  tables st_created !! "user" = Some [row_v1] /\
  rowId_unique [row_v1] /\ row_v1 ∈ [row_v1] /\ workspaceId row_v1 <> 2 /\
  (forall i, get st_created "User" 2 i <> Ok (Some row_v1)) /\
  (forall result, getAll st_created "User" 2 = Ok result ->
                  row_v1 ∉ result) /\
  (forall i upd now newRowId,
     exists rows',
       tables (update st_created "User" 2 i upd now newRowId).2 !! "user"
         = Some rows' /\
       other_workspaces 2 rows' = other_workspaces 2 [row_v1] /\
       row_v1 ∈ rows') /\
  (forall i now,
     exists rows',
       tables (delete st_created "User" 2 i now).2 !! "user" = Some rows' /\
       other_workspaces 2 rows' = other_workspaces 2 [row_v1] /\
       row_v1 ∈ rows').
Proof.
  assert (row_v1 ∈ [row_v1]) as Hin by (apply list_elem_of_singleton; reflexivity).
  assert (workspaceId row_v1 <> 2) as Hw by (vm_compute; discriminate).
  split; [reflexivity|]. split; [reflexivity|].
  split; [exact rowId_unique_created|]. split; [exact Hin|].
  split; [exact Hw|].
  exact (workspace_isolation st_created "User" "user" [row_v1] 2 row_v1
           eq_refl eq_refl rowId_unique_created Hin Hw).
Defined.

(** A record created in workspace 1 is found there and not in
    workspace 2. *)
Example get_in_workspace :
  get st_created "User" 1 "entity-1" = Ok (Some row_v1) /\
  get st_created "User" 2 "entity-1" = Ok None.
Proof. split; vm_compute; reflexivity. Qed.

(** *** What the calls keep true of the tables *)

Lemma well_formed_empty : well_formed st_empty.
Proof.
  intros table rows H. unfold st_empty in H. cbn [tables] in H.
  apply lookup_singleton_Some in H as [_ <-]. split.
  - constructor.
  - by intros r1 r2 ?%elem_of_nil.
Qed.

Lemma well_formed_set_table (st : State) (table : string)
    (rows : list BaseRecord) :
  well_formed st -> rowId_unique rows -> createdAt_stable rows ->
  well_formed (set_table st table rows).
Proof.
  intros Hwf Hu Hs t rs. unfold set_table. cbn [tables].
  destruct (decide (table = t)) as [->|Hne].
  - rewrite lookup_insert_eq. by intros [= <-].
  - rewrite lookup_insert_ne by done. apply Hwf.
Qed.

Lemma rowId_unique_snoc (rows : list BaseRecord) (r : BaseRecord) :
  rowId_unique rows -> (forall x, x ∈ rows -> rowId x <> rowId r) ->
  rowId_unique (rows ++ [r]).
Proof.
  unfold rowId_unique. intros Hu Hfresh. rewrite map_app.
  apply NoDup_app. split; [done|]. split; [|apply NoDup_singleton].
  intros k Hk Hk'. apply list_elem_of_singleton in Hk' as ->.
  apply list_elem_of_In, in_map_iff in Hk as (x & Heq & Hx).
  by apply (Hfresh x); [apply list_elem_of_In|].
Qed.

Lemma createdAt_stable_snoc (rows : list BaseRecord) (r : BaseRecord) :
  createdAt_stable rows ->
  (forall x, x ∈ rows -> workspaceId x = workspaceId r -> id x = id r ->
             createdAt x = createdAt r) ->
  createdAt_stable (rows ++ [r]).
Proof.
  intros Hs Hr r1 r2 [H1|H1]%elem_of_app [H2|H2]%elem_of_app Hw Hi.
  - by apply Hs.
  - apply list_elem_of_singleton in H2 as ->. by apply Hr.
  - apply list_elem_of_singleton in H1 as ->. symmetry. by apply Hr.
  - apply list_elem_of_singleton in H1 as ->.
    by apply list_elem_of_singleton in H2 as ->.
Qed.

(** [create] keeps the tables well formed when the entity id it drew is
    new to the table. *)
Lemma create_well_formed (st : State) (modelName : string)
    (d : CreateRecordData) (now : Z) (entityId newRowId : string) :
  well_formed st ->
  (forall table rows x, tables st !! table = Some rows -> x ∈ rows ->
                        id x <> entityId) ->
  well_formed (create st modelName d now entityId newRowId).2.
Proof.
  intros Hwf Hfresh. unfold create, resolve.
  destruct (registeredTables st !! modelName) as [table|]; [|done].
  destruct (tables st !! table) as [rows|] eqn:Htab; [|done].
  destruct (db_insert rows _) as [[rows' result]|e] eqn:Hi; [|done].
  apply db_insert_Ok in Hi as (-> & _ & Hrow). cbn [snd].
  destruct (Hwf table rows Htab) as [Hu Hs].
  apply well_formed_set_table; [done| |].
  - by apply rowId_unique_snoc.
  - apply createdAt_stable_snoc; [done|].
    intros x Hx _ Hid. exfalso. by apply (Hfresh table rows x).
Qed.

(** [update] keeps the tables well formed. *)
Lemma update_well_formed (st : State) (modelName : string) (w : Z)
    (i : string) (upd : UpdateData) (now : Z) (newRowId : string) :
  well_formed st ->
  well_formed (update st modelName w i upd now newRowId).2.
Proof.
  intros Hwf. unfold update, resolve.
  destruct (registeredTables st !! modelName) as [table|]; [|done].
  destruct (tables st !! table) as [rows|] eqn:Htab; [|done].
  destruct (getLatestRecordById rows w i) as [prior|] eqn:Hp; [|done].
  destruct (db_insert rows _) as [[rows' result]|e] eqn:Hi; [|done].
  apply db_insert_Ok in Hi as (-> & _ & Hrow). cbn [snd].
  destruct (Hwf table rows Htab) as [Hu Hs].
  apply getLatestRecordById_Some in Hp as (Hin & _).
  apply well_formed_set_table; [done| |].
  - by apply rowId_unique_snoc.
  - apply createdAt_stable_snoc; [done|].
    cbn [newRecordData workspaceId id createdAt].
    intros x Hx Hwx Hix. by apply Hs.
Qed.

(** [delete] keeps the tables well formed. *)
Lemma delete_well_formed (st : State) (modelName : string) (w : Z)
    (i : string) (now : Z) :
  well_formed st -> well_formed (delete st modelName w i now).2.
Proof.
  intros Hwf. unfold delete, resolve.
  destruct (registeredTables st !! modelName) as [table|]; [|done].
  destruct (tables st !! table) as [rows|] eqn:Htab; [|done].
  destruct (getLatestRecordById rows w i) as [a|] eqn:Ha; [|done].
  unfold db_update. cbn [snd].
  change (map _ rows) with (map (mark_row a now) rows).
  destruct (Hwf table rows Htab) as [Hu Hs].
  assert (forall x, rowId (mark_row a now x) = rowId x /\
                    workspaceId (mark_row a now x) = workspaceId x /\
                    id (mark_row a now x) = id x /\
                    createdAt (mark_row a now x) = createdAt x) as Hm.
  { intros x. unfold mark_row. by destruct (sql_and _ x). }
  apply well_formed_set_table; [done| |].
  - unfold rowId_unique. rewrite map_map.
    erewrite map_ext; [exact Hu|]. intros x. cbn. apply Hm.
  - intros r1 r2 H1 H2.
    apply list_elem_of_In, in_map_iff in H1 as (x1 & <- & H1).
    apply list_elem_of_In, in_map_iff in H2 as (x2 & <- & H2).
    destruct (Hm x1) as (_ & -> & -> & ->).
    destruct (Hm x2) as (_ & -> & -> & ->).
    apply Hs; by apply list_elem_of_In.
Qed.

(** Every state the engine reaches is well formed: [row_id] is a key of
    its tables and their version chains keep their [createdAt]. *)
Lemma reachable_well_formed (st : State) : reachable st -> well_formed st.
Proof.
  induction 1 as [st Hempty| | |].
  - intros table rows Hrows. rewrite (Hempty table rows Hrows). split.
    + constructor.
    + by intros r1 r2 ?%elem_of_nil.
  - by apply create_well_formed.
  - by apply update_well_formed.
  - by apply delete_well_formed.
Qed.

Lemma reachable_updated : reachable st_updated.
Proof.
  assert (reachable st_empty) as H0.
  { apply reach_empty. intros table rows H. unfold st_empty in H.
    cbn [tables] in H. by apply lookup_singleton_Some in H as [_ <-]. }
  pose proof (reach_create st_empty "User"
                {| c_workspaceId := 1; c_name := "A";
                   c_data := Present {["x" := VNum 1]} |}
                100 "entity-1" "row-1" H0) as H1.
  rewrite create_sample in H1. cbn [snd] in H1.
  assert (reachable st_created) as Hc.
  { apply H1. intros table rows x H Hx. unfold st_empty in H.
    cbn [tables] in H. apply lookup_singleton_Some in H as [_ <-].
    by apply elem_of_nil in Hx. }
  pose proof (reach_update st_created "User" 1 "entity-1"
                {| u_name := Absent; u_data := Present {["y" := VNum 2]} |}
                200 "row-2" Hc) as H2.
  by rewrite update_sample in H2.
Qed.

End VersionedFacts.

(** ** The engines over a database adapter *)

(** *** The numbers of the pagination *)

(** An integer of at most 53 bits is a double. *)
Lemma to_double_exact (n : Z) : Z.abs n <= 2 ^ 53 -> to_double n = Num n.
Proof.
  intros Hn.
  assert (Z.abs n < 2 ^ 53 \/ n = 2 ^ 53 \/ n = - 2 ^ 53) as [H|[->| ->]]
    by lia; [|vm_compute; reflexivity|vm_compute; reflexivity].
  unfold to_double.
  destruct (Z.leb_spec (Z.log2 (Z.abs n)) 52) as [|Hlog]; [done|].
  exfalso. destruct (Z.eq_dec (Z.abs n) 0) as [E|E].
  - rewrite E in Hlog. cbn in Hlog. lia.
  - assert (Z.log2 (Z.abs n) < 53); [|lia].
    apply Z.log2_lt_pow2; lia.
Qed.

(** The double nearest to an integer above [2^53] is not below [2^53]. *)
Lemma to_double_large (n : Z) :
  2 ^ 53 < n ->
  to_double n = Infinity false \/
  exists m, to_double n = Num m /\ 2 ^ 53 <= m.
Proof.
  intros Hn. unfold to_double. rewrite (Z.abs_eq n) by lia.
  assert (53 <= Z.log2 n) as He.
  { destruct (Z_lt_le_dec (Z.log2 n) 53) as [Hlt|]; [|done].
    apply Z.log2_lt_pow2 in Hlt; lia. }
  destruct (Z.leb_spec (Z.log2 n) 52) as [|_]; [lia|].
  set (s := Z.log2 n - 52).
  assert (1 <= s) as Hs by (unfold s; lia).
  assert (2 ^ 52 * 2 ^ s <= n) as Hlow.
  { rewrite <- Z.pow_add_r by lia. replace (52 + s) with (Z.log2 n)
      by (unfold s; lia).
    apply Z.log2_spec. lia. }
  assert (2 <= 2 ^ s) as Hp.
  { change 2 with (2 ^ 1) at 1. apply Z.pow_le_mono_r; lia. }
  assert (2 ^ 52 <= n / 2 ^ s) as Hq.
  { apply Z.div_le_lower_bound; lia. }
  assert (n / 2 ^ s <= round_half_even n s) as Hr.
  { unfold round_half_even. destruct (_ || _); lia. }
  assert (2 ^ 53 <= round_half_even n s * 2 ^ s) as Hm.
  { change (2 ^ 53) with (2 ^ 52 * 2). nia. }
  destruct (2 ^ 1024 <=? _).
  - left. by destruct (Z.ltb_spec n 0); [lia|].
  - right. by eexists.
Qed.

(** The double nearest to a negative integer is not positive. *)
Lemma to_double_negative (n : Z) :
  n < 0 ->
  to_double n = Infinity true \/ exists m, to_double n = Num m /\ m <= 0.
Proof.
  intros Hn. unfold to_double.
  destruct (Z.leb_spec (Z.log2 (Z.abs n)) 52) as [|Hlog];
    [right; exists n; split; [done|lia]|].
  set (s := Z.log2 (Z.abs n) - 52).
  assert (0 < 2 ^ s) as Hp by (apply Z.pow_pos_nonneg; unfold s; lia).
  assert (n / 2 ^ s < 0) as Hq.
  { apply Z.div_lt_upper_bound; lia. }
  assert (round_half_even n s <= 0) as Hr.
  { unfold round_half_even. destruct (_ || _); lia. }
  destruct (2 ^ 1024 <=? _).
  - left. by destruct (Z.ltb_spec n 0); [|lia].
  - right. eexists. split; [done|nia].
Qed.

(** The limit of the query, for every limit given that is not [0]. *)
Lemma limit_of_number (L : Z) :
  L <> 0 ->
  Math_min (Num 100) (Math_max (Num 1) (to_double L))
    = Num (clamp L 1 100).
Proof.
  intros HL. unfold clamp.
  assert (Z.abs L <= 2 ^ 53 \/ 2 ^ 53 < L \/ L < - 2 ^ 53) as [H|[H|H]]
    by lia.
  - rewrite to_double_exact by done. cbn [Math_max Math_min].
    f_equal. lia.
  - destruct (to_double_large L H) as [->|(m & -> & Hm)];
      cbn [Math_max Math_min]; f_equal; lia.
  - destruct (to_double_negative L) as [->|(m & -> & Hm)]; [lia| |];
      cbn [Math_max Math_min]; f_equal; lia.
Qed.

(** The page of the query, for every page given up to [2^53]. *)
Lemma page_of_number (Pg : Z) :
  Pg <= 2 ^ 53 ->
  Math_max (Num 1) (number_or (Some Pg) (Num 1)) = Num (Z.max 1 Pg).
Proof.
  intros HP. cbn [number_or]. destruct (Z.eqb_spec Pg 0) as [->|Hne];
    [reflexivity|].
  assert (Z.abs Pg <= 2 ^ 53 \/ Pg < - 2 ^ 53) as [H|H] by lia.
  - by rewrite to_double_exact.
  - destruct (to_double_negative Pg) as [->|(m & -> & Hm)]; [lia| |];
      cbn [Math_max]; f_equal; lia.
Qed.

(** The page of the query is a number from [1] on, or an infinity. *)
Lemma page_at_least_one (v : option Z) (P : Z) :
  Math_max (Num 1) (number_or v (Num 1)) = Num P -> 1 <= P.
Proof.
  destruct (number_or v (Num 1)) as [x| |[|]]; cbn [Math_max];
    intros [= <-]; lia.
Qed.

(** C5 (amended): for a limit and a page that are numbers, in
    [findMany] of both engines the limit of the query is [clamp(L, 1,
    100)] for every limit [L] other than [0] and the default [10] when
    the limit is [0] or absent, so that it always lies in [1, 100]; the
    page is [max(1, Pg)] for every page [Pg] up to [2^53] and [1] when
    the page is absent; the offset is (page - 1) * limit in the
    arithmetic of doubles, which is that product whenever the product is
    at most [2^53]; the query is the one the database is asked. *)
Theorem findMany_pagination {S : Type} (database : DatabaseAdapter S)
    (table : TableAdapter) (db : S) (params : QueryParams) :
  let effective_limit :=
    match limit params with
    | Some L => if L =? 0 then 10 else clamp L 1 100
    | None => 10
    end in
  let effective_page :=
    Math_max (Num 1) (number_or (page params) (Num 1)) in
  let generic := GenericCrudEngine.findMany_query table params in
  let handler := CrudHandler.findMany_query table params in
  q_limit generic.1 = Some (Num effective_limit) /\
  q_limit handler.1 = Some (Num effective_limit) /\
  1 <= effective_limit <= 100 /\
  (forall Pg, page params = Some Pg -> Pg <= 2 ^ 53 ->
     effective_page = Num (Z.max 1 Pg)) /\
  (page params = None -> effective_page = Num 1) /\
  q_offset generic.1
    = Some (number_mul (number_sub effective_page (Num 1))
              (Num effective_limit)) /\
  q_offset handler.1
    = Some (number_mul (number_sub effective_page (Num 1))
              (Num effective_limit)) /\
  (forall P, effective_page = Num P ->
     (P - 1) * effective_limit <= 2 ^ 53 ->
     q_offset generic.1 = Some (Num ((P - 1) * effective_limit)) /\
     q_offset handler.1 = Some (Num ((P - 1) * effective_limit))) /\
  GenericCrudEngine.findMany table db params =
    try_catch
      (data ← run_select db table generic.1;
       total ← run_count db table generic.2;
       Ok {| records := data; record_count := total |})
      (fun _ => Ok empty_result) /\
  CrudHandler.findMany table db params =
    try_catch
      (data ← run_select db table handler.1;
       total ← run_count db table handler.2;
       Ok {| records := data; record_count := total |})
      (fun _ => Ok empty_result).
Proof.
  intros effective_limit effective_page generic handler.
  assert (1 <= effective_limit <= 100) as Hrange.
  { unfold effective_limit, clamp. destruct (limit params) as [L|]; [|lia].
    destruct (L =? 0); lia. }
  assert (Math_min (Num 100)
            (Math_max (Num 1) (number_or (limit params) (Num 10)))
          = Num effective_limit) as Hl.
  { unfold effective_limit, number_or.
    destruct (limit params) as [L|]; [|reflexivity].
    destruct (Z.eqb_spec L 0); [reflexivity|by apply limit_of_number]. }
  assert (forall P, effective_page = Num P ->
            (P - 1) * effective_limit <= 2 ^ 53 ->
            number_mul (number_sub effective_page (Num 1))
              (Num effective_limit)
            = Num ((P - 1) * effective_limit)) as Hexact.
  { intros P HP Hle. pose proof (page_at_least_one _ _ HP) as H1.
    rewrite HP. cbn [number_sub].
    rewrite (to_double_exact (P - 1)) by nia.
    cbn [number_mul]. apply to_double_exact. nia. }
  subst generic handler.
  unfold GenericCrudEngine.findMany_query, CrudHandler.findMany_query,
    GenericCrudEngine.findMany, CrudHandler.findMany.
  unfold GenericCrudEngine.findMany_query, CrudHandler.findMany_query.
  cbn [fst snd q_limit q_offset]. rewrite Hl. fold effective_page.
  repeat split; try done; try lia.
  - intros Pg HPg Hle. unfold effective_page. rewrite HPg.
    by apply page_of_number.
  - intros HPg. unfold effective_page. by rewrite HPg.
  - f_equal. by apply Hexact.
  - f_equal. by apply Hexact.
Qed.

(** C5 (as stated) fails: with the limit [0] the query has the limit
    [10], and [clamp(0, 1, 100)] is [1]. *)
Lemma findMany_limit_counterexample :
  q_limit (GenericCrudEngine.findMany_query standard_table
             {| page := None; limit := Some 0; sort := None; select := None;
                deleted := None; rest := ∅ |}).1
    <> Some (Num (clamp 0 1 100)).
Proof. discriminate. Qed.

Example findMany_limit_zero :
  q_limit (GenericCrudEngine.findMany_query standard_table
             {| page := None; limit := Some 0; sort := None; select := None;
                deleted := None; rest := ∅ |}).1
    = Some (Num 10).
Proof. reflexivity. Qed.

(** Beyond [2^53] the offset is the double nearest to the product: with
    the page [2^53] and the limit [100] the product is
    900719925474099100. *)
Example findMany_offset_rounded :
  q_offset (GenericCrudEngine.findMany_query standard_table
              {| page := Some 9007199254740992; limit := Some 100;
                 sort := None; select := None; deleted := None;
                 rest := ∅ |}).1
    = Some (Num 900719925474099072).
Proof. vm_compute. reflexivity. Qed.

(** [findMany] never throws. *)
Lemma findMany_total {S : Type} (database : DatabaseAdapter S)
    (table : TableAdapter) (db : S) (params : QueryParams) :
  (exists r, GenericCrudEngine.findMany table db params = Ok r) /\
  (exists r, CrudHandler.findMany table db params = Ok r).
Proof.
  unfold GenericCrudEngine.findMany, CrudHandler.findMany.
  split.
  - destruct (GenericCrudEngine.findMany_query table params) as [q c].
    destruct (run_select db table q) as [data|e]; cbn; [|by eexists].
    destruct (run_count db table c) as [total|e]; cbn; by eexists.
  - destruct (CrudHandler.findMany_query table params) as [q c].
    destruct (run_select db table q) as [data|e]; cbn; [|by eexists].
    destruct (run_count db table c) as [total|e]; cbn; by eexists.
Qed.

(** C4 (amended): when a statement of [findMany] throws, [findMany] of
    both engines returns the empty result [{records: [], record_count:
    0}]; when the statement of [count] throws, [count] of both engines
    throws the same error. *)
Theorem read_paths_on_failure {S : Type} (database : DatabaseAdapter S)
    (table : TableAdapter) (db : S) (params : QueryParams) (e : Error) :
  let generic := GenericCrudEngine.findMany_query table params in
  let handler := CrudHandler.findMany_query table params in
  (run_select db table generic.1 = Throw e \/
   run_count db table generic.2 = Throw e ->
   GenericCrudEngine.findMany table db params = Ok empty_result) /\
  (run_select db table handler.1 = Throw e \/
   run_count db table handler.2 = Throw e ->
   CrudHandler.findMany table db params = Ok empty_result) /\
  (run_count db table generic.2 = Throw e ->
   GenericCrudEngine.count table db params = Throw e) /\
  (run_select db table
     {| q_fields := select_count; q_where := handler.2; q_orderBy := [];
        q_limit := None; q_offset := None |} = Throw e ->
   CrudHandler.count table db params = Throw e).
Proof.
  intros generic handler.
  unfold GenericCrudEngine.findMany, CrudHandler.findMany,
    GenericCrudEngine.count, CrudHandler.count.
  fold generic. fold handler.
  split; [|split; [|split]].
  - destruct generic as [q c]. cbn [fst snd]. intros [H|H].
    + by rewrite H.
    + rewrite H. by destruct (run_select db table q).
  - destruct handler as [q c]. cbn [fst snd]. intros [H|H].
    + by rewrite H.
    + rewrite H. by destruct (run_select db table q).
  - unfold generic, GenericCrudEngine.findMany_query. cbn [snd].
    intros H. by rewrite H.
  - unfold handler, CrudHandler.findMany_query. cbn [snd].
    intros H. by rewrite H.
Qed.

Lemma read_paths_on_failure_witness :
  @GenericCrudEngine.findMany unit down_adapter standard_table tt no_params
    = Ok empty_result /\
  @CrudHandler.findMany unit down_adapter standard_table tt no_params
    = Ok empty_result /\
  @GenericCrudEngine.count unit down_adapter standard_table tt no_params
    = Throw connection_refused /\
  @CrudHandler.count unit down_adapter standard_table tt no_params
    = Throw connection_refused.
Proof.
  destruct (read_paths_on_failure down_adapter standard_table tt no_params
              connection_refused) as (H1 & H2 & H3 & H4).
  split; [apply H1; left; reflexivity|].
  split; [apply H2; left; reflexivity|].
  split; [apply H3; reflexivity|].
  apply H4; reflexivity.
Defined.

(** C4 (as stated) fails: on a database that cannot be reached [count]
    does not return [0]. *)
Lemma count_counterexample :
  @GenericCrudEngine.count unit down_adapter standard_table tt no_params
    <> Ok 0 /\
  @CrudHandler.count unit down_adapter standard_table tt no_params
    <> Ok (VNum 0).
Proof. split; discriminate. Qed.

(** C9: in both engines [delete] returns [false] when the statement
    throws, as it does when the statement matched no row, while [create],
    [update] and [bulkCreate] throw the error of the statement that
    threw. *)
Theorem delete_swallows_errors {S : Type} (database : DatabaseAdapter S)
    (table : TableAdapter) (db : S) (id : string) (now : Z) (e : Error) :
  (* delete *)
  (run_update db table {["deleted_at" := VDate now]}
     (GenericCrudEngine.active_with_id table id) = Throw e ->
   GenericCrudEngine.delete table db id now = Ok (false, db)) /\
  (forall db',
     run_update db table {["deleted_at" := VDate now]}
       (GenericCrudEngine.active_with_id table id) = Ok ([], db') ->
     GenericCrudEngine.delete table db id now = Ok (false, db')) /\
  (run_update db table {["deleted_at" := VDate now]}
     (CrudHandler.active_with_id table id) = Throw e ->
   CrudHandler.delete table db id now = Ok (false, db)) /\
  (forall db',
     run_update db table {["deleted_at" := VDate now]}
       (CrudHandler.active_with_id table id) = Ok ([], db') ->
     CrudHandler.delete table db id now = Ok (false, db')) /\
  (* create *)
  (forall data newId,
     run_insert db table
       [<["created_at" := VDate now]> (<["id" := VStr newId]> data)]
       = Throw e ->
     GenericCrudEngine.create table db data now newId = Throw e) /\
  (forall data newId,
     run_insert db table [<["id" := VStr newId]> data] = Throw e ->
     CrudHandler.create table db data newId = Throw e) /\
  (* update *)
  (forall data newId,
     run_select db table
       {| q_fields := select_all;
          q_where := Some (GenericCrudEngine.active_with_id table id);
          q_orderBy := []; q_limit := Some (Num 1); q_offset := None |} = Throw e ->
     GenericCrudEngine.update table db id data now newId = Throw e) /\
  (forall data newId parent others,
     run_select db table
       {| q_fields := select_all;
          q_where := Some (GenericCrudEngine.active_with_id table id);
          q_orderBy := []; q_limit := Some (Num 1); q_offset := None |}
       = Ok (parent :: others) ->
     run_insert db table
       [<["updated_at" := VDate now]>
          (<["created_at" := js_get parent "created_at"]>
             (<["id" := VStr newId]> data))] = Throw e ->
     GenericCrudEngine.update table db id data now newId = Throw e) /\
  (forall data,
     run_select db table
       {| q_fields := select_all;
          q_where := Some (CrudHandler.active_with_id table id);
          q_orderBy := []; q_limit := Some (Num 1); q_offset := None |} = Throw e ->
     CrudHandler.update table db id data now = Throw e) /\
  (forall data parent others,
     run_select db table
       {| q_fields := select_all;
          q_where := Some (CrudHandler.active_with_id table id);
          q_orderBy := []; q_limit := Some (Num 1); q_offset := None |}
       = Ok (parent :: others) ->
     run_insert db table
       [<["updated_at" := VDate now]>
          (<["created_at" := js_get parent "created_at"]> data)] = Throw e ->
     CrudHandler.update table db id data now = Throw e) /\
  (* bulkCreate *)
  (forall items (nows : nat -> Z) (newId : nat -> string),
     run_insert db table
       (imap (fun i item =>
                <["created_at" := VDate (nows i)]>
                  (<["id" := VStr (newId i)]> item)) items) = Throw e ->
     GenericCrudEngine.bulkCreate table db items nows newId = Throw e) /\
  (forall items (newId : nat -> string),
     run_insert db table
       (imap (fun i item => <["id" := VStr (newId i)]> item) items)
       = Throw e ->
     CrudHandler.bulkCreate table db items newId = Throw e).
Proof.
  unfold GenericCrudEngine.delete, CrudHandler.delete,
    GenericCrudEngine.create, CrudHandler.create,
    GenericCrudEngine.update, CrudHandler.update,
    GenericCrudEngine.bulkCreate, CrudHandler.bulkCreate.
  repeat split; intros;
    repeat (match goal with
            | H : _ = Throw _ |- _ => rewrite H; clear H
            | H : _ = Ok _ |- _ => rewrite H; clear H
            end; cbn [mbind Outcome_bind]);
    reflexivity.
Qed.

Lemma delete_swallows_errors_witness :
  @GenericCrudEngine.delete unit down_adapter standard_table tt "u1" 5
    = Ok (false, tt) /\
  @GenericCrudEngine.delete unit empty_adapter standard_table tt "u1" 5
    = Ok (false, tt) /\
  @CrudHandler.delete unit down_adapter standard_table tt "u1" 5
    = Ok (false, tt) /\
  @CrudHandler.delete unit empty_adapter standard_table tt "u1" 5
    = Ok (false, tt) /\
  @GenericCrudEngine.create unit down_adapter standard_table tt
    {["name" := VStr "Ann"]} 5 "u2" = Throw connection_refused /\
  @GenericCrudEngine.update unit down_adapter standard_table tt "u1"
    {["name" := VStr "Ann"]} 5 "u2" = Throw connection_refused /\
  @GenericCrudEngine.bulkCreate unit down_adapter standard_table tt
    [{["name" := VStr "Ann"]}] (fun _ => 5) (fun _ => "u2")
    = Throw connection_refused.
Proof.
  destruct (delete_swallows_errors down_adapter standard_table tt "u1" 5
              connection_refused)
    as (D1 & _ & D3 & _ & C1 & _ & U1 & _ & _ & _ & B1 & _).
  destruct (delete_swallows_errors empty_adapter standard_table tt "u1" 5
              connection_refused)
    as (_ & D2 & _ & D4 & _).
  split; [apply D1; reflexivity|].
  split; [apply (D2 tt); reflexivity|].
  split; [apply D3; reflexivity|].
  split; [apply (D4 tt); reflexivity|].
  split; [apply C1; reflexivity|].
  split; [apply U1; reflexivity|].
  apply B1; reflexivity.
Defined.

(** ** [update] of an entity that is not there *)

(** C6 (amended): [update] of a logical id without an active row writes
    no row and leaves the state as it was; the append-only engine throws
    [No active record found], [GenericCrudEngine] and [CrudHandler]
    return [null]. *)
Theorem update_not_found {S : Type} (database : DatabaseAdapter S)
    (st : Versioned.State) (modelName tableName : string)
    (rows : list Versioned.BaseRecord) (w : Z) (i : string)
    (upd : Versioned.UpdateData) (now : Z) (newId : string)
    (table : TableAdapter) (db : S) (data : Row) :
  (Versioned.registeredTables st !! modelName = Some tableName ->
   Versioned.tables st !! tableName = Some rows ->
   (forall r, r ∈ rows -> Versioned.active_in w r -> Versioned.id r <> i) ->
   Versioned.update st modelName w i upd now newId
     = (Throw (NoActiveRecord modelName i w), st)) /\
  (run_select db table
     {| q_fields := select_all;
        q_where := Some (GenericCrudEngine.active_with_id table i);
        q_orderBy := []; q_limit := Some (Num 1); q_offset := None |} = Ok [] ->
   GenericCrudEngine.update table db i data now newId = Ok (None, db)) /\
  (run_select db table
     {| q_fields := select_all;
        q_where := Some (CrudHandler.active_with_id table i);
        q_orderBy := []; q_limit := Some (Num 1); q_offset := None |} = Ok [] ->
   CrudHandler.update table db i data now = Ok (None, db)).
Proof.
  split; [|split].
  - intros Hreg Htab Hnone.
    apply (VersionedFacts.update_no_active st modelName tableName rows);
      [done|done|].
    by apply VersionedFacts.getLatestRecordById_None.
  - intros H. unfold GenericCrudEngine.update. by rewrite H.
  - intros H. unfold CrudHandler.update. by rewrite H.
Qed.

Lemma update_not_found_witness :
  Versioned.update Versioned.st_empty "User" 1 "entity-1"
    {| Versioned.u_name := Present "B"; Versioned.u_data := Absent |}
    200 "row-2"
    = (Throw (NoActiveRecord "User" "entity-1" 1), Versioned.st_empty) /\
  @GenericCrudEngine.update unit empty_adapter standard_table tt "u1"
    {["name" := VStr "B"]} 200 "u2" = Ok (None, tt) /\
  @CrudHandler.update unit empty_adapter standard_table tt "u1"
    {["name" := VStr "B"]} 200 = Ok (None, tt).
Proof.
  destruct (update_not_found empty_adapter Versioned.st_empty "User" "user"
              [] 1 "entity-1"
              {| Versioned.u_name := Present "B";
                 Versioned.u_data := Absent |}
              200 "row-2" standard_table tt {["name" := VStr "B"]})
    as (H1 & _).
  destruct (update_not_found empty_adapter Versioned.st_empty "User" "user"
              [] 1 "u1"
              {| Versioned.u_name := Present "B";
                 Versioned.u_data := Absent |}
              200 "u2" standard_table tt {["name" := VStr "B"]})
    as (_ & H2 & H3).
  split.
  - apply H1; [reflexivity|reflexivity|].
    intros r Hr. by apply elem_of_nil in Hr.
  - split; [apply H2; reflexivity|apply H3; reflexivity].
Defined.

(** C6 (as stated) fails: the append-only engine does not return [null]
    for an entity that is not there. *)
Lemma update_not_found_counterexample :
  ~ (exists st',
       Versioned.update Versioned.st_empty "User" 1 "entity-1"
         {| Versioned.u_name := Present "B"; Versioned.u_data := Absent |}
         200 "row-2" = (Ok None, st')).
Proof. intros [st' H]. vm_compute in H. discriminate H. Qed.

(** ** Further properties of the append-only engine *)

Module AppendOnlyFacts.
Import Versioned VersionedFacts.

Lemma tables_set_table (st : State) (table : string)
    (rows : list BaseRecord) :
  tables (set_table st table rows) !! table = Some rows.
Proof. unfold set_table. cbn [tables]. apply lookup_insert_eq. Qed.

Lemma registered_set_table (st : State) (table : string)
    (rows : list BaseRecord) :
  registeredTables (set_table st table rows) = registeredTables st.
Proof. reflexivity. Qed.

(** An entity with one active row resolves to it. *)
Lemma getLatestRecordById_only (rows : list BaseRecord) (w : Z)
    (i : string) (x : BaseRecord) :
  x ∈ rows -> active_in w x -> id x = i ->
  (forall r, r ∈ rows -> active_in w r -> id r = i -> r = x) ->
  getLatestRecordById rows w i = Some x.
Proof.
  intros Hx Ha Hi Honly.
  destruct (getLatestRecordById rows w i) as [h|] eqn:E.
  - apply getLatestRecordById_Some in E as (Hh & Hah & Hih & _).
    f_equal. by apply Honly.
  - exfalso. by apply (proj1 (getLatestRecordById_None rows w i) E x).
Qed.

(** X1: when [create] on a registered model returns a record, the
    record is the last row of the table, after the rows the table had,
    none of which has its row id; it carries the row id and the entity
    id drawn for it, the caller's workspace and name,
    [createdAt = updatedAt = now], no [deletedAt], and the empty object
    as data when the caller gave none. When no row had the entity id,
    [get] of it then returns that record in the workspace of the record
    and nothing in any other workspace. *)
Theorem create_then_get (st : State) (modelName table : string)
    (rows : list BaseRecord) (d : CreateRecordData) (now : Z)
    (entityId newRowId : string) (new : BaseRecord) (st' : State) :
  registeredTables st !! modelName = Some table ->
  tables st !! table = Some rows ->
  (forall x, x ∈ rows -> id x <> entityId) ->
  create st modelName d now entityId newRowId = (Ok (Some new), st') ->
  tables st' !! table = Some (rows ++ [new]) /\
  (forall x, x ∈ rows -> rowId x <> rowId new) /\
  rowId new = newRowId /\ id new = entityId /\
  workspaceId new = c_workspaceId d /\ name new = c_name d /\
  createdAt new = now /\ updatedAt new = now /\ deletedAt new = None /\
  (c_data d = Absent \/ c_data d = IsNull -> data new = ∅) /\
  get st' modelName (c_workspaceId d) entityId = Ok (Some new) /\
  (forall w, w <> c_workspaceId d ->
             get st' modelName w entityId = Ok None).
Proof.
  intros Hreg Htab Hid. unfold create, resolve. rewrite Hreg, Htab.
  destruct (db_insert rows _) as [[rows' result]|e] eqn:E; [|done].
  apply db_insert_Ok in E as (-> & -> & Hfresh). cbn [head].
  intros [= <- <-].
  split; [apply tables_set_table|]. split; [exact Hfresh|].
  repeat (split; [reflexivity|]).
  split; [by intros [->| ->]|].
  match goal with
  | |- context [rows ++ [?r]] => set (new := r)
  end.
  assert (forall w, get (set_table st table (rows ++ [new])) modelName w
                      entityId
                    = Ok (getLatestRecordById (rows ++ [new]) w entityId))
    as Hget.
  { intros w. unfold get, resolve.
    by rewrite registered_set_table, Hreg, tables_set_table. }
  split.
  - rewrite Hget. f_equal. apply getLatestRecordById_only.
    + apply elem_of_app. right. by apply list_elem_of_singleton.
    + by split.
    + done.
    + intros r [Hr|Hr]%elem_of_app _ Hri.
      * exfalso. by apply (Hid r).
      * by apply list_elem_of_singleton in Hr.
  - intros w Hw. rewrite Hget. f_equal.
    apply getLatestRecordById_None.
    intros r [Hr|Hr]%elem_of_app [Hwr _] Hri.
    + by apply (Hid r).
    + apply list_elem_of_singleton in Hr as ->. by apply Hw.
Qed.

Lemma create_then_get_witness :
  data row_v1 = {["x" := VNum 1]} /\
  get st_created "User" 1 "entity-1" = Ok (Some row_v1) /\
  get st_created "User" 2 "entity-1" = Ok None.
Proof.
  destruct (create_then_get st_empty "User" "user" []
              {| c_workspaceId := 1; c_name := "A";
                 c_data := Present {["x" := VNum 1]} |}
              100 "entity-1" "row-1" row_v1 st_created eq_refl eq_refl)
    as (_ & _ & _ & _ & _ & _ & _ & _ & _ & _ & Hg & Hn).
  - intros x Hx. by apply elem_of_nil in Hx.
  - exact create_sample.
  - split; [reflexivity|]. split; [exact Hg|]. apply Hn. discriminate.
Defined.

(** X2: when [update] returns a record and [now] is later than the
    [updatedAt] of the version that was current, the record is the last
    row of the table and [get] then returns it, and not the version that
    was current. *)
Theorem update_then_get (st : State) (modelName table : string)
    (rows : list BaseRecord) (w : Z) (i : string) (upd : UpdateData)
    (now : Z) (newRowId : string) (prior new : BaseRecord) (st' : State) :
  registeredTables st !! modelName = Some table ->
  tables st !! table = Some rows ->
  getLatestRecordById rows w i = Some prior ->
  update st modelName w i upd now newRowId = (Ok (Some new), st') ->
  updatedAt prior < now ->
  tables st' !! table = Some (rows ++ [new]) /\
  get st' modelName w i = Ok (Some new) /\
  get st' modelName w i <> Ok (Some prior).
Proof.
  intros Hreg Htab Hprior Hupd Hlt.
  destruct (update_outcome st modelName table rows w i upd now newRowId
              prior Hreg Htab Hprior) as [[H _]|[e H]];
    rewrite H in Hupd; [|discriminate Hupd].
  injection Hupd as <- <-.
  set (new := newRecordData prior upd now newRowId).
  split; [apply tables_set_table|].
  apply getLatestRecordById_Some in Hprior as (Hpin & [Hpw Hpd] & Hpi & Hmax).
  assert (get (set_table st table (rows ++ [new])) modelName w i
          = Ok (Some new)) as Hget.
  { unfold get, resolve.
    rewrite registered_set_table, Hreg, tables_set_table.
    cbn [mbind Outcome_bind]. f_equal.
    assert (new ∈ rows ++ [new]) as Hnin
      by (apply elem_of_app; right; by apply list_elem_of_singleton).
    assert (active_in w new) as Hna by (by split).
    destruct (getLatestRecordById (rows ++ [new]) w i) as [h|] eqn:E.
    - apply getLatestRecordById_Some in E as (Hh & Hah & Hih & Hhmax).
      apply elem_of_app in Hh as [Hh|Hh].
      + exfalso. specialize (Hmax h Hh Hah Hih).
        specialize (Hhmax new Hnin Hna Hpi).
        cbn [new newRecordData updatedAt] in Hhmax. lia.
      + by apply list_elem_of_singleton in Hh as ->.
    - exfalso.
      by apply (proj1 (getLatestRecordById_None _ w i) E new). }
  split; [exact Hget|]. rewrite Hget. intros [= Heq].
  assert (updatedAt new = updatedAt prior) as Hu by (by rewrite Heq).
  cbn [new newRecordData updatedAt] in Hu. lia.
Qed.

Lemma update_then_get_witness :
  tables st_updated !! "user" = Some ([row_v1] ++ [row_v2]) /\
  get st_updated "User" 1 "entity-1" = Ok (Some row_v2) /\
  get st_updated "User" 1 "entity-1" <> Ok (Some row_v1).
Proof.
  apply (update_then_get st_created "User" "user" [row_v1] 1 "entity-1"
           {| u_name := Absent; u_data := Present {["y" := VNum 2]} |}
           200 "row-2" row_v1 row_v2 st_updated).
  - reflexivity.
  - reflexivity.
  - vm_compute. reflexivity.
  - exact update_sample.
  - vm_compute. reflexivity.
Defined.

Lemma no_active_after_mark (rows : list BaseRecord) (w : Z) (i : string)
    (a : BaseRecord) (now : Z) :
  deletedAt a = None ->
  (forall r, r ∈ rows -> active_in w r -> id r = i -> r = a) ->
  forall r', r' ∈ map (mark_row a now) rows -> active_in w r' -> id r' <> i.
Proof.
  intros Hda Honly r' Hr' [Hw Hd] Hi.
  apply list_elem_of_In, in_map_iff in Hr' as (r & <- & Hr).
  apply list_elem_of_In in Hr. unfold mark_row in *.
  destruct (sql_and _ r) eqn:E; [discriminate Hd|].
  assert (r = a) as -> by (by apply Honly).
  rewrite (proj2 (sql_and_rowId a a) (conj eq_refl Hda)) in E.
  discriminate E.
Qed.

(** X3: for an entity whose current version is its only active row,
    [delete] returns [true]; after it [get] finds nothing, [getAll]
    returns no record of the entity, and a second [delete] returns
    [false] and leaves the state as it is. *)
Theorem delete_single_version (st : State) (modelName table : string)
    (rows : list BaseRecord) (w : Z) (i : string) (now now' : Z)
    (a : BaseRecord) :
  registeredTables st !! modelName = Some table ->
  tables st !! table = Some rows ->
  getLatestRecordById rows w i = Some a ->
  (forall r, r ∈ rows -> active_in w r -> id r = i -> r = a) ->
  exists st',
    delete st modelName w i now = (Ok true, st') /\
    get st' modelName w i = Ok None /\
    (forall result, getAll st' modelName w = Ok result ->
       forall r, r ∈ result -> id r <> i) /\
    delete st' modelName w i now' = (Ok false, st').
Proof.
  intros Hreg Htab Ha Honly.
  rewrite (delete_active st modelName table rows w i now a) by done.
  eexists. split; [reflexivity|].
  apply getLatestRecordById_Some in Ha as (_ & [_ Hda] & _).
  pose proof (no_active_after_mark rows w i a now Hda Honly) as Hnone.
  assert (getLatestRecordById (map (mark_row a now) rows) w i = None)
    as Hres by (by apply getLatestRecordById_None).
  split; [|split].
  - unfold get, resolve.
    rewrite registered_set_table, Hreg, tables_set_table.
    cbn [mbind Outcome_bind]. by rewrite Hres.
  - intros result. unfold getAll, resolve.
    rewrite registered_set_table, Hreg, tables_set_table.
    cbn [mbind Outcome_bind]. intros [= <-] r Hr.
    apply list_elem_of_In, in_map_iff in Hr as (e & <- & He).
    apply list_elem_of_In, getAll_fold_subset in He as [He|He];
      [by apply elem_of_nil in He|].
    apply elem_of_getLatestRecords in He as (Hin & Hact & _).
    by apply Hnone.
  - apply (delete_no_active _ modelName table (map (mark_row a now) rows));
      [by rewrite registered_set_table|apply tables_set_table|done].
Qed.

Lemma delete_single_version_witness :
  exists st',
    delete st_created "User" 1 "entity-1" 300 = (Ok true, st') /\
    get st' "User" 1 "entity-1" = Ok None /\
    (forall result, getAll st' "User" 1 = Ok result ->
       forall r, r ∈ result -> id r <> "entity-1") /\
    delete st' "User" 1 "entity-1" 400 = (Ok false, st').
Proof.
  apply (delete_single_version st_created "User" "user" [row_v1] 1
           "entity-1" 300 400 row_v1).
  - reflexivity.
  - reflexivity.
  - vm_compute. reflexivity.
  - intros r Hr _ _. by apply list_elem_of_singleton in Hr.
Defined.

(** *** The history *)

Lemma history_kept_refl (st : State) : history_kept st st.
Proof.
  split; [done|]. intros table rows H. exists rows.
  split; [done|]. split; [done|lia].
Qed.

Lemma history_kept_set_table (st : State) (table : string)
    (rows0 rows1 : list BaseRecord) :
  tables st !! table = Some rows0 ->
  (written_part <$> rows0) `prefix_of` (written_part <$> rows1) ->
  (length rows0 <= length rows1 <= length rows0 + 1)%nat ->
  history_kept st (set_table st table rows1).
Proof.
  intros Htab Hpre Hlen. split; [done|]. intros t rows Ht.
  unfold set_table. cbn [tables].
  destruct (decide (table = t)) as [->|Hne].
  - rewrite lookup_insert_eq. exists rows1.
    assert (rows = rows0) as -> by congruence. done.
  - rewrite lookup_insert_ne by done. exists rows.
    split; [done|]. split; [done|lia].
Qed.

Lemma written_part_mark_row (a r : BaseRecord) (now : Z) :
  written_part (mark_row a now r) = written_part r.
Proof. unfold mark_row. by destruct (sql_and _ r). Qed.

(** X4: no call of [create], [update] or [delete] removes, reorders or
    rewrites a row: after the call every table starts with the rows it
    had, with their row id, workspace, entity id, name, data and
    [createdAt], and is at most one row longer; the registered models are
    unchanged. *)
Theorem history_preserved (st : State) (modelName : string) (w : Z)
    (i : string) (d : CreateRecordData) (upd : UpdateData) (now : Z)
    (entityId newRowId : string) :
  history_kept st (create st modelName d now entityId newRowId).2 /\
  history_kept st (update st modelName w i upd now newRowId).2 /\
  history_kept st (delete st modelName w i now).2.
Proof.
  assert (forall rows (r : BaseRecord),
             (written_part <$> rows) `prefix_of`
               (written_part <$> (rows ++ [r]))) as Hsnoc.
  { intros rows r. rewrite fmap_app. by apply prefix_app_r. }
  split; [|split].
  - unfold create, resolve.
    destruct (registeredTables st !! modelName) as [table|];
      [|apply history_kept_refl].
    destruct (tables st !! table) as [rows|] eqn:Htab;
      [|apply history_kept_refl].
    destruct (db_insert rows _) as [[rows' result]|e] eqn:Hi;
      [|apply history_kept_refl].
    apply db_insert_Ok in Hi as (-> & _ & _). cbn [snd].
    apply (history_kept_set_table st table rows); [done|apply Hsnoc|].
    rewrite length_app. cbn [length]. lia.
  - unfold update, resolve.
    destruct (registeredTables st !! modelName) as [table|];
      [|apply history_kept_refl].
    destruct (tables st !! table) as [rows|] eqn:Htab;
      [|apply history_kept_refl].
    destruct (getLatestRecordById rows w i) as [prior|];
      [|apply history_kept_refl].
    destruct (db_insert rows _) as [[rows' result]|e] eqn:Hi;
      [|apply history_kept_refl].
    apply db_insert_Ok in Hi as (-> & _ & _). cbn [snd].
    apply (history_kept_set_table st table rows); [done|apply Hsnoc|].
    rewrite length_app. cbn [length]. lia.
  - unfold delete, resolve.
    destruct (registeredTables st !! modelName) as [table|];
      [|apply history_kept_refl].
    destruct (tables st !! table) as [rows|] eqn:Htab;
      [|apply history_kept_refl].
    destruct (getLatestRecordById rows w i) as [a|];
      [|apply history_kept_refl].
    unfold db_update. cbn [snd].
    change (map _ rows) with (map (mark_row a now) rows).
    apply (history_kept_set_table st table rows); [done| |].
    + assert (written_part <$> map (mark_row a now) rows
              = written_part <$> rows) as ->; [|done].
      rewrite <- list_fmap_compose. apply list_fmap_ext.
      intros ? r _. apply written_part_mark_row.
    + rewrite length_map. lia.
Qed.

(** X5: [delete] returns [true] exactly when [get] finds the entity, and
    a [delete] that returns [false] leaves the state as it was. *)
Theorem delete_true_iff_found (st : State) (modelName table : string)
    (rows : list BaseRecord) (w : Z) (i : string) (now : Z) :
  registeredTables st !! modelName = Some table ->
  tables st !! table = Some rows ->
  ((delete st modelName w i now).1 = Ok true <->
   exists r, get st modelName w i = Ok (Some r)) /\
  ((delete st modelName w i now).1 = Ok false <->
   get st modelName w i = Ok None) /\
  ((delete st modelName w i now).1 = Ok false ->
   (delete st modelName w i now).2 = st).
Proof.
  intros Hreg Htab.
  assert (get st modelName w i = Ok (getLatestRecordById rows w i)) as ->
    by (unfold get, resolve; by rewrite Hreg, Htab).
  destruct (getLatestRecordById rows w i) as [a|] eqn:Ha.
  - rewrite (delete_active st modelName table rows w i now a) by done.
    cbn [fst snd]. split; [|split]; [split| |]; try done.
    by exists a.
  - rewrite (delete_no_active st modelName table rows w i now) by done.
    cbn [fst snd]. split; [|split]; [split| |]; try done.
    by intros [r ?].
Qed.

Lemma delete_true_iff_found_witness :
  ((delete st_created "User" 1 "entity-1" 300).1 = Ok true <->
   exists r, get st_created "User" 1 "entity-1" = Ok (Some r)) /\
  ((delete st_created "User" 2 "entity-1" 300).1 = Ok false <->
   get st_created "User" 2 "entity-1" = Ok None).
Proof.
  destruct (delete_true_iff_found st_created "User" "user" [row_v1] 1
              "entity-1" 300 eq_refl eq_refl) as (H1 & _).
  destruct (delete_true_iff_found st_created "User" "user" [row_v1] 2
              "entity-1" 300 eq_refl eq_refl) as (_ & H2 & _).
  split; [exact H1|exact H2].
Defined.

(** *** [get] and [getAll] *)

(** What [getAll] computes from the rows of a table whose version
    chains keep their [createdAt]. *)
Lemma getAll_rows (rows : list BaseRecord) (w : Z) :
  createdAt_stable rows ->
  let result :=
    amap_values (foldl getAll_step [] (getLatestRecords rows w [])) in
  (forall r, r ∈ result -> r ∈ rows /\ active_in w r) /\
  (forall r, r ∈ rows -> active_in w r ->
     exists r', r' ∈ result /\ id r' = id r /\
                updatedAt r <= updatedAt r').
Proof.
  intros Hstable result. unfold result. clear result.
  set (L := getLatestRecords rows w []).
  assert (forall x, x ∈ L <-> x ∈ rows /\ active_in w x) as HL.
  { intros x. unfold L. rewrite elem_of_getLatestRecords.
    split; [tauto|]. intros [? ?]. split; [done|]. split; [done|].
    intros c Hc. by apply elem_of_nil in Hc. }
  destruct (getAll_fold_inv L [] []) as (_ & Hent & Hcov).
  { apply getLatestRecords_sorted. }
  { cbn [app]. intros x y [Hx [Hwx _]]%HL [Hy [Hwy _]]%HL Hid.
    apply Hstable; congruence. }
  { split; [constructor|].
    split; [intros k v H|intros r H]; by apply elem_of_nil in H. }
  cbn [app] in *. set (m := foldl getAll_step [] L) in *.
  unfold amap_values. split.
  - intros r Hr. apply list_elem_of_In, in_map_iff in Hr as ([k v] & <- & Hkv).
    apply list_elem_of_In in Hkv. apply HL. by destruct (Hent k v Hkv).
  - intros r Hr Ha.
    destruct (Hcov r) as (v & Hv & Hle); [by apply HL|].
    exists v. apply amap_get_Some in Hv as Hin. split; [|split].
    + apply list_elem_of_In, in_map_iff. exists (id r, v).
      split; [done|]. by apply list_elem_of_In.
    + by destruct (Hent _ _ Hin).
    + done.
Qed.

(** X6: on a table whose version chains keep their [createdAt], [get]
    and [getAll] agree: when [get] finds a version of an entity,
    [getAll] holds a record of that entity with the same [updatedAt],
    and when [get] finds nothing, [getAll] holds no record of it. *)
Theorem get_getAll_agree (st : State) (modelName table : string)
    (rows : list BaseRecord) (w : Z) (i : string) :
  registeredTables st !! modelName = Some table ->
  tables st !! table = Some rows ->
  createdAt_stable rows ->
  exists result,
    getAll st modelName w = Ok result /\
    (forall r, get st modelName w i = Ok (Some r) ->
       exists r', r' ∈ result /\ id r' = i /\
                  updatedAt r' = updatedAt r /\
                  r' ∈ rows /\ active_in w r') /\
    (get st modelName w i = Ok None ->
     forall r', r' ∈ result -> id r' <> i).
Proof.
  intros Hreg Htab Hstable.
  destruct (getAll_rows rows w Hstable) as [Hsub Hcov].
  unfold getAll, get, resolve. rewrite Hreg, Htab.
  cbn [mbind Outcome_bind]. eexists. split; [reflexivity|]. split.
  - intros r [= Hg].
    apply getLatestRecordById_Some in Hg as (Hin & Ha & Hi & Hmax).
    destruct (Hcov r Hin Ha) as (r' & Hr' & Hid & Hle).
    destruct (Hsub r' Hr') as [Hin' Ha'].
    exists r'. split; [done|]. split; [congruence|].
    split; [|done].
    assert (updatedAt r' <= updatedAt r) by (apply Hmax; congruence).
    lia.
  - intros [= Hg] r' Hr'. destruct (Hsub r' Hr') as [Hin' Ha'].
    by apply (proj1 (getLatestRecordById_None rows w i) Hg).
Qed.

Lemma get_getAll_agree_witness :
  exists result,
    getAll st_updated "User" 1 = Ok result /\
    (forall r, get st_updated "User" 1 "entity-1" = Ok (Some r) ->
       exists r', r' ∈ result /\ id r' = "entity-1" /\
                  updatedAt r' = updatedAt r /\
                  r' ∈ [row_v1; row_v2] /\ active_in 1 r') /\
    (get st_updated "User" 1 "entity-1" = Ok None ->
     forall r', r' ∈ result -> id r' <> "entity-1").
Proof.
  exact (get_getAll_agree st_updated "User" "user" [row_v1; row_v2] 1
           "entity-1" eq_refl eq_refl createdAt_stable_updated).
Defined.

End AppendOnlyFacts.

(** ** Further properties of the filter compilers *)

Lemma substring_all (f : string) :
  String.substring 0 (String.length f) f = f.
Proof. induction f as [|c f IH]; [done|]. simpl. by rewrite IH. Qed.

Lemma bind_opt_entry_reserved (from_entry : string * JsValue -> list Filter)
    (k : string) (v : option JsValue) :
  (forall x, from_entry (k, x) = []) -> opt_entry k v ≫= from_entry = [].
Proof.
  intros H. destruct v as [x|]; [|done].
  cbn [opt_entry]. rewrite bind_singleton. apply H.
Qed.

(** X7: in both compilers the keys [page], [limit], [sort], [select] and
    [deleted] never become predicates: the predicates depend on the other
    entries only, and each of them carries the value of an entry whose
    key is not reserved. *)
Theorem reserved_keys_never_filter (params : QueryParams) :
  FilterOp.fromQueryParams params
    = FilterOp.fromQueryParams (params_of_object (rest params)) /\
  LibFilterOp.fromQueryParams params
    = LibFilterOp.fromQueryParams (params_of_object (rest params)) /\
  (forall f, f ∈ FilterOp.fromQueryParams params ->
     exists k, is_reserved k = false /\ rest params !! k = Some (value f)) /\
  (forall f, f ∈ LibFilterOp.fromQueryParams params ->
     exists k, is_reserved k = false /\ rest params !! k = Some (value f)).
Proof.
  assert (FilterOp.fromQueryParams params
          = map_to_list (rest params) ≫= FilterOp.from_entry) as H1.
  { unfold FilterOp.fromQueryParams, Object_entries.
    rewrite !bind_app.
    rewrite !bind_opt_entry_reserved by (intros x; reflexivity). done. }
  assert (LibFilterOp.fromQueryParams params
          = map_to_list (rest params) ≫= LibFilterOp.from_entry) as H2.
  { unfold LibFilterOp.fromQueryParams, Object_entries.
    rewrite !bind_app.
    rewrite !bind_opt_entry_reserved by (intros x; reflexivity). done. }
  split; [exact H1|]. split; [exact H2|]. split.
  - intros f. rewrite H1, list_elem_of_bind.
    intros ([k v] & Hf & Hkv). apply elem_of_map_to_list in Hkv.
    unfold FilterOp.from_entry in Hf. cbn [fst snd] in Hf.
    destruct (is_reserved k) eqn:Hr; [by apply elem_of_nil in Hf|].
    destruct (FilterOp.parseFieldAndOperator k) as [fld o].
    apply list_elem_of_singleton in Hf as ->. by exists k.
  - intros f. rewrite H2, list_elem_of_bind.
    intros ([k v] & Hf & Hkv). apply elem_of_map_to_list in Hkv.
    unfold LibFilterOp.from_entry in Hf. cbn [fst snd] in Hf.
    destruct (is_reserved k) eqn:Hr; [by apply elem_of_nil in Hf|].
    destruct (LibFilterOp.match_loop k LibFilterOp.operators) as [[o fld]|];
      apply list_elem_of_singleton in Hf as ->; by exists k.
Qed.

Lemma append_assoc (a b c : string) :
  (a +:+ b) +:+ c = a +:+ (b +:+ c).
Proof.
  induction a as [|x a IH]; [done|].
  by rewrite !append_cons, IH.
Qed.

Lemma prefix_app (p f : string) : String.prefix p (p +:+ f) = true.
Proof.
  induction p as [|c p IH]; [by destruct f|].
  rewrite append_cons. cbn [String.prefix].
  by destruct (ascii_dec c c).
Qed.

(** When [a] starts [p ++ f], one of [a] and [p] starts the other. *)
Lemma prefix_app_inv (a p f : string) :
  String.prefix a (p +:+ f) = true ->
  String.prefix a p = true \/ String.prefix p a = true.
Proof.
  revert p. induction a as [|c a IH]; intros p H.
  - left. by destruct p.
  - destruct p as [|d p]; [by right|].
    rewrite append_cons in H. cbn [String.prefix] in *.
    destruct (ascii_dec c d) as [->|Hne]; [|discriminate H].
    destruct (ascii_dec d d); [|done]. by apply IH.
Qed.

Lemma slice_from_app (p f : string) :
  slice_from (String.length p) (p +:+ f) = f.
Proof.
  unfold slice_from. rewrite append_length.
  replace (String.length p + String.length f - String.length p)%nat
    with (String.length f) by lia.
  induction p as [|c p IH]; [apply substring_all|].
  rewrite append_cons. exact IH.
Qed.

Lemma match_loop_skip (key : string) (o : FilterOperatorType)
    (ops : list FilterOperatorType) :
  startsWith key (op_name o +:+ "_") = false ->
  LibFilterOp.match_loop key (o :: ops) = LibFilterOp.match_loop key ops.
Proof. intros H. cbn [LibFilterOp.match_loop]. by rewrite H. Qed.

Lemma match_loop_hit (f : string) (o : FilterOperatorType)
    (ops : list FilterOperatorType) :
  f <> "" -> LibFilterOp.has_line_terminator f = false ->
  LibFilterOp.match_loop ((op_name o +:+ "_") +:+ f) (o :: ops)
    = Some (o, f).
Proof.
  intros Hne Hlt. cbn [LibFilterOp.match_loop]. unfold startsWith.
  rewrite prefix_app, slice_from_app, Hlt.
  by rewrite (proj2 (String.eqb_neq f "") Hne).
Qed.

Lemma match_loop_prefixed (o : FilterOperatorType) (f : string) :
  f <> "" -> LibFilterOp.has_line_terminator f = false ->
  LibFilterOp.match_loop ((op_name o +:+ "_") +:+ f) LibFilterOp.operators
    = Some (o, f).
Proof.
  intros Hne Hlt. unfold LibFilterOp.operators.
  destruct o;
    repeat
      first
        [ by apply match_loop_hit
        | rewrite match_loop_skip;
          [|unfold startsWith;
            match goal with
            | |- String.prefix ?a (?p +:+ f) = false =>
                let E := fresh "E" in
                destruct (String.prefix a (p +:+ f)) eqn:E; [|done];
                apply prefix_app_inv in E as [E|E];
                vm_compute in E; discriminate E
            end] ].
Qed.

Lemma reserved_prefixed (o : FilterOperatorType) (f : string) :
  is_reserved ((op_name o +:+ "_") +:+ f) = false.
Proof.
  destruct (is_reserved _) eqn:E; [exfalso|done].
  unfold is_reserved, RESERVED_QUERY_PARAMS in E.
  pose proof (prefix_app (op_name o +:+ "_") f) as Hp.
  cbn [existsb] in E.
  repeat (apply orb_true_iff in E as [E|E];
          [apply String.eqb_eq in E; rewrite E in Hp;
           destruct o; vm_compute in Hp; discriminate Hp|]).
  discriminate E.
Qed.

(** X8: the compiler of the library reads the operator before the
    field: for every operator [o] and every field [f] that is not empty
    and holds no line terminator, the key [<o>_<f>] compiles to the
    predicate [(f, o, value)]; a key that is only [<o>_] compiles to an
    equality on the key itself. *)
Theorem lib_compile_prefixed (o : FilterOperatorType) (f : string)
    (v : JsValue) :
  (f <> "" -> LibFilterOp.has_line_terminator f = false ->
   LibFilterOp.from_entry (op_name o +:+ "_" +:+ f, v) = [mkFilter f o v]) /\
  LibFilterOp.from_entry (op_name o +:+ "_", v)
    = [mkFilter (op_name o +:+ "_") op_eq v].
Proof.
  split; [|by destruct o].
  intros Hne Hlt. unfold LibFilterOp.from_entry. cbn [fst snd].
  rewrite <- append_assoc.
  by rewrite reserved_prefixed, match_loop_prefixed.
Qed.

Lemma lib_compile_prefixed_witness :
  LibFilterOp.from_entry ("gte_age", VNum 30)
    = [mkFilter "age" op_gte (VNum 30)].
Proof.
  apply (lib_compile_prefixed op_gte "age" (VNum 30)).
  - discriminate.
  - reflexivity.
Defined.

(** ** Further properties of the query planner *)

Lemma bind_known_fields {B : Type} (table : TableAdapter)
    (g : Filter -> Column -> B) (filters : list Filter) :
  (filters ≫= fun filter =>
     match table !! field filter with
     | None => []
     | Some column => [g filter column]
     end)
  = (filter (known_field table) filters ≫= fun filter =>
       match table !! field filter with
       | None => []
       | Some column => [g filter column]
       end) /\
  length (filters ≫= fun filter =>
            match table !! field filter with
            | None => []
            | Some column => [g filter column]
            end)
  = length (filter (known_field table) filters).
Proof.
  induction filters as [|f filters [IH1 IH2]]; [done|].
  rewrite bind_cons, filter_cons.
  destruct (decide (known_field table f)) as [[c Hc]|Hn].
  - rewrite bind_cons, Hc. cbn [app length]. by rewrite <- IH1, IH2.
  - destruct (table !! field f) as [c|] eqn:E; [|done].
    exfalso. apply Hn. unfold known_field. rewrite E. by eexists.
Qed.

Lemma bind_known_conditions {B : Type} (table : TableAdapter)
    (g : Filter -> Column -> B) (filters : list Filter) :
  Forall2 (fun f c => exists column,
             table !! field f = Some column /\ c = g f column)
    (filter (known_field table) filters)
    (filters ≫= fun filter =>
       match table !! field filter with
       | None => []
       | Some column => [g filter column]
       end).
Proof.
  induction filters as [|f filters IH]; [constructor|].
  rewrite bind_cons, filter_cons.
  destruct (decide (known_field table f)) as [[c Hc]|Hn].
  - rewrite Hc. cbn [app]. constructor; [by exists c|done].
  - destruct (table !! field f) as [c|] eqn:E; [|done].
    exfalso. apply Hn. unfold known_field. rewrite E. by eexists.
Qed.

Lemma condition_of_buildCondition (f : Filter) (column : Column) :
  CrudHandler.condition_of f column
    = LibFilterOp.buildCondition f (Some column).
Proof.
  unfold CrudHandler.condition_of, LibFilterOp.buildCondition.
  by destruct (operator f).
Qed.

(** X9: the conditions of [buildWhereClause] are, in both engines, the
    not-deleted condition followed by one condition for each filter on a
    field the table has, in the order of the filters: the comparison
    [buildCondition] makes of the filter and the column of its field. A
    filter on a field the table does not have is dropped without an
    error. The not-deleted condition is there unless deleted rows are
    asked for: in [CrudHandler] always, in [GenericCrudEngine] when the
    table has the column [deleted_at]. *)
Theorem where_clause_known_fields (table : TableAdapter)
    (filters : list Filter) (includeDeleted : bool) :
  exists conditions,
    Forall2 (condition_for table)
      (filter (known_field table) filters) conditions /\
    GenericCrudEngine.buildWhereClause table filters includeDeleted
      = (if includeDeleted then []
         else match table !! "deleted_at" with
              | Some column => [sql_isNull (Some column)]
              | None => []
              end) ++ conditions /\
    CrudHandler.buildWhereClause table filters includeDeleted
      = (if includeDeleted then []
         else [sql_isNull (table !! "deleted_at")]) ++ conditions /\
    GenericCrudEngine.buildWhereClause table filters includeDeleted
      = GenericCrudEngine.buildWhereClause table
          (filter (known_field table) filters) includeDeleted /\
    CrudHandler.buildWhereClause table filters includeDeleted
      = CrudHandler.buildWhereClause table
          (filter (known_field table) filters) includeDeleted.
Proof.
  unfold GenericCrudEngine.buildWhereClause, CrudHandler.buildWhereClause.
  destruct (bind_known_fields table
              (fun f c => LibFilterOp.buildCondition f (Some c)) filters)
    as [G1 _].
  destruct (bind_known_fields table (CrudHandler.condition_of) filters)
    as [H1 _].
  eexists. split; [|split; [|split; [|split]]].
  - apply (bind_known_conditions table
             (fun f c => LibFilterOp.buildCondition f (Some c)) filters).
  - by destruct includeDeleted.
  - assert (forall l : list Filter,
              (l ≫= fun filter =>
                 match table !! field filter with
                 | None => []
                 | Some column => [CrudHandler.condition_of filter column]
                 end)
              = (l ≫= fun filter =>
                   match table !! field filter with
                   | None => []
                   | Some column =>
                       [LibFilterOp.buildCondition filter (Some column)]
                   end)) as ->.
    { intros l. apply list_bind_ext; [|done]. intros f.
      destruct (table !! field f) as [c|]; [|done].
      by rewrite condition_of_buildCondition. }
    by destruct includeDeleted.
  - by rewrite G1 at 1.
  - by rewrite H1 at 1.
Qed.

Lemma try_catch_rethrow {A : Type} (m : Outcome A) :
  try_catch m (fun error => Throw error) = m.
Proof. by destruct m. Qed.

(** X10: the page of records and the count are asked of the database
    with one condition, the one [count] uses: when both statements of
    [findMany] succeed, its [record_count] is what [count] returns for
    the same parameters. *)
Theorem findMany_count_consistent {S : Type} (database : DatabaseAdapter S)
    (table : TableAdapter) (db : S) (params : QueryParams)
    (data : list Row) (total : Z) :
  let generic := GenericCrudEngine.findMany_query table params in
  let handler := CrudHandler.findMany_query table params in
  q_where generic.1 = generic.2 /\
  q_where handler.1 = handler.2 /\
  (run_select db table generic.1 = Ok data ->
   run_count db table generic.2 = Ok total ->
   GenericCrudEngine.findMany table db params
     = Ok {| records := data; record_count := total |} /\
   GenericCrudEngine.count table db params = Ok total) /\
  (run_select db table handler.1 = Ok data ->
   run_count db table handler.2 = Ok total ->
   CrudHandler.findMany table db params
     = Ok {| records := data; record_count := total |}).
Proof.
  intros generic handler.
  split; [reflexivity|]. split; [reflexivity|]. split.
  - intros Hs Hc.
    unfold GenericCrudEngine.findMany, GenericCrudEngine.count.
    fold generic. destruct generic as [q c] eqn:E. cbn [fst snd] in *.
    rewrite Hs. cbn [mbind Outcome_bind]. rewrite Hc.
    split; [reflexivity|].
    unfold GenericCrudEngine.findMany_query in E.
    injection E as _ Ec. rewrite Ec, Hc. reflexivity.
  - intros Hs Hc. unfold CrudHandler.findMany.
    fold handler. destruct handler as [q c]. cbn [fst snd] in *.
    rewrite Hs. cbn [mbind Outcome_bind]. by rewrite Hc.
Qed.

Lemma findMany_count_consistent_witness :
  @GenericCrudEngine.findMany unit empty_adapter standard_table tt no_params
    = Ok {| records := []; record_count := 0 |} /\
  @GenericCrudEngine.count unit empty_adapter standard_table tt no_params
    = Ok 0.
Proof.
  destruct (findMany_count_consistent empty_adapter standard_table tt
              no_params [] 0) as (_ & _ & H & _).
  apply H; reflexivity.
Defined.

Lemma generic_order_term_column (table : TableAdapter) (sort : string)
    (t : SQL) :
  t ∈ GenericCrudEngine.order_term table sort -> orders_by_column table t.
Proof.
  unfold GenericCrudEngine.order_term.
  destruct (startsWith (trim sort) "desc_");
    match goal with
    | |- context [table !! ?f] => destruct (table !! f) as [c|] eqn:E
    end; try (by intros ?%elem_of_nil);
    intros ->%list_elem_of_singleton; eexists _, c; split; eauto.
Qed.

Lemma handler_order_term_column (table : TableAdapter) (sort : string)
    (t : SQL) :
  t ∈ CrudHandler.order_term table sort -> orders_by_column table t.
Proof.
  unfold CrudHandler.order_term.
  destruct (startsWith (trim sort) "desc_");
    match goal with
    | |- context [table !! ?f] => destruct (table !! f) as [c|] eqn:E
    end; try (by intros ?%elem_of_nil);
    intros ->%list_elem_of_singleton; eexists _, c; split; eauto.
Qed.

Lemma length_pos_nonempty {A : Type} (l : list A) :
  (0 <? length l)%nat = true -> l <> [].
Proof. by destruct l. Qed.

(** X11: every term of the order is on something the table object
    holds, or is the default, descending by [created_at]; a sort
    expression of which no field resolves gives the default; the order of
    [CrudHandler] is never empty, and the order of [GenericCrudEngine] is
    empty only when the table has no [created_at]. *)
Theorem order_by_resolved (table : TableAdapter) (sortParam : option string) :
  (forall t, t ∈ GenericCrudEngine.buildOrderBy table sortParam ->
             orders_by_column table t) /\
  (forall t, t ∈ CrudHandler.buildOrderBy table sortParam ->
             orders_by_column table t \/
             t = sql_desc (table !! "created_at")) /\
  CrudHandler.buildOrderBy table sortParam <> [] /\
  (is_Some (table !! "created_at") ->
   GenericCrudEngine.buildOrderBy table sortParam <> []) /\
  (forall s, sortParam = Some s ->
     split_comma s ≫= GenericCrudEngine.order_term table = [] ->
     GenericCrudEngine.buildOrderBy table sortParam
       = GenericCrudEngine.default_order table) /\
  (forall s, sortParam = Some s ->
     split_comma s ≫= CrudHandler.order_term table = [] ->
     CrudHandler.buildOrderBy table sortParam = [sql_desc (table !! "created_at")]).
Proof.
  assert (forall t, t ∈ GenericCrudEngine.default_order table ->
                    orders_by_column table t) as Hdef.
  { intros t. unfold GenericCrudEngine.default_order.
    destruct (table !! "created_at") as [c|] eqn:E;
      [|by intros ?%elem_of_nil].
    intros ->%list_elem_of_singleton. exists "created_at", c. auto. }
  unfold GenericCrudEngine.buildOrderBy, CrudHandler.buildOrderBy,
    CrudHandler.default_order.
  split; [|split; [|split; [|split; [|split]]]].
  - intros t. destruct sortParam as [s|]; [|apply Hdef].
    destruct (String.eqb s ""); [apply Hdef|].
    destruct (0 <? length _)%nat; [|apply Hdef].
    intros (x & Ht & _)%list_elem_of_bind.
    by apply (generic_order_term_column table x).
  - intros t. destruct sortParam as [s|];
      [|intros ->%list_elem_of_singleton; by right].
    destruct (String.eqb s "");
      [intros ->%list_elem_of_singleton; by right|].
    destruct (0 <? length _)%nat;
      [|intros ->%list_elem_of_singleton; by right].
    intros (x & Ht & _)%list_elem_of_bind. left.
    by apply (handler_order_term_column table x).
  - destruct sortParam as [s|]; [|done].
    destruct (String.eqb s ""); [done|].
    destruct (0 <? length _)%nat eqn:E; [|done].
    by apply length_pos_nonempty.
  - intros [c Hc]. unfold GenericCrudEngine.default_order. rewrite Hc.
    destruct sortParam as [s|]; [|done].
    destruct (String.eqb s ""); [done|].
    destruct (0 <? length _)%nat eqn:E; [|done].
    by apply length_pos_nonempty.
  - intros s -> Hnil. rewrite Hnil. cbn [length Nat.ltb Nat.leb].
    by destruct (String.eqb s "").
  - intros s -> Hnil. rewrite Hnil. cbn [length Nat.ltb Nat.leb].
    by destruct (String.eqb s "").
Qed.

Lemma order_by_resolved_witness :
  CrudHandler.buildOrderBy standard_table (Some "nope, desc_also_nope")
    = [sql_desc (standard_table !! "created_at")] /\
  GenericCrudEngine.buildOrderBy standard_table (Some " desc_name ,id")
    = [sql_desc (Some (mkColumn "name")); sql_asc (Some (mkColumn "id"))].
Proof.
  destruct (order_by_resolved standard_table (Some "nope, desc_also_nope"))
    as (_ & _ & _ & _ & _ & H).
  split; [apply (H _ eq_refl); vm_compute; reflexivity|].
  vm_compute. reflexivity.
Defined.

(** The loop of [buildSelect] keeps the selection within the table. *)
Lemma select_fold_sub (table : TableAdapter) (fields : list string)
    (chosen : gmap string Column) :
  (forall f c, chosen !! f = Some c -> table !! f = Some c) ->
  forall f c,
    foldl (fun acc field =>
             match table !! field with
             | Some column => obj_assign acc field column
             | None => acc
             end) chosen fields !! f = Some c ->
    table !! f = Some c.
Proof.
  revert chosen. induction fields as [|x fields IH]; intros chosen Hsub;
    cbn [foldl]; [done|].
  apply IH. intros f c. destruct (table !! x) as [cx|] eqn:E; [|apply Hsub].
  rewrite lookup_obj_assign. case_decide as Hd; [|apply Hsub].
  destruct Hd as [<- _]. intros [= <-]. done.
Qed.

(** X12: the projection [buildSelect] returns is never empty and holds,
    under each name, what the table object holds under that name: a field
    the table does not have is dropped; [findMany] of [CrudHandler]
    selects with it, [findMany] of [GenericCrudEngine] selects all
    columns whatever the [select] parameter is. *)
Theorem select_resolved (table : TableAdapter) (params : QueryParams) :
  (forall sel, CrudHandler.buildSelect table (select params) = Some sel ->
     sel <> ∅ /\ forall f c, sel !! f = Some c -> table !! f = Some c) /\
  q_fields (CrudHandler.findMany_query table params).1
    = match CrudHandler.buildSelect table (select params) with
      | Some sel => select_fields sel
      | None => select_all
      end /\
  q_fields (GenericCrudEngine.findMany_query table params).1 = select_all.
Proof.
  split; [|split; reflexivity].
  intros sel. unfold CrudHandler.buildSelect.
  destruct (select params) as [s|]; [|done].
  destruct (String.eqb s ""); [done|].
  destruct (0 <? size _)%nat eqn:E; [|done].
  intros [= <-]. split.
  - intros Hempty. rewrite Hempty, map_size_empty in E. discriminate E.
  - apply select_fold_sub. intros f c. by rewrite lookup_empty.
Qed.

Lemma select_resolved_witness :
  exists sel,
    CrudHandler.buildSelect standard_table (Some "id, name ,password")
      = Some sel /\
    sel <> ∅ /\ sel !! "password" = None /\
    sel !! "name" = Some (mkColumn "name").
Proof.
  destruct (CrudHandler.buildSelect standard_table
              (Some "id, name ,password")) as [sel|] eqn:E;
    [|vm_compute in E; discriminate E].
  destruct (select_resolved standard_table
              {| page := None; limit := None; sort := None;
                 select := Some "id, name ,password"; deleted := None;
                 rest := ∅ |}) as (H & _).
  destruct (H sel E) as [Hne Hsub].
  exists sel. split; [reflexivity|]. split; [exact Hne|].
  assert (Some sel = Some (<["id" := mkColumn "id"]>
                             (<["name" := mkColumn "name"]> ∅))) as Heq
    by (rewrite <- E; vm_compute; reflexivity).
  injection Heq as ->. split; vm_compute; reflexivity.
Defined.


(** X13: [update] sends no statement that changes the record it is given
    the id of. When no active record has the id it returns [null] and
    leaves the database as it was; otherwise it inserts one record, made
    of the data it was given, with the [created_at] of the record found
    and [updated_at] now. In [GenericCrudEngine] the inserted record has
    a generated id, whatever the data says; in [CrudHandler] its id is the
    one of the data. An error of the [select] is thrown on. *)
Theorem update_inserts_version {S : Type} (database : DatabaseAdapter S)
    (table : TableAdapter) (db : S) (id : string) (data : Row) (now : Z)
    (newId : string) :
  match run_select db table
          (first_where (GenericCrudEngine.active_with_id table id)) with
  | Throw e => GenericCrudEngine.update table db id data now newId = Throw e
  | Ok [] => GenericCrudEngine.update table db id data now newId
             = Ok (None, db)
  | Ok (parent :: _) =>
      exists r,
        GenericCrudEngine.update table db id data now newId
          = insert_one db table r /\
        r !! "id" = Some (VStr newId) /\
        r !! "created_at" = Some (js_get parent "created_at") /\
        r !! "updated_at" = Some (VDate now) /\
        same_but ["id"; "created_at"; "updated_at"] r data
  end /\
  match run_select db table
          (first_where (CrudHandler.active_with_id table id)) with
  | Throw e => CrudHandler.update table db id data now = Throw e
  | Ok [] => CrudHandler.update table db id data now = Ok (None, db)
  | Ok (parent :: _) =>
      exists r,
        CrudHandler.update table db id data now = insert_one db table r /\
        r !! "id" = data !! "id" /\
        r !! "created_at" = Some (js_get parent "created_at") /\
        r !! "updated_at" = Some (VDate now) /\
        same_but ["created_at"; "updated_at"] r data
  end.
Proof.
  split.
  - unfold GenericCrudEngine.update. rewrite try_catch_rethrow.
    fold (first_where (GenericCrudEngine.active_with_id table id)).
    destruct (run_select db table _) as [[|parent rest]|e];
      cbn [mbind Outcome_bind]; try reflexivity.
    eexists. split; [reflexivity|].
    split; [by simplify_map_eq|]. split; [by simplify_map_eq|].
    split; [by simplify_map_eq|].
    intros k Hk. rewrite !not_elem_of_cons in Hk.
    destruct Hk as (? & ? & ? & _). by simplify_map_eq.
  - unfold CrudHandler.update. rewrite try_catch_rethrow.
    fold (first_where (CrudHandler.active_with_id table id)).
    destruct (run_select db table _) as [[|parent rest]|e];
      cbn [mbind Outcome_bind]; try reflexivity.
    eexists. split; [reflexivity|].
    split; [by simplify_map_eq|]. split; [by simplify_map_eq|].
    split; [by simplify_map_eq|].
    intros k Hk. rewrite !not_elem_of_cons in Hk.
    destruct Hk as (? & ? & _). by simplify_map_eq.
Qed.

(** X14: [bulkCreate] sends one [insert] with one record for each item,
    in the order of the items: the record of item [i] has the id and the
    [created_at] generated for it, whatever the item says, and the other
    fields of the item; [CrudHandler] generates the id only. [create] is
    [bulkCreate] of one item, with the first row returned as result. *)
Theorem bulkCreate_records {S : Type} (database : DatabaseAdapter S)
    (table : TableAdapter) (db : S) (items : list Row) (now : nat -> Z)
    (newId : nat -> string) :
  (exists rs,
     GenericCrudEngine.bulkCreate table db items now newId
       = run_insert db table rs /\
     length rs = length items /\
     forall i item, items !! i = Some item ->
       exists r, rs !! i = Some r /\
         r !! "id" = Some (VStr (newId i)) /\
         r !! "created_at" = Some (VDate (now i)) /\
         same_but ["id"; "created_at"] r item) /\
  (exists rs,
     CrudHandler.bulkCreate table db items newId = run_insert db table rs /\
     length rs = length items /\
     forall i item, items !! i = Some item ->
       exists r, rs !! i = Some r /\
         r !! "id" = Some (VStr (newId i)) /\
         same_but ["id"] r item) /\
  (forall data,
     GenericCrudEngine.create table db data (now 0%nat) (newId 0%nat)
       = '(result, db') ← GenericCrudEngine.bulkCreate table db [data]
                            now newId;
         Ok (head result, db')) /\
  (forall data,
     CrudHandler.create table db data (newId 0%nat)
       = '(result, db') ← CrudHandler.bulkCreate table db [data] newId;
         Ok (head result, db')).
Proof.
  split; [|split; [|split]].
  - eexists. unfold GenericCrudEngine.bulkCreate.
    rewrite try_catch_rethrow. split; [reflexivity|].
    split; [by rewrite length_imap|].
    intros i item Hi. rewrite list_lookup_imap, Hi. cbn [fmap option_fmap option_map].
    eexists. split; [reflexivity|].
    split; [by simplify_map_eq|]. split; [by simplify_map_eq|].
    intros k Hk. rewrite !not_elem_of_cons in Hk.
    destruct Hk as (? & ? & _). by simplify_map_eq.
  - eexists. unfold CrudHandler.bulkCreate.
    rewrite try_catch_rethrow. split; [reflexivity|].
    split; [by rewrite length_imap|].
    intros i item Hi. rewrite list_lookup_imap, Hi. cbn [fmap option_fmap option_map].
    eexists. split; [reflexivity|].
    split; [by simplify_map_eq|].
    intros k Hk. rewrite !not_elem_of_cons in Hk.
    destruct Hk as (? & _). by simplify_map_eq.
  - intros data.
    unfold GenericCrudEngine.create, GenericCrudEngine.bulkCreate.
    rewrite !try_catch_rethrow. reflexivity.
  - intros data. unfold CrudHandler.create, CrudHandler.bulkCreate.
    rewrite !try_catch_rethrow. reflexivity.
Qed.


(* ===================================================================== *)
(** * The engine [CrudEngine] *)
(* ===================================================================== *)

Module CrudEngineFacts.
Import CrudEngine.

Lemma amap_get_set {V : Type} (m : list (string * V)) (k k' : string)
    (v : V) :
  amap_get (amap_set m k v) k'
    = if String.eqb k k' then Some v else amap_get m k'.
Proof.
  induction m as [|[k0 v0] m IH]; cbn [amap_get amap_set]; [done|].
  destruct (String.eqb_spec k0 k) as [->|Hne]; cbn [amap_get].
  - by destruct (String.eqb k k').
  - rewrite IH. destruct (String.eqb_spec k0 k') as [->|Hne'];
      [|done].
    destruct (String.eqb_spec k k') as [->|]; [done|done].
Qed.

Lemma amap_set_keys {V : Type} (m : list (string * V)) (k : string)
    (v : V) :
  map fst (amap_set m k v)
    = if decide (k ∈ map fst m) then map fst m else map fst m ++ [k].
Proof.
  induction m as [|[k0 v0] m IH]; cbn [amap_set map fst].
  - rewrite decide_False; [done|]. apply not_elem_of_nil.
  - destruct (String.eqb_spec k0 k) as [->|Hne]; cbn [map fst].
    + rewrite decide_True; [done|]. apply elem_of_cons. by left.
    + rewrite IH. destruct (decide (k ∈ map fst m)) as [Hin|Hout].
      * rewrite decide_True; [done|]. apply elem_of_cons. by right.
      * rewrite decide_False; [done|].
        rewrite not_elem_of_cons. split; [congruence|done].
Qed.

Lemma amap_get_is_Some {V : Type} (m : list (string * V)) (k : string) :
  is_Some (amap_get m k) <-> k ∈ map fst m.
Proof.
  destruct (amap_get m k) as [v|] eqn:E.
  - split; [intros _|by eauto].
    destruct (decide (k ∈ map fst m)) as [|Hout]; [done|].
    apply VersionedFacts.amap_get_None in Hout. congruence.
  - split; [by intros [? ?]|]. intros Hin.
    apply VersionedFacts.amap_get_None in E. done.
Qed.

(** The operations leave the registrations as they are. *)
Lemma registered_after_create (st : Versioned.State) (modelName : string)
    (d : Versioned.CreateRecordData) (now : Z) (entityId newRowId : string) :
  Versioned.registeredTables
    (Versioned.create st modelName d now entityId newRowId).2
    = Versioned.registeredTables st.
Proof.
  unfold Versioned.create. destruct (Versioned.resolve st modelName)
    as [[table rows]|e]; [|done].
  by destruct (Versioned.db_insert rows _) as [[rows' result]|e].
Qed.

Lemma registered_after_update (st : Versioned.State) (modelName : string)
    (w : Z) (i : string) (upd : Versioned.UpdateData) (now : Z)
    (newRowId : string) :
  Versioned.registeredTables
    (Versioned.update st modelName w i upd now newRowId).2
    = Versioned.registeredTables st.
Proof.
  unfold Versioned.update. destruct (Versioned.resolve st modelName)
    as [[table rows]|e]; [|done].
  destruct (Versioned.getLatestRecordById rows w i) as [prior|]; [|done].
  by destruct (Versioned.db_insert rows _) as [[rows' result]|e].
Qed.

Lemma registered_after_delete (st : Versioned.State) (modelName : string)
    (w : Z) (i : string) (now : Z) :
  Versioned.registeredTables (Versioned.delete st modelName w i now).2
    = Versioned.registeredTables st.
Proof.
  unfold Versioned.delete. destruct (Versioned.resolve st modelName)
    as [[table rows]|e]; [|done].
  destruct (Versioned.getLatestRecordById rows w i) as [a|]; [|done].
  by destruct (Versioned.db_update rows _ _) as [rows' result].
Qed.

Lemma registered_after_registerTable (st : Versioned.State)
    (model : RegisteredModel) (fault : option Error) :
  Versioned.registeredTables (registerTable st model fault).2
    = <[m_name model := m_tableName model]> (Versioned.registeredTables st).
Proof. unfold registerTable. by destruct fault. Qed.

Lemma models_after_register (lc : string -> string) (eng : Engine)
    (modelName : string) (schema : ModelSchema) (options : CrudOptions)
    (fault : option Error) :
  registeredModels (register lc eng modelName schema options fault).2
    = amap_set (registeredModels eng) modelName
        {| m_name := modelName;
           m_schema := schema;
           m_options :=
             {| softDelete := Some true;
                enableAuditLog :=
                  Some (default false (enableAuditLog options)) |};
           m_tableName := lc modelName |}.
Proof.
  unfold register. by destruct (registerTable _ _ _) as [o st].
Qed.

Lemma ops_after_register (lc : string -> string) (eng : Engine)
    (modelName : string) (schema : ModelSchema) (options : CrudOptions)
    (fault : option Error) :
  crudOps (register lc eng modelName schema options fault).2
    = (registerTable (crudOps eng)
         {| m_name := modelName;
            m_schema := schema;
            m_options :=
              {| softDelete := Some true;
                 enableAuditLog :=
                   Some (default false (enableAuditLog options)) |};
            m_tableName := lc modelName |} fault).2.
Proof.
  unfold register. by destruct (registerTable _ _ _) as [o st].
Qed.

Lemma models_after_create (eng : Engine) (modelName : string)
    (d : Versioned.CreateRecordData) (now : Z) (entityId newRowId : string) :
  let eng' := (create eng modelName d now entityId newRowId).2 in
  registeredModels eng' = registeredModels eng /\
  Versioned.registeredTables (crudOps eng')
    = Versioned.registeredTables (crudOps eng).
Proof.
  unfold create. destruct (validateModelExists eng modelName); [|done].
  pose proof (registered_after_create (crudOps eng) modelName d now
                entityId newRowId) as H.
  by destruct (Versioned.create _ _ _ _ _ _) as [o st].
Qed.

Lemma models_after_update (eng : Engine) (modelName : string) (w : Z)
    (i : string) (upd : Versioned.UpdateData) (now : Z) (newRowId : string) :
  let eng' := (update eng modelName w i upd now newRowId).2 in
  registeredModels eng' = registeredModels eng /\
  Versioned.registeredTables (crudOps eng')
    = Versioned.registeredTables (crudOps eng).
Proof.
  unfold update. destruct (validateModelExists eng modelName); [|done].
  pose proof (registered_after_update (crudOps eng) modelName w i upd now
                newRowId) as H.
  by destruct (Versioned.update _ _ _ _ _ _ _) as [o st].
Qed.

Lemma models_after_delete (eng : Engine) (modelName : string) (w : Z)
    (i : string) (now : Z) :
  let eng' := (delete eng modelName w i now).2 in
  registeredModels eng' = registeredModels eng /\
  Versioned.registeredTables (crudOps eng')
    = Versioned.registeredTables (crudOps eng).
Proof.
  unfold delete. destruct (validateModelExists eng modelName); [|done].
  pose proof (registered_after_delete (crudOps eng) modelName w i now)
    as H.
  by destruct (Versioned.delete _ _ _ _ _) as [o st].
Qed.

(** The engine and the operations agree on the models registered. *)
Lemma reachable_consistent (lc : string -> string) (eng : Engine) :
  reachable lc eng -> consistent lc eng.
Proof.
  induction 1 as [db
                 |eng modelName schema options fault _ IH
                 |eng modelName d now entityId newRowId _ IH
                 |eng modelName w i upd now newRowId _ IH
                 |eng modelName w i now _ IH]; intros m.
  - cbn. apply lookup_empty.
  - rewrite models_after_register, ops_after_register,
      registered_after_registerTable, amap_get_set.
    cbn [m_name m_tableName]. specialize (IH m).
    destruct (String.eqb_spec modelName m) as [->|Hne].
    + cbn [m_name m_tableName]. by rewrite lookup_insert_eq.
    + by rewrite lookup_insert_ne.
  - destruct (models_after_create eng modelName d now entityId newRowId)
      as [-> ->]. apply IH.
  - destruct (models_after_update eng modelName w i upd now newRowId)
      as [-> ->]. apply IH.
  - destruct (models_after_delete eng modelName w i now) as [-> ->].
    apply IH.
Qed.

Lemma reachable_NoDup (lc : string -> string) (eng : Engine) :
  reachable lc eng -> NoDup (getRegisteredModels eng).
Proof.
  unfold getRegisteredModels.
  induction 1 as [db
                 |eng modelName schema options fault _ IH
                 |eng modelName d now entityId newRowId _ IH
                 |eng modelName w i upd now newRowId _ IH
                 |eng modelName w i now _ IH].
  - constructor.
  - rewrite models_after_register, amap_set_keys.
    destruct (decide _) as [|Hout]; [done|].
    apply NoDup_app. split; [done|]. split; [|apply NoDup_singleton].
    intros x Hx ->%list_elem_of_singleton. done.
  - by destruct (models_after_create eng modelName d now entityId newRowId)
      as [-> _].
  - by destruct (models_after_update eng modelName w i upd now newRowId)
      as [-> _].
  - by destruct (models_after_delete eng modelName w i now) as [-> _].
Qed.

Lemma validate_registered (eng : Engine) (modelName : string) :
  modelName ∈ getRegisteredModels eng ->
  validateModelExists eng modelName = Returned tt.
Proof.
  intros [model E]%amap_get_is_Some. unfold validateModelExists.
  by rewrite E.
Qed.

Lemma validate_unregistered (eng : Engine) (modelName : string) :
  modelName ∉ getRegisteredModels eng ->
  validateModelExists eng modelName = Threw (UseRegisterFirst modelName).
Proof.
  intros E%VersionedFacts.amap_get_None. unfold validateModelExists.
  by rewrite E.
Qed.

Lemma registered_table (lc : string -> string) (eng : Engine)
    (modelName : string) :
  consistent lc eng -> modelName ∈ getRegisteredModels eng ->
  Versioned.registeredTables (crudOps eng) !! modelName
    = Some (lc modelName).
Proof.
  intros Hc [model E]%amap_get_is_Some. specialize (Hc modelName).
  rewrite E in Hc. tauto.
Qed.

(** The error of the operations for a model they do not know. *)
Lemma resolve_registered (st : Versioned.State) (modelName table : string)
    (m' : string) :
  Versioned.registeredTables st !! modelName = Some table ->
  Versioned.resolve st modelName <> Throw (NotRegistered m').
Proof.
  intros H. unfold Versioned.resolve. rewrite H.
  by destruct (Versioned.tables st !! table).
Qed.

Lemma db_insert_error (rows : list Versioned.BaseRecord)
    (r : Versioned.BaseRecord) (e : Error) :
  Versioned.db_insert rows r = Throw e -> forall m', e <> NotRegistered m'.
Proof.
  unfold Versioned.db_insert. destruct (existsb _ rows); [|done].
  by intros [= <-].
Qed.

(** A validated call never meets the "not registered" of the
    operations. *)
Lemma validated_never_unknown (lc : string -> string) (eng : Engine)
    (modelName : string) (w : Z) (i : string)
    (d : Versioned.CreateRecordData) (upd : Versioned.UpdateData)
    (now : Z) (entityId newRowId : string) (m' : string) :
  consistent lc eng -> modelName ∈ getRegisteredModels eng ->
  (Versioned.create (crudOps eng) modelName d now entityId newRowId).1
    <> Throw (NotRegistered m') /\
  Versioned.get (crudOps eng) modelName w i <> Throw (NotRegistered m') /\
  Versioned.getAll (crudOps eng) modelName w <> Throw (NotRegistered m') /\
  (Versioned.update (crudOps eng) modelName w i upd now newRowId).1
    <> Throw (NotRegistered m') /\
  (Versioned.delete (crudOps eng) modelName w i now).1
    <> Throw (NotRegistered m').
Proof.
  intros Hc Hin.
  pose proof (registered_table lc eng modelName Hc Hin) as Ht.
  pose proof (resolve_registered _ _ _ m' Ht) as Hres.
  unfold Versioned.create, Versioned.get, Versioned.getAll,
    Versioned.update, Versioned.delete.
  destruct (Versioned.resolve (crudOps eng) modelName)
    as [[table rows]|e]; cbn [mbind Outcome_bind fst].
  - repeat split; try done.
    + destruct (Versioned.db_insert rows _) as [[rows' result]|e] eqn:E;
        [done|]. cbn. intros [= ->].
      by apply (db_insert_error _ _ _ E m').
    + destruct (Versioned.getLatestRecordById rows w i) as [prior|];
        [|done].
      destruct (Versioned.db_insert rows _) as [[rows' result]|e] eqn:E;
        [done|]. cbn. intros [= ->].
      by apply (db_insert_error _ _ _ E m').
    + destruct (Versioned.getLatestRecordById rows w i) as [a|];
        [|done].
      by destruct (Versioned.db_update rows _ _) as [rows' result].
  - assert (e <> NotRegistered m') by congruence.
    repeat split; cbn; congruence.
Qed.

Lemma of_outcome_unknown {A : Type} (o : Outcome A) (m' : string) :
  o <> Throw (NotRegistered m') ->
  of_outcome o <> Threw (FromOperations (NotRegistered m')).
Proof. destruct o as [a|e]; cbn; [done|]. intros H [= ->]. by apply H. Qed.

(** X15: the engine checks the model before it calls the operations.
    In an engine the public calls have led to, a call for a model that
    was not registered under exactly this name throws the error of the
    engine and changes nothing. A call for a registered model is the
    call of the operations on the state of the engine: it returns what
    they return, throws what they throw, and leaves the state they
    leave; and the operations then never throw their own "not
    registered". *)
Theorem engine_checks_model (lc : string -> string) (eng : Engine)
    (modelName : string) (w : Z) (i : string)
    (d : Versioned.CreateRecordData) (upd : Versioned.UpdateData)
    (now : Z) (entityId newRowId : string) :
  reachable lc eng ->
  (modelName ∉ getRegisteredModels eng ->
   let refused {A : Type} : Result A :=
     Threw (UseRegisterFirst modelName) in
   create eng modelName d now entityId newRowId = (refused, eng) /\
   get eng modelName w i = refused /\
   getAll eng modelName w = refused /\
   update eng modelName w i upd now newRowId = (refused, eng) /\
   delete eng modelName w i now = (refused, eng)) /\
  (modelName ∈ getRegisteredModels eng ->
   let created :=
     Versioned.create (crudOps eng) modelName d now entityId newRowId in
   let updated :=
     Versioned.update (crudOps eng) modelName w i upd now newRowId in
   let deleted := Versioned.delete (crudOps eng) modelName w i now in
   (create eng modelName d now entityId newRowId
      = (of_outcome created.1, with_ops eng created.2) /\
    get eng modelName w i
      = of_outcome (Versioned.get (crudOps eng) modelName w i) /\
    getAll eng modelName w
      = of_outcome (Versioned.getAll (crudOps eng) modelName w) /\
    update eng modelName w i upd now newRowId
      = (of_outcome updated.1, with_ops eng updated.2) /\
    delete eng modelName w i now
      = (of_outcome deleted.1, with_ops eng deleted.2)) /\
   forall m',
     let unknown {A : Type} : Result A :=
       Threw (FromOperations (NotRegistered m')) in
     (create eng modelName d now entityId newRowId).1 <> unknown /\
     get eng modelName w i <> unknown /\
     getAll eng modelName w <> unknown /\
     (update eng modelName w i upd now newRowId).1 <> unknown /\
     (delete eng modelName w i now).1 <> unknown).
Proof.
  intros Hr. pose proof (reachable_consistent lc eng Hr) as Hc. split.
  - intros Hout. apply validate_unregistered in Hout.
    unfold create, get, getAll, update, delete. by rewrite Hout.
  - intros Hin created updated deleted.
    pose proof (validate_registered eng modelName Hin) as Hval.
    assert (create eng modelName d now entityId newRowId
              = (of_outcome created.1, with_ops eng created.2) /\
            get eng modelName w i
              = of_outcome (Versioned.get (crudOps eng) modelName w i) /\
            getAll eng modelName w
              = of_outcome (Versioned.getAll (crudOps eng) modelName w) /\
            update eng modelName w i upd now newRowId
              = (of_outcome updated.1, with_ops eng updated.2) /\
            delete eng modelName w i now
              = (of_outcome deleted.1, with_ops eng deleted.2))
      as (Ecreate & Eget & EgetAll & Eupdate & Edelete).
    { unfold create, get, getAll, update, delete. rewrite Hval.
      subst created updated deleted.
      destruct (Versioned.create _ _ _ _ _ _) as [o1 s1].
      destruct (Versioned.update _ _ _ _ _ _ _) as [o2 s2].
      by destruct (Versioned.delete _ _ _ _ _) as [o3 s3]. }
    split; [done|]. intros m'. cbn zeta.
    destruct (validated_never_unknown lc eng modelName w i d upd now
                entityId newRowId m' Hc Hin) as (N1 & N2 & N3 & N4 & N5).
    rewrite Ecreate, Eget, EgetAll, Eupdate, Edelete. cbn [fst].
    repeat split; by apply of_outcome_unknown.
Qed.

(** X16: the name of a model is taken as it is written, the name of its
    table in lower case: two registered models whose names differ in
    case only share one table. Reading through one is reading through
    the other, and [create] and [delete] through one do what they do
    through the other. *)
Theorem case_shares_table (lc : string -> string) (eng : Engine)
    (m1 m2 : string) (w : Z) (i : string)
    (d : Versioned.CreateRecordData) (now : Z) (entityId newRowId : string) :
  reachable lc eng ->
  m1 ∈ getRegisteredModels eng -> m2 ∈ getRegisteredModels eng ->
  lc m1 = lc m2 ->
  get eng m1 w i = get eng m2 w i /\
  getAll eng m1 w = getAll eng m2 w /\
  create eng m1 d now entityId newRowId
    = create eng m2 d now entityId newRowId /\
  delete eng m1 w i now = delete eng m2 w i now.
Proof.
  intros Hr H1 H2 Hlc.
  pose proof (reachable_consistent lc eng Hr) as Hc.
  pose proof (registered_table lc eng m1 Hc H1) as Ht1.
  pose proof (registered_table lc eng m2 Hc H2) as Ht2.
  rewrite <- Hlc in Ht2.
  apply validate_registered in H1, H2.
  unfold get, getAll, create, delete. rewrite H1, H2.
  unfold Versioned.get, Versioned.getAll, Versioned.create,
    Versioned.delete, Versioned.resolve. rewrite Ht1, Ht2. done.
Qed.

(** X17: a registration the database refuses is not taken back: the call
    throws the error of the database, and the model is registered all
    the same, with its schema. The engine then accepts calls for it; when
    the database has no such table they fail there. *)
Theorem register_failure_keeps_model (lc : string -> string)
    (eng : Engine) (modelName : string) (schema : ModelSchema)
    (options : CrudOptions) (err : Error) :
  let r := register lc eng modelName schema options (Some err) in
  r.1 = Threw (FromOperations err) /\
  modelName ∈ getRegisteredModels r.2 /\
  validateModelExists r.2 modelName = Returned tt /\
  getModelSchema r.2 modelName = Some schema /\
  Versioned.tables (crudOps r.2) = Versioned.tables (crudOps eng) /\
  (Versioned.tables (crudOps eng) !! lc modelName = None ->
   forall d now entityId newRowId w i,
     create r.2 modelName d now entityId newRowId
       = (Threw (FromOperations (BackendError "relation does not exist")),
          r.2) /\
     get r.2 modelName w i
       = Threw (FromOperations (BackendError "relation does not exist"))).
Proof.
  intros r.
  assert (amap_get (registeredModels r.2) modelName
          = Some {| m_name := modelName;
                    m_schema := schema;
                    m_options :=
                      {| softDelete := Some true;
                         enableAuditLog :=
                           Some (default false (enableAuditLog options)) |};
                    m_tableName := lc modelName |}) as Hget.
  { subst r. rewrite models_after_register, amap_get_set.
    by rewrite String.eqb_refl. }
  assert (validateModelExists r.2 modelName = Returned tt) as Hval.
  { unfold validateModelExists. by rewrite Hget. }
  split; [reflexivity|].
  split; [apply amap_get_is_Some; by rewrite Hget|].
  split; [exact Hval|].
  split; [unfold getModelSchema; by rewrite Hget|].
  split; [reflexivity|].
  intros Hno d now entityId newRowId w i.
  unfold create, get. rewrite Hval.
  unfold Versioned.create, Versioned.get, Versioned.resolve.
  assert (Versioned.registeredTables (crudOps r.2) !! modelName
          = Some (lc modelName)) as ->.
  { subst r. rewrite ops_after_register, registered_after_registerTable.
    cbn [m_name m_tableName]. apply lookup_insert_eq. }
  assert (Versioned.tables (crudOps r.2) !! lc modelName = None) as ->
    by exact Hno.
  done.
Qed.

(** X18: registering a model again replaces its schema and nothing else:
    the model keeps its place in the list of the registered models, in
    which no name occurs twice, a new model is listed last, the schemas
    of the other models are unchanged, and every table keeps its rows.
    After a registration the database accepted the table exists. *)
Theorem register_again (lc : string -> string) (eng : Engine)
    (modelName : string) (schema : ModelSchema) (options : CrudOptions)
    (fault : option Error) :
  reachable lc eng ->
  let eng' := (register lc eng modelName schema options fault).2 in
  getRegisteredModels eng'
    = (if decide (modelName ∈ getRegisteredModels eng)
       then getRegisteredModels eng
       else getRegisteredModels eng ++ [modelName]) /\
  NoDup (getRegisteredModels eng') /\
  getModelSchema eng' modelName = Some schema /\
  (forall m', m' <> modelName ->
     getModelSchema eng' m' = getModelSchema eng m') /\
  (forall table rows,
     Versioned.tables (crudOps eng) !! table = Some rows ->
     Versioned.tables (crudOps eng') !! table = Some rows) /\
  (fault = None ->
   is_Some (Versioned.tables (crudOps eng') !! lc modelName)).
Proof.
  intros Hr eng'.
  split; [|split; [|split; [|split; [|split]]]].
  - unfold getRegisteredModels. subst eng'.
    by rewrite models_after_register, amap_set_keys.
  - apply (reachable_NoDup lc). by constructor.
  - unfold getModelSchema. subst eng'.
    rewrite models_after_register, amap_get_set.
    by rewrite String.eqb_refl.
  - intros m' Hne. unfold getModelSchema. subst eng'.
    rewrite models_after_register, amap_get_set.
    destruct (String.eqb_spec modelName m') as [->|]; [done|done].
  - intros table rows Ht. subst eng'. rewrite ops_after_register.
    unfold registerTable. destruct fault as [err|]; cbn [snd Versioned.tables];
      [done|]. cbn [m_tableName].
    destruct (Versioned.tables (crudOps eng) !! lc modelName) eqn:E;
      [done|].
    rewrite lookup_insert_ne; [done|]. congruence.
  - intros ->. subst eng'. rewrite ops_after_register.
    unfold registerTable. cbn [snd Versioned.tables m_tableName].
    destruct (Versioned.tables (crudOps eng) !! lc modelName) eqn:E.
    + rewrite E. eauto.
    + rewrite lookup_insert_eq. eauto.
Qed.

End CrudEngineFacts.


Lemma engine_user_reachable :
  CrudEngine.reachable CrudEngine.lower engine_user.
Proof. unfold engine_user. repeat constructor. Qed.

Lemma engine_user_twice_reachable :
  CrudEngine.reachable CrudEngine.lower engine_user_twice.
Proof.
  unfold engine_user_twice. constructor. apply engine_user_reachable.
Qed.

Lemma engine_checks_model_witness :
  CrudEngine.get engine_user "user" 1 "e1"
    = CrudEngine.Threw (CrudEngine.UseRegisterFirst "user") /\
  CrudEngine.get engine_user "User" 1 "e1"
    <> CrudEngine.Threw (CrudEngine.FromOperations (NotRegistered "User")).
Proof.
  split.
  - destruct (CrudEngineFacts.engine_checks_model CrudEngine.lower
                engine_user "user" 1 "e1"
                (Versioned.mkCreate 1 "n" Absent)
                (Versioned.mkUpdate Absent Absent) 0 "e1" "r1"
                engine_user_reachable) as [H _].
    apply H. vm_compute. by intros ?%list_elem_of_singleton.
  - destruct (CrudEngineFacts.engine_checks_model CrudEngine.lower
                engine_user "User" 1 "e1"
                (Versioned.mkCreate 1 "n" Absent)
                (Versioned.mkUpdate Absent Absent) 0 "e1" "r1"
                engine_user_reachable) as [_ H].
    apply (proj2 (H ltac:(vm_compute; by apply list_elem_of_singleton))
             "User").
Defined.

Lemma case_shares_table_witness :
  CrudEngine.create engine_user_twice "User"
    (Versioned.mkCreate 1 "n" Absent) 0 "e1" "r1"
  = CrudEngine.create engine_user_twice "USER"
      (Versioned.mkCreate 1 "n" Absent) 0 "e1" "r1".
Proof.
  apply (CrudEngineFacts.case_shares_table CrudEngine.lower
           engine_user_twice "User" "USER" 1 "e1"
           (Versioned.mkCreate 1 "n" Absent) 0 "e1" "r1"
           engine_user_twice_reachable).
  - vm_compute. apply elem_of_cons. by left.
  - vm_compute. apply elem_of_cons. right. by apply list_elem_of_singleton.
  - vm_compute. reflexivity.
Defined.

Lemma register_again_witness :
  CrudEngine.getRegisteredModels
    (CrudEngine.register CrudEngine.lower engine_user_twice "User" ∅
       (CrudEngine.mkOptions None None)
       (Some connection_refused)).2
  = ["User"; "USER"] /\
  CrudEngine.getModelSchema
    (CrudEngine.register CrudEngine.lower engine_user_twice "User" ∅
       (CrudEngine.mkOptions None None)
       (Some connection_refused)).2 "User"
  = Some ∅.
Proof.
  destruct (CrudEngineFacts.register_again CrudEngine.lower
              engine_user_twice "User" ∅ (CrudEngine.mkOptions None None)
              (Some connection_refused) engine_user_twice_reachable)
    as (Hl & _ & Hs & _).
  split; [|exact Hs].
  rewrite Hl. rewrite decide_True; [vm_compute; reflexivity|].
  vm_compute. apply elem_of_cons. by left.
Defined.


(* ===================================================================== *)
(** * The error handler *)
(* ===================================================================== *)

Lemma prefix_split (p s : string) :
  String.prefix p s = true <-> exists b, s = p +:+ b.
Proof.
  split.
  - revert s. induction p as [|c p IH]; intros s H.
    + by exists s.
    + destruct s as [|d s]; [discriminate H|]. cbn [String.prefix] in H.
      destruct (ascii_dec c d) as [->|]; [|discriminate H].
      destruct (IH s H) as [b ->]. by exists b.
  - intros [b ->]. apply prefix_app.
Qed.

Lemma includes_mentions (s sub : string) :
  ErrorHandler.includes s sub = true <-> ErrorHandler.mentions s sub.
Proof.
  unfold ErrorHandler.mentions. split.
  - induction s as [|c s IH]; cbn [ErrorHandler.includes];
      rewrite orb_true_iff.
    + intros [H|H]; [|discriminate H].
      apply prefix_split in H as [b Hb]. by exists "", b.
    + intros [H|H].
      * apply prefix_split in H as [b Hb]. by exists "", b.
      * destruct (IH H) as (a & b & ->). by exists (String c a), b.
  - intros (a & b & ->). induction a as [|c a IH].
    + change ("" +:+ sub +:+ b) with (sub +:+ b).
      destruct (sub +:+ b) eqn:E; cbn [ErrorHandler.includes];
        rewrite <- E, prefix_app; reflexivity.
    + rewrite append_cons. cbn [ErrorHandler.includes].
      rewrite IH. apply orb_true_r.
Qed.

(** X19: the handler answers every error with [success: false] and one
    of the statuses 503, 400 and 500. An error whose message has the
    word "connection" or "database" anywhere in it is answered 503
    without its message, also when it is a [ValidationError]; the message
    is given, as [details], only for an error without these words that
    is a [ValidationError] (status 400) or met in development (status
    500). *)
Theorem error_message_disclosure (error : ErrorHandler.JsError)
    (NODE_ENV : option string) :
  let response := ErrorHandler.errorHandler error NODE_ENV in
  let message := ErrorHandler.e_message error in
  let about_database :=
    ErrorHandler.mentions message "connection" \/
    ErrorHandler.mentions message "database" in
  ErrorHandler.r_success response.2 = false /\
  (response.1 = 503 <-> about_database) /\
  (response.1 = 400 <->
   ~ about_database /\ ErrorHandler.e_name error = "ValidationError") /\
  (response.1 = 500 <->
   ~ about_database /\ ErrorHandler.e_name error <> "ValidationError") /\
  (forall details, ErrorHandler.r_details response.2 = Some details <->
     details = message /\ ~ about_database /\
     (ErrorHandler.e_name error = "ValidationError" \/
      NODE_ENV = Some "development")).
Proof.
  intros response message about_database.
  assert (ErrorHandler.includes message "connection"
          || ErrorHandler.includes message "database" = true
          <-> about_database) as Hdb.
  { unfold about_database.
    by rewrite orb_true_iff, !includes_mentions. }
  subst response. unfold ErrorHandler.errorHandler. fold message.
  destruct (ErrorHandler.includes message "connection"
            || ErrorHandler.includes message "database") eqn:E.
  - assert about_database as Ha by by apply Hdb.
    cbn [fst snd ErrorHandler.r_success ErrorHandler.r_details].
    split; [done|]. split; [done|].
    split; [split; [done|tauto]|]. split; [split; [done|tauto]|].
    intros details. split; [done|tauto].
  - assert (~ about_database) as Hn.
    { intros Ha. apply Hdb in Ha. discriminate Ha. }
    destruct (String.eqb_spec (ErrorHandler.e_name error) "ValidationError")
      as [Hv|Hv];
      cbn [fst snd ErrorHandler.r_success ErrorHandler.r_details].
    + split; [done|]. split; [split; [done|tauto]|].
      split; [done|]. split; [split; [done|tauto]|].
      intros details. split; [intros [= <-]; tauto|].
      by intros (-> & _).
    + split; [done|]. split; [split; [done|tauto]|].
      split; [split; [done|tauto]|]. split; [done|].
      intros details. destruct NODE_ENV as [env|].
      * destruct (String.eqb_spec env "development") as [->|Hd].
        -- split; [intros [= <-]; tauto|]. by intros (-> & _).
        -- split; [done|]. intros (_ & _ & [?|[= ?]]); done.
      * split; [done|]. intros (_ & _ & [?|?]); done.
Qed.


(* ===================================================================== *)
(** * The offline queue *)
(* ===================================================================== *)

Module OfflineSyncFacts.
Import OfflineSync.

(** The requests of an operation do not depend on the answers. *)
Lemma sent_request_of (op : OfflineOperation)
    (answer : Request -> ApiOutcome) :
  (executeOnlineOperation op answer).2 = option_list (request_of op).
Proof.
  unfold request_of, executeOnlineOperation.
  destruct (o_operation op); [done| |];
    by destruct (read_id (o_data op)).
Qed.

Lemma no_request_fails (op : OfflineOperation)
    (answer : Request -> ApiOutcome) :
  request_of op = None ->
  (executeOnlineOperation op answer).1 = Failed (ErrorWithCode None).
Proof.
  unfold request_of, executeOnlineOperation.
  destruct (o_operation op); [done| |];
    by destruct (read_id (o_data op)).
Qed.

Lemma refused_fails (op : OfflineOperation)
    (answer : Request -> ApiOutcome) (request : Request) (f : Failure) :
  request_of op = Some request -> answer request = Failed f ->
  exists f', (executeOnlineOperation op answer).1 = Failed f'.
Proof.
  unfold request_of, executeOnlineOperation.
  destruct (o_operation op).
  - intros [= <-] ->. by exists f.
  - destruct (read_id (o_data op)); [|done].
    intros [= <-] ->. by exists f.
  - destruct (read_id (o_data op)); [|done].
    intros [= <-] ->. by exists f.
Qed.

Lemma accepted_responds (op : OfflineOperation)
    (answer : Request -> ApiOutcome) :
  is_Some (request_of op) ->
  (forall request, exists data, answer request = Responded data) ->
  exists data, (executeOnlineOperation op answer).1 = Responded data.
Proof.
  unfold request_of, executeOnlineOperation. intros Hs Ha.
  destruct (o_operation op).
  - apply Ha.
  - destruct (read_id (o_data op)); [apply Ha|by destruct Hs].
  - destruct (read_id (o_data op)) as [i|]; [|by destruct Hs].
    destruct (Ha (Delete (o_model op) i)) as [d ->]. by eexists.
Qed.

Lemma pending_cons (op : OfflineOperation) (ops : list OfflineOperation) :
  filter (fun op => o_synced op = false) (op :: ops)
  = if o_synced op then filter (fun op => o_synced op = false) ops
    else op :: filter (fun op => o_synced op = false) ops.
Proof.
  rewrite filter_cons. by destruct (o_synced op).
Qed.

Lemma omap_cons_list {A B : Type} (f : A -> option B) (x : A)
    (l : list A) :
  omap f (x :: l) = option_list (f x) ++ omap f l.
Proof. cbn. by destruct (f x). Qed.

(** What the loop does to the queue and what it sends. *)
Lemma sync_loop_queue (answer : nat -> Request -> ApiOutcome)
    (ops : list OfflineOperation) (n : nat) :
  let pending := filter (fun op => o_synced op = false) ops in
  Forall2 synced_or_same ops (sync_loop answer n ops).1.1 /\
  (sync_loop answer n ops).2 `prefix_of` omap request_of pending /\
  ((sync_loop answer n ops).1.2 = false ->
   (sync_loop answer n ops).2 = omap request_of pending).
Proof.
  revert n. induction ops as [|op ops IH]; intros n; cbn zeta.
  - cbn. split; [constructor|]. split; [done|done].
  - rewrite pending_cons. cbn [sync_loop].
    destruct (o_synced op) eqn:Es.
    + specialize (IH n). cbn zeta in IH.
      destruct (sync_loop answer n ops) as [[rest' lost] sent].
      cbn [fst snd] in *. destruct IH as (H1 & H2 & H3).
      split; [constructor; [by left|done]|]. by split.
    + rewrite omap_cons_list. specialize (IH (S n)). cbn zeta in IH.
      pose proof (sent_request_of op (answer n)) as Hsent.
      destruct (executeOnlineOperation op (answer n)) as [[d|f] sent0];
        cbn [snd] in Hsent; subst sent0.
      * destruct (sync_loop answer (S n) ops) as [[rest' lost] sent].
        cbn [fst snd] in *. destruct IH as (H1 & H2 & H3).
        split; [constructor; [by right|done]|].
        destruct (request_of op) as [rq|]; cbn [option_list app].
        -- split; [by apply prefix_cons|]. intros Hl. by rewrite H3.
        -- by split.
      * destruct (connection_lost f).
        -- cbn [fst snd]. split; [|split; [|done]].
           ++ apply Forall2_same_length_lookup_2; [done|].
              intros i x y Hx Hy. left. congruence.
           ++ apply prefix_app_r. done.
        -- destruct (sync_loop answer (S n) ops) as [[rest' lost] sent].
           cbn [fst snd] in *. destruct IH as (H1 & H2 & H3).
           split; [constructor; [by left|done]|].
           destruct (request_of op) as [rq|]; cbn [option_list app].
           ++ split; [by apply prefix_cons|]. intros Hl. by rewrite H3.
           ++ by split.
Qed.

(** A sync keeps the queue and sends requests of pending operations
    only. *)
Lemma sync_queue_kept (st : Service)
    (answer : nat -> Request -> ApiOutcome) (healthy : bool) :
  (forall r, r = syncPendingOperations st answer \/
             r = sync_tick st answer \/
             r = health_tick st healthy answer ->
     Forall2 synced_or_same (getOperationHistory st)
       (getOperationHistory r.1) /\
     r.2 `prefix_of` omap request_of (getPendingOperations st)) /\
  (isOnline (syncPendingOperations st answer).1 = true ->
   isOnline st = true /\
   (syncPendingOperations st answer).2
     = omap request_of (getPendingOperations st)) /\
  (isOnline st = false -> sync_tick st answer = (st, [])).
Proof.
  pose proof (sync_loop_queue answer (operations st) 0) as Hloop.
  cbn zeta in Hloop.
  assert (Forall2 synced_or_same (operations st) (operations st)) as Hsame.
  { apply Forall2_same_length_lookup_2; [done|].
    intros i x y Hx Hy. left. congruence. }
  assert (forall online,
            Forall2 synced_or_same (operations st)
              (operations
                 (syncPendingOperations
                    {| operations := operations st; isOnline := online |}
                    answer).1) /\
            (syncPendingOperations
               {| operations := operations st; isOnline := online |}
               answer).2
              `prefix_of` omap request_of (getPendingOperations st))
    as Hsync.
  { intros online. unfold syncPendingOperations, getPendingOperations.
    cbn [operations].
    destruct (sync_loop answer 0 (operations st)) as [[ops lost] sent].
    cbn [fst snd operations] in *. tauto. }
  split; [|split].
  - intros r [->|[->| ->]]; unfold getOperationHistory.
    + destruct st as [ops online]. apply (Hsync online).
    + unfold sync_tick. destruct (isOnline st) eqn:E.
      * destruct st as [ops online]. apply (Hsync online).
      * split; [done|apply prefix_nil].
    + unfold health_tick. destruct healthy.
      * destruct (negb (isOnline st)); [apply Hsync|].
        split; [done|apply prefix_nil].
      * split; [done|apply prefix_nil].
  - unfold syncPendingOperations, getPendingOperations.
    destruct (sync_loop answer 0 (operations st)) as [[ops lost] sent].
    cbn [fst snd isOnline] in *. destruct lost; [done|].
    intros ->. split; [done|]. by apply Hloop.
  - intros E. unfold sync_tick. by rewrite E.
Qed.

(** The loop stops at the first pending operation whose attempt finds
    the connection lost. *)
Lemma sync_loop_lost (answer : nat -> Request -> ApiOutcome)
    (ops : list OfflineOperation) (n i : nat) (op : OfflineOperation) :
  let pending := filter (fun op => o_synced op = false) ops in
  pending !! i = Some op ->
  finds_connection_lost (answer (n + i)%nat) op = true ->
  (forall j opj, (j < i)%nat -> pending !! j = Some opj ->
     finds_connection_lost (answer (n + j)%nat) opj = false) ->
  (sync_loop answer n ops).2 = omap request_of (take (S i) pending) /\
  (sync_loop answer n ops).1.2 = true /\
  drop i pending
    `suffix_of` filter (fun op => o_synced op = false)
                  (sync_loop answer n ops).1.1.
Proof.
  cbn zeta. revert n i.
  induction ops as [|x ops IH]; intros n i; [done|].
  rewrite pending_cons. cbn [sync_loop]. destruct (o_synced x) eqn:Es.
  - intros Hi Hlost Hbefore. specialize (IH n i Hi Hlost Hbefore).
    destruct (sync_loop answer n ops) as [[rest' lost] sent].
    cbn [fst snd] in *. by rewrite pending_cons, Es.
  - pose proof (sent_request_of x (answer n)) as Hsent.
    destruct i as [|i]; cbn [lookup list_lookup]; intros Hi Hlost Hbefore.
    + injection Hi as ->. rewrite Nat.add_0_r in Hlost.
      unfold finds_connection_lost in Hlost.
      destruct (executeOnlineOperation op (answer n)) as [[data|f] sent0];
        cbn [fst snd] in *; [discriminate Hlost|].
      rewrite Hlost. cbn [fst snd take]. subst sent0.
      rewrite omap_cons_list, pending_cons, Es.
      split; [by rewrite app_nil_r|]. split; [done|]. by cbn [drop].
    + assert (finds_connection_lost (answer n) x = false) as Hx.
      { rewrite <- (Nat.add_0_r n). apply Hbefore; [lia|done]. }
      assert ((sync_loop answer (S n) ops).2
                = omap request_of
                    (take (S i)
                       (filter (fun op => o_synced op = false) ops)) /\
              (sync_loop answer (S n) ops).1.2 = true /\
              drop i (filter (fun op => o_synced op = false) ops)
                `suffix_of` filter (fun op => o_synced op = false)
                              (sync_loop answer (S n) ops).1.1)
        as (H1 & H2 & H3).
      { apply IH; [done| |].
        - by rewrite Nat.add_succ_comm.
        - intros j opj Hj Hopj. rewrite Nat.add_succ_comm.
          apply Hbefore; [lia|done]. }
      unfold finds_connection_lost in Hx.
      destruct (executeOnlineOperation x (answer n)) as [[data|f] sent0];
        cbn [fst snd] in *; subst sent0.
      * destruct (sync_loop answer (S n) ops) as [[rest' lost] sent].
        cbn [fst snd] in *. rewrite pending_cons. cbn [mark_synced o_synced].
        split; [|by split].
        rewrite H1. change (take (S (S i)) (x :: ?l)) with (x :: take (S i) l).
        by rewrite omap_cons_list.
      * rewrite Hx.
        destruct (sync_loop answer (S n) ops) as [[rest' lost] sent].
        cbn [fst snd] in *. rewrite pending_cons, Es.
        split; [|split; [done|by apply suffix_cons_r]].
        rewrite H1. change (take (S (S i)) (x :: ?l)) with (x :: take (S i) l).
        by rewrite omap_cons_list.
Qed.

(** When no attempt finds the connection lost, the loop goes through the
    queue. *)
Lemma sync_loop_through (answer : nat -> Request -> ApiOutcome)
    (ops : list OfflineOperation) (n : nat) :
  (forall j opj,
     filter (fun op => o_synced op = false) ops !! j = Some opj ->
     finds_connection_lost (answer (n + j)%nat) opj = false) ->
  (sync_loop answer n ops).1.2 = false.
Proof.
  revert n. induction ops as [|x ops IH]; intros n; [done|].
  rewrite pending_cons. cbn [sync_loop]. destruct (o_synced x) eqn:Es.
  - intros Hall. specialize (IH n Hall).
    by destruct (sync_loop answer n ops) as [[rest' lost] sent].
  - intros Hall.
    assert (finds_connection_lost (answer n) x = false) as Hx.
    { rewrite <- (Nat.add_0_r n). by apply (Hall 0%nat). }
    assert ((sync_loop answer (S n) ops).1.2 = false) as H.
    { apply IH. intros j opj Hopj. rewrite Nat.add_succ_comm.
      by apply (Hall (S j)). }
    unfold finds_connection_lost in Hx.
    destruct (executeOnlineOperation x (answer n)) as [[data|f] sent0];
      cbn [fst snd] in *.
    + by destruct (sync_loop answer (S n) ops) as [[rest' lost] sent].
    + rewrite Hx.
      by destruct (sync_loop answer (S n) ops) as [[rest' lost] sent].
Qed.

(** X20: a sync removes no operation from the queue, adds none and
    changes none but for the mark [synced], which it only sets. It tries
    the pending operations in the order of the queue, the answer to the
    operation tried as number [j] being [answer j], and stops at the
    first whose attempt finds the connection lost: the requests sent are
    those of the pending operations up to and including that one, the
    service is offline afterwards, and that operation and all after it
    are pending as before. When no attempt finds the connection lost,
    the requests of all pending operations are sent and the service is
    online or offline as it was. The timer does not sync while the
    service is offline. *)
Theorem sync_keeps_queue (st : Service)
    (answer : nat -> Request -> ApiOutcome) (healthy : bool) :
  let pending := getPendingOperations st in
  let synced := syncPendingOperations st answer in
  (forall r, r = syncPendingOperations st answer \/
             r = sync_tick st answer \/
             r = health_tick st healthy answer ->
     Forall2 synced_or_same (getOperationHistory st)
       (getOperationHistory r.1) /\
     r.2 `prefix_of` omap request_of pending) /\
  (forall i op,
     pending !! i = Some op ->
     finds_connection_lost (answer i) op = true ->
     (forall j opj, (j < i)%nat -> pending !! j = Some opj ->
        finds_connection_lost (answer j) opj = false) ->
     synced.2 = omap request_of (take (S i) pending) /\
     isOnline synced.1 = false /\
     drop i pending `suffix_of` getPendingOperations synced.1) /\
  ((forall j opj, pending !! j = Some opj ->
      finds_connection_lost (answer j) opj = false) ->
   synced.2 = omap request_of pending /\
   isOnline synced.1 = isOnline st) /\
  (isOnline synced.1 = true ->
   isOnline st = true /\ synced.2 = omap request_of pending) /\
  (isOnline st = false -> sync_tick st answer = (st, [])).
Proof.
  intros pending synced.
  destruct (sync_queue_kept st answer healthy) as (Hkept & Honline & Htick).
  split; [exact Hkept|]. split; [|split; [|split; [exact Honline|exact Htick]]].
  - intros i op Hi Hlost Hbefore.
    destruct (sync_loop_lost answer (operations st) 0 i op Hi Hlost Hbefore)
      as (H1 & H2 & H3).
    subst synced pending.
    unfold syncPendingOperations, getPendingOperations in *.
    destruct (sync_loop answer 0 (operations st)) as [[ops lost] sent].
    cbn [fst snd operations isOnline] in *. subst lost. by split.
  - intros Hall.
    pose proof (sync_loop_through answer (operations st) 0 Hall) as Hthrough.
    pose proof (sync_loop_queue answer (operations st) 0) as Hloop.
    cbn zeta in Hloop. subst synced pending.
    unfold syncPendingOperations, getPendingOperations in *.
    destruct (sync_loop answer 0 (operations st)) as [[ops lost] sent].
    cbn [fst snd operations isOnline] in *. subst lost.
    destruct Hloop as (_ & _ & Hsent). split; [by apply Hsent|done].
Qed.

(** A server that accepts every request empties the pending list. *)
Lemma sync_loop_accepted (answer : nat -> Request -> ApiOutcome)
    (ops : list OfflineOperation) (n : nat) :
  accepts_all answer ->
  Forall (fun op => o_synced op = false -> is_Some (request_of op)) ops ->
  filter (fun op => o_synced op = false) (sync_loop answer n ops).1.1 = []
  /\ (sync_loop answer n ops).1.2 = false.
Proof.
  intros Ha. revert n. induction ops as [|op ops IH]; intros n Hall.
  - done.
  - apply Forall_cons in Hall as [Hop Hall]. cbn [sync_loop].
    destruct (o_synced op) eqn:Es.
    + specialize (IH n Hall).
      destruct (sync_loop answer n ops) as [[rest' lost] sent].
      cbn [fst snd] in *. rewrite pending_cons, Es. done.
    + destruct (accepted_responds op (answer n) (Hop eq_refl) (Ha n))
        as [d Hd].
      destruct (executeOnlineOperation op (answer n)) as [o sent0].
      cbn [fst] in Hd. subst o. specialize (IH (S n) Hall).
      destruct (sync_loop answer (S n) ops) as [[rest' lost] sent].
      cbn [fst snd] in *. rewrite pending_cons. done.
Qed.

(** X21: when the server accepts every request and every pending
    operation stands for a request, a sync leaves no operation pending,
    sends one request for each, in the order of the queue, and leaves
    the service online or offline as it was. *)
Theorem sync_all_accepted (st : Service)
    (answer : nat -> Request -> ApiOutcome) :
  accepts_all answer ->
  (forall op, op ∈ getPendingOperations st -> is_Some (request_of op)) ->
  let r := syncPendingOperations st answer in
  getPendingOperations r.1 = [] /\
  isOnline r.1 = isOnline st /\
  r.2 = omap request_of (getPendingOperations st) /\
  length r.2 = length (getPendingOperations st).
Proof.
  intros Ha Hreq r.
  assert (Forall (fun op => o_synced op = false -> is_Some (request_of op))
            (operations st)) as Hall.
  { apply Forall_forall. intros op Hin Hs. apply Hreq.
    unfold getPendingOperations. by apply list_elem_of_filter. }
  pose proof (sync_loop_accepted answer (operations st) 0 Ha Hall) as Hacc.
  pose proof (sync_loop_queue answer (operations st) 0) as Hloop.
  cbn zeta in Hloop. subst r.
  unfold syncPendingOperations, getPendingOperations in *.
  destruct (sync_loop answer 0 (operations st)) as [[ops lost] sent].
  cbn [fst snd operations isOnline] in *.
  destruct Hacc as [Hnil ->]. destruct Hloop as (_ & _ & Hsent).
  rewrite (Hsent eq_refl). repeat split; try done.
  clear -Hreq. induction (filter _ (operations st)) as [|op l IH];
    [done|].
  destruct (Hreq op ltac:(by left)) as [rq Hrq]. rewrite omap_cons_list.
  rewrite Hrq. cbn. f_equal. apply IH.
  intros op' Hin. apply Hreq. by right.
Qed.

Lemma sync_loop_stuck (answer : nat -> Request -> ApiOutcome)
    (op : OfflineOperation) (ops : list OfflineOperation) (n : nat) :
  never_accepted answer op ->
  op ∈ filter (fun op => o_synced op = false) ops ->
  op ∈ filter (fun op => o_synced op = false) (sync_loop answer n ops).1.1.
Proof.
  intros Hnever. revert n.
  induction ops as [|x ops IH]; intros n; [done|].
  rewrite pending_cons. cbn [sync_loop]. destruct (o_synced x) eqn:Es.
  - intros Hin. specialize (IH n Hin).
    destruct (sync_loop answer n ops) as [[rest' lost] sent].
    cbn [fst snd] in *. by rewrite pending_cons, Es.
  - intros Hin. apply elem_of_cons in Hin as [<-|Hin].
    + assert (exists f, (executeOnlineOperation op (answer n)).1 = Failed f)
        as [f Hf].
      { destruct (request_of op) as [rq|] eqn:Erq.
        - destruct (Hnever rq Erq n) as [f Hf].
          apply (refused_fails op (answer n) rq f Erq Hf).
        - eexists. by apply no_request_fails. }
      destruct (executeOnlineOperation op (answer n)) as [o sent0].
      cbn [fst] in Hf. subst o. destruct (connection_lost f).
      * cbn [fst]. rewrite pending_cons, Es. by left.
      * destruct (sync_loop answer (S n) ops) as [[rest' lost] sent].
        cbn [fst]. rewrite pending_cons, Es. by left.
    + specialize (IH (S n) Hin).
      destruct (executeOnlineOperation x (answer n)) as [[d|f] sent0].
      * destruct (sync_loop answer (S n) ops) as [[rest' lost] sent].
        cbn [fst] in *. rewrite pending_cons. cbn [mark_synced o_synced].
        done.
      * destruct (connection_lost f).
        -- cbn [fst]. rewrite pending_cons, Es. by right.
        -- destruct (sync_loop answer (S n) ops) as [[rest' lost] sent].
           cbn [fst] in *. rewrite pending_cons, Es. by right.
Qed.

(** X22: the queue drops no operation. A pending operation whose
    request the server never accepts, or that stands for no request
    because it is an update or a delete whose data is [undefined] or
    [null], is pending after every sync, every tick of a timer and every
    further call. *)
Theorem pending_never_dropped (st : Service) (op : OfflineOperation)
    (answer : nat -> Request -> ApiOutcome) (healthy : bool)
    (model : string) (kind : OperationKind) (data : JsValue)
    (id : option string) (generated : string) (now : Z) :
  op ∈ getPendingOperations st ->
  never_accepted answer op ->
  op ∈ getPendingOperations (syncPendingOperations st answer).1 /\
  op ∈ getPendingOperations (sync_tick st answer).1 /\
  op ∈ getPendingOperations (health_tick st healthy answer).1 /\
  op ∈ getPendingOperations
         (executeOperation st model kind data id generated now
            (answer 0%nat)).1.2.
Proof.
  intros Hin Hnever.
  assert (forall online,
            op ∈ getPendingOperations
                   (syncPendingOperations
                      {| operations := operations st; isOnline := online |}
                      answer).1) as Hsync.
  { intros online. unfold syncPendingOperations, getPendingOperations.
    cbn [operations].
    pose proof (sync_loop_stuck answer op (operations st) 0 Hnever Hin)
      as H.
    destruct (sync_loop answer 0 (operations st)) as [[ops lost] sent].
    exact H. }
  split; [|split; [|split]].
  - destruct st as [ops online]. apply (Hsync online).
  - unfold sync_tick. destruct (isOnline st) eqn:E; [|done].
    destruct st as [ops online]. apply (Hsync online).
  - unfold health_tick. destruct healthy; [|done].
    destruct (negb (isOnline st)); [apply Hsync|done].
  - unfold executeOperation. destruct (isOnline st).
    + destruct (executeOnlineOperation _ (answer 0%nat))
        as [[d|f] sent]; [done|].
      cbn [fst snd]. unfold getPendingOperations. cbn [operations].
      rewrite filter_app. apply elem_of_app. by left.
    + cbn [fst snd]. unfold getPendingOperations. cbn [operations].
      rewrite filter_app. apply elem_of_app. by left.
Qed.

(** X23: [executeOperation] queues an operation exactly when it was not
    accepted online. With the result of the server it leaves the queue
    and the service as they were: an operation that went through leaves
    no trace in the history. Otherwise the operation is the last of the
    history and of the pending operations, not synced, under the id
    given or, when none or an empty one is given, the generated one, and
    the service is offline, whatever made the request fail. While the
    service is offline nothing is sent. *)
Theorem executeOperation_queues (st : Service) (model : string)
    (kind : OperationKind) (data : JsValue) (id : option string)
    (generated : string) (now : Z) (answer : Request -> ApiOutcome) :
  let r := executeOperation st model kind data id generated now answer in
  match r.1.1 with
  | FromServer result =>
      isOnline st = true /\ r.1.2 = st /\
      exists op, content op = (o_id op, model, kind, data, now) /\
                 (executeOnlineOperation op answer).1 = Responded result /\
                 r.2 = option_list (request_of op)
  | Pending op =>
      content op
        = (match id with
           | Some i => if String.eqb i "" then generated else i
           | None => generated
           end, model, kind, data, now) /\
      o_synced op = false /\
      getOperationHistory r.1.2 = getOperationHistory st ++ [op] /\
      getPendingOperations r.1.2 = getPendingOperations st ++ [op] /\
      isOnline r.1.2 = false /\
      (isOnline st = false -> r.2 = []) /\
      (isOnline st = true ->
       exists f, (executeOnlineOperation op answer).1 = Failed f)
  end.
Proof.
  intros r. subst r. unfold executeOperation.
  destruct (isOnline st) eqn:Eon.
  - match goal with
    | |- context [executeOnlineOperation ?o answer] => set (op := o)
    end.
    pose proof (sent_request_of op answer) as Hsent.
    destruct (executeOnlineOperation op answer) as [[d|f] sent] eqn:E;
      cbn [fst snd] in *.
    + split; [done|]. split; [done|]. exists op.
      split; [done|]. rewrite E. by split.
    + unfold getOperationHistory, getPendingOperations. cbn [operations].
      rewrite filter_app.
      repeat split; try done. intros _. exists f. by rewrite ?E.
  - cbn [fst snd]. unfold getOperationHistory, getPendingOperations.
    cbn [operations isOnline]. rewrite filter_app.
    repeat split; done.
Qed.

End OfflineSyncFacts.


Lemma sync_all_accepted_witness :
  OfflineSync.getPendingOperations
    (OfflineSync.syncPendingOperations
       (OfflineSync.mkService [synced_delete; queued_create] true)
       accepting).1 = [] /\
  (OfflineSync.syncPendingOperations
     (OfflineSync.mkService [synced_delete; queued_create] true)
     accepting).2
  = [OfflineSync.Post "users" (VObj [("name", VStr "Ada")])].
Proof.
  destruct (OfflineSyncFacts.sync_all_accepted
              (OfflineSync.mkService [synced_delete; queued_create] true)
              accepting) as (H1 & _ & H2 & _).
  - intros n request. by exists VNull.
  - intros op Hin. vm_compute in Hin.
    apply list_elem_of_singleton in Hin as ->. by eexists.
  - split; [exact H1|]. rewrite H2. vm_compute. reflexivity.
Defined.

Lemma pending_never_dropped_witness :
  queued_update_null
    ∈ OfflineSync.getPendingOperations
        (OfflineSync.syncPendingOperations
           (OfflineSync.mkService [queued_create; queued_update_null] true)
           accepting).1.
Proof.
  apply (OfflineSyncFacts.pending_never_dropped
           (OfflineSync.mkService [queued_create; queued_update_null] true)
           queued_update_null accepting true "users" OfflineSync.k_create
           VNull None "offline_1_2" 400).
  - vm_compute. apply elem_of_cons. right. by apply list_elem_of_singleton.
  - intros request H. vm_compute in H. discriminate H.
Defined.


(* ===================================================================== *)
(** * What every state of the append-only engine keeps *)
(* ===================================================================== *)

Module ReachableFacts.
Import Versioned VersionedFacts.

Lemma deleted_stamp_set_table (st : State) (table : string)
    (rows' : list BaseRecord) :
  (forall t rows, tables st !! t = Some rows -> deleted_stamp rows) ->
  deleted_stamp rows' ->
  forall t rows, tables (set_table st table rows') !! t = Some rows ->
                 deleted_stamp rows.
Proof.
  intros Hall Hnew t rows. unfold set_table. cbn [tables].
  destruct (decide (t = table)) as [->|Hne].
  - rewrite lookup_insert_eq. by intros [= <-].
  - rewrite lookup_insert_ne; [|done]. apply Hall.
Qed.

Lemma deleted_stamp_snoc (rows : list BaseRecord) (r : BaseRecord) :
  deleted_stamp rows -> deletedAt r = None -> deleted_stamp (rows ++ [r]).
Proof.
  intros H Hr x t [Hx| ->%list_elem_of_singleton]%elem_of_app Hd.
  - by apply H.
  - congruence.
Qed.

Lemma deleted_stamp_reachable (st : State) :
  reachable st ->
  forall table rows, tables st !! table = Some rows -> deleted_stamp rows.
Proof.
  induction 1 as [st Hempty
                 |st modelName d now entityId newRowId _ IH _
                 |st modelName w i upd now newRowId _ IH
                 |st modelName w i now _ IH].
  - intros table rows Hrows. rewrite (Hempty table rows Hrows).
    by intros r t ?%elem_of_nil.
  - unfold create, resolve.
    destruct (registeredTables st !! modelName) as [table|]; [|done].
    destruct (tables st !! table) as [rows|] eqn:Htab; [|done].
    destruct (db_insert rows _) as [[rows' result]|e] eqn:Hi; [|done].
    apply db_insert_Ok in Hi as (-> & _ & _). cbn [snd].
    apply deleted_stamp_set_table; [done|].
    apply deleted_stamp_snoc; [by apply (IH table)|done].
  - unfold update, resolve.
    destruct (registeredTables st !! modelName) as [table|]; [|done].
    destruct (tables st !! table) as [rows|] eqn:Htab; [|done].
    destruct (getLatestRecordById rows w i) as [prior|]; [|done].
    destruct (db_insert rows _) as [[rows' result]|e] eqn:Hi; [|done].
    apply db_insert_Ok in Hi as (-> & _ & _). cbn [snd].
    apply deleted_stamp_set_table; [done|].
    apply deleted_stamp_snoc; [by apply (IH table)|done].
  - unfold delete, resolve.
    destruct (registeredTables st !! modelName) as [table|]; [|done].
    destruct (tables st !! table) as [rows|] eqn:Htab; [|done].
    destruct (getLatestRecordById rows w i) as [a|]; [|done].
    unfold db_update. cbn [snd].
    apply deleted_stamp_set_table; [done|].
    intros r t Hr Hd.
    apply list_elem_of_In, in_map_iff in Hr as (x & <- & Hx).
    apply list_elem_of_In in Hx.
    destruct (sql_and _ x) eqn:Ec.
    + cbn [mark_deleted deletedAt updatedAt] in *. congruence.
    + by apply (IH table rows Htab x).
Qed.

(** X24: what the tables keep in every state the calls of [create],
    [update] and [delete] lead to from empty tables, when [create] draws
    an entity id no row has: no two rows have one row id, the versions of
    an entity all carry the [createdAt] of its first, and a deleted row
    was last written when it was deleted. *)
Theorem reachable_invariants (st : State) (table : string)
    (rows : list BaseRecord) :
  reachable st -> tables st !! table = Some rows ->
  rowId_unique rows /\ createdAt_stable rows /\ deleted_stamp rows.
Proof.
  intros Hr Ht.
  destruct (reachable_well_formed st Hr table rows Ht) as [Hu Hs].
  split; [done|]. split; [done|].
  by apply (deleted_stamp_reachable st Hr table).
Qed.

Lemma reachable_invariants_witness :
  rowId_unique [row_v1; row_v2] /\ createdAt_stable [row_v1; row_v2] /\
  deleted_stamp [row_v1; row_v2].
Proof.
  exact (reachable_invariants st_updated "user" [row_v1; row_v2]
           reachable_updated eq_refl).
Defined.

End ReachableFacts.
